(** * The iOptron telescope driver: reply decoding and coordinate encoding

    A shallow embedding of the protocol logic of
    [src/drivers/iOptron/Telescope/telescopedriver_iOptron.cpp]:
    the validity check, the response processors ([:GEP#], [:GLS#], RA, DEC
    and the generic dispatcher), the sexagesimal parsers, the periodic poll
    and the slew / sync coordinate encoders.

    Conventions of the embedding.
    - A C string is a [string]: the bytes before the terminating NUL.
    - A [double] is the rational number it denotes ([Q]).  Every arithmetic
      operation rounds its exact result to the nearest binary64 number, ties
      to even ([round64]); comparisons are exact.
    - [int64_t] and [int] values are integers ([Z]); the places where the
      machine width matters ([atoi], [atoll], the conversion of a [double]
      to [int64_t]) write the width out.
    - Reads of the reply buffer by offset ([dataBuffer[i]],
      [&dataBuffer[i]]) go through the monad [Buf.M], which records every
      offset that is dereferenced and fails on an offset outside the frame.
      Library calls that scan the NUL-terminated string as a whole
      ([strlen], [strchr], [atoi], the [isdigit] walk) stop at the
      terminator and are not recorded.
    - The descriptor and what lies behind it are a state [T] with a [write]
      and a [select] / [read] round; the framer, the queue drain and the poll
      thread that state. *)

From Stdlib Require Import ZArith QArith Qround Qabs Qpower Lqa Bool List Lia.
From Stdlib Require Import Ascii String.
Import ListNotations.

Open Scope string_scope.
Open Scope Z_scope.

(** ** Characters and the C library *)

Definition isdigit (c : ascii) : bool :=
  let n := nat_of_ascii c in
  ((48 <=? n) && (n <=? 57))%nat.

Definition isspace (c : ascii) : bool :=
  let n := nat_of_ascii c in
  ((n =? 32) || ((9 <=? n) && (n <=? 13)))%nat.

(** [c - '0'] *)
Definition minus_zero (c : ascii) : Z := Z.of_nat (nat_of_ascii c) - 48.

Definition strlen (s : string) : nat := String.length s.

(** [strchr(s, c) != NULL] *)
Fixpoint strchr (s : string) (c : ascii) : bool :=
  match s with
  | EmptyString => false
  | String a r => if Ascii.eqb a c then true else strchr r c
  end.

(** [strncmp(s, t, 1) == 0] for a one-character literal [t] *)
Definition strncmp1_eq (s : string) (t : ascii) : bool :=
  match s with
  | EmptyString => false
  | String a _ => Ascii.eqb a t
  end.

Definition clamp (lo hi x : Z) : Z :=
  if x <? lo then lo else if hi <? x then hi else x.

Definition INT64_MIN : Z := - 2 ^ 63.
Definition INT64_MAX : Z := 2 ^ 63 - 1.

(** Two's complement reduction to a signed 32-bit [int]. *)
Definition wrap32 (x : Z) : Z := (x + 2 ^ 31) mod 2 ^ 32 - 2 ^ 31.

Fixpoint skip_space (s : string) : string :=
  match s with
  | EmptyString => EmptyString
  | String c r => if isspace c then skip_space r else s
  end.

(** The digit loop of [strtoll]: the run of decimal digits at the head of
    [s], accumulated in base ten. *)
Fixpoint digits_acc (s : string) (acc : Z) : Z :=
  match s with
  | EmptyString => acc
  | String c r => if isdigit c then digits_acc r (acc * 10 + minus_zero c) else acc
  end.

(** [strtoll(s, NULL, 10)]: white space, an optional sign, digits; the result
    saturates at the ends of the 64-bit range. *)
Definition strtoll (s : string) : Z :=
  let s1 := skip_space s in
  let '(neg, s2) :=
    match s1 with
    | String "-"%char r => (true, r)
    | String "+"%char r => (false, r)
    | _ => (false, s1)
    end in
  let v := digits_acc s2 0 in
  clamp INT64_MIN INT64_MAX (if neg then - v else v).

Definition atoll (s : string) : Z := strtoll s.

(** [atoi] is [(int) strtol(s, NULL, 10)], with a 64-bit [long]. *)
Definition atoi (s : string) : Z := wrap32 (strtoll s).

(** [while (isdigit( *charPtr)) charPtr++;] *)
Fixpoint skip_digits (s : string) : string :=
  match s with
  | EmptyString => EmptyString
  | String c r => if isdigit c then skip_digits r else s
  end.

(** [(int64_t) x] for a double [x]: truncation toward zero; a value that does
    not fit yields the "integer indefinite" value [INT64_MIN], as the
    conversion instruction of x86-64 does. *)
Definition double_to_int64 (x : Q) : Z :=
  let z := Z.quot (Qnum x) (Zpos (Qden x)) in
  if (INT64_MIN <=? z) && (z <=? INT64_MAX) then z else INT64_MIN.

(** ** Binary64 arithmetic

    A [double] is the rational number it denotes.  An operation of the source
    on doubles is the exact operation on rationals followed by [round64],
    rounding to the nearest binary64 number with ties to even, as IEEE 754
    has it.  The exponent is not bounded above: a result of magnitude
    [2 ^ 1024] or more stands for an infinity.  No operation of the source
    produces a NaN from finite operands, and the sign of a zero is not
    kept. *)

(** [floor (log2 |x|)], for [x] other than zero. *)
Definition ilog2 (x : Q) : Z :=
  let a := Qabs x in
  if Qle_bool 1 a then Z.log2 (Qfloor a) else - Z.log2_up (Qceiling (/ a)).

(** The exponent of the last bit of the 53-bit mantissa of [x]; for a
    subnormal number it is the smallest exponent, -1074. *)
Definition ulp_exp (x : Q) : Z := Z.max (ilog2 x - 52) (-1074).

(** The integer nearest to [y], the even one of the two when [y] lies half
    way. *)
Definition round_half_even (y : Q) : Z :=
  let f := Qfloor y in
  match (y - inject_Z f ?= 1 # 2)%Q with
  | Lt => f
  | Gt => f + 1
  | Eq => if Z.even f then f else f + 1
  end.

Definition round64 (x : Q) : Q :=
  if Qeq_bool x 0 then 0%Q
  else
    let e := ulp_exp x in
    Qred (inject_Z (round_half_even (x / 2 ^ e)) * 2 ^ e)%Q.

Definition fadd (x y : Q) : Q := round64 (x + y).
Definition fsub (x y : Q) : Q := round64 (x - y).
Definition fmul (x y : Q) : Q := round64 (x * y).
Definition fdiv (x y : Q) : Q := round64 (x / y).

(** [(double) n] for an integer [n]. *)
Definition double_of_Z (n : Z) : Q := round64 (inject_Z n).

(** The numbers [m * 2 ^ e] with a mantissa of at most 53 bits and an
    exponent of at least -1074: the binary64 numbers, and beyond the largest
    of them the values that stand for an infinity. *)
Definition binary64 (x : Q) : Prop :=
  exists m e : Z, Z.abs m <= 2 ^ 53 /\ -1074 <= e /\ (x == inject_Z m * 2 ^ e)%Q.

(** A finite [double]. *)
Definition finite_double (x : Q) : Prop := binary64 x /\ (Qabs x < 2 ^ 1024)%Q.

(** ** [sprintf] with [%0w lld] *)

Definition digit_char (d : Z) : ascii := ascii_of_nat (48 + Z.to_nat d).

(** The decimal digits of [n >= 0], most significant first, pushed in front
    of [acc]; [fuel] bounds the number of digits. *)
Fixpoint utoa_fuel (fuel : nat) (n : Z) (acc : string) : string :=
  match fuel with
  | O => acc
  | S f =>
      let acc' := String (digit_char (n mod 10)) acc in
      if n / 10 =? 0 then acc' else utoa_fuel f (n / 10) acc'
  end.

(** An [int64_t] has at most 19 decimal digits. *)
Definition utoa (n : Z) : string := utoa_fuel 19 n EmptyString.

Fixpoint zeros (k : nat) : string :=
  match k with
  | O => EmptyString
  | S k' => String "0"%char (zeros k')
  end.

(** [sprintf(out, "%0<w>lld", n)]: sign first, then zeros up to the width,
    then the digits; a number wider than [w] is printed in full. *)
Definition sprintf_0lld (w : nat) (n : Z) : string :=
  let body := utoa (Z.abs n) in
  let sgn := if n <? 0 then "-" else "" in
  sgn ++ zeros (w - String.length sgn - String.length body) ++ body.

(** ** Reads of the reply buffer *)

Module Buf.

(** A computation over the buffer: it threads the list of offsets read so
    far (latest first) and fails ([None]) on an out-of-bounds read. *)
Definition M (A : Type) : Type := list nat -> option (A * list nat).

Definition ret {A : Type} (a : A) : M A := fun tr => Some (a, tr).

Definition bind {A B : Type} (m : M A) (k : A -> M B) : M B :=
  fun tr =>
    match m tr with
    | Some (a, tr') => k a tr'
    | None => None
    end.

(** [buf[i]].  Offsets at or past [strlen buf] count as out of bounds
    (C itself would still find the terminating NUL at offset [strlen]). *)
Definition peek (buf : string) (i : nat) : M ascii :=
  fun tr =>
    match String.get i buf with
    | Some c => Some (c, i :: tr)
    | None => None
    end.

(** [strncpy(dst, &buf[off], n); dst[n] = 0;] *)
Fixpoint strncpy_at (buf : string) (off n : nat) : M string :=
  match n with
  | O => ret EmptyString
  | S n' =>
      bind (peek buf off) (fun c =>
      bind (strncpy_at buf (S off) n') (fun r =>
      ret (String c r)))
  end.

(** Run from an empty trace. *)
Definition run {A : Type} (m : M A) : option (A * list nat) := m [].

End Buf.

Notation "x <- m ;; k" := (Buf.bind m (fun x => k))
  (at level 61, m at next level, right associativity).

(** ** Driver state *)

Inductive TYPE_DriveRates : Type :=
| kDriveRate_driveSidereal
| kDriveRate_driveLunar
| kDriveRate_driveSolar
| kDriveRate_driveKing.

Inductive DeviceConnectionType : Type :=
| kDevCon_Ethernet
| kDevCon_USB
| kDevCon_Serial
| kDevCon_Custom.

Inductive TYPE_ASCOM_STATUS : Type :=
| kASCOM_Err_Success
| kASCOM_Err_NotConnected
| kASCOM_Err_InvalidValue
| kASCOM_Err_NotImplemented.

(** The fields of [cTelescopeProp] that the decoders write. *)
Record TelescopeProp : Type := mkProp {
  RightAscension : Q;
  Declination : Q;
  Slewing : bool;
  Tracking : bool;
  AtPark : bool;
  TrackingRate : TYPE_DriveRates
}.

Record Driver : Type := mkDriver {
  cTelescopeProp : TelescopeProp;
  Connected : bool;                      (* cCommonProp.Connected *)
  cTelescopeConnectionOpen : bool;
  cDeviceConnType : DeviceConnectionType;
  cSocket_desc : Z;
  cDeviceConnFileDesc : Z;
  cTelescopeInfoValid : bool;
  cIOptron_CommErrCnt : Z;
  cTelescopeRA_String : string;
  cTelescopeDEC_String : string;
  cTelescopeStatus_String : string;
  cCmdQueue : list string               (* cQueuedCmdCnt is its length *)
}.

Definition set_RightAscension (v : Q) (p : TelescopeProp) : TelescopeProp :=
  mkProp v (Declination p) (Slewing p) (Tracking p) (AtPark p) (TrackingRate p).
Definition set_Declination (v : Q) (p : TelescopeProp) : TelescopeProp :=
  mkProp (RightAscension p) v (Slewing p) (Tracking p) (AtPark p) (TrackingRate p).
Definition set_Slewing (v : bool) (p : TelescopeProp) : TelescopeProp :=
  mkProp (RightAscension p) (Declination p) v (Tracking p) (AtPark p) (TrackingRate p).
Definition set_Tracking (v : bool) (p : TelescopeProp) : TelescopeProp :=
  mkProp (RightAscension p) (Declination p) (Slewing p) v (AtPark p) (TrackingRate p).
Definition set_AtPark (v : bool) (p : TelescopeProp) : TelescopeProp :=
  mkProp (RightAscension p) (Declination p) (Slewing p) (Tracking p) v (TrackingRate p).
Definition set_TrackingRate (v : TYPE_DriveRates) (p : TelescopeProp) : TelescopeProp :=
  mkProp (RightAscension p) (Declination p) (Slewing p) (Tracking p) (AtPark p) v.

Definition with_Prop (f : TelescopeProp -> TelescopeProp) (d : Driver) : Driver :=
  mkDriver (f (cTelescopeProp d)) (Connected d) (cTelescopeConnectionOpen d)
           (cDeviceConnType d) (cSocket_desc d) (cDeviceConnFileDesc d)
           (cTelescopeInfoValid d) (cIOptron_CommErrCnt d)
           (cTelescopeRA_String d) (cTelescopeDEC_String d)
           (cTelescopeStatus_String d) (cCmdQueue d).
Definition set_InfoValid (v : bool) (d : Driver) : Driver :=
  mkDriver (cTelescopeProp d) (Connected d) (cTelescopeConnectionOpen d)
           (cDeviceConnType d) (cSocket_desc d) (cDeviceConnFileDesc d)
           v (cIOptron_CommErrCnt d)
           (cTelescopeRA_String d) (cTelescopeDEC_String d)
           (cTelescopeStatus_String d) (cCmdQueue d).
Definition set_CommErrCnt (v : Z) (d : Driver) : Driver :=
  mkDriver (cTelescopeProp d) (Connected d) (cTelescopeConnectionOpen d)
           (cDeviceConnType d) (cSocket_desc d) (cDeviceConnFileDesc d)
           (cTelescopeInfoValid d) v
           (cTelescopeRA_String d) (cTelescopeDEC_String d)
           (cTelescopeStatus_String d) (cCmdQueue d).
Definition set_RA_String (v : string) (d : Driver) : Driver :=
  mkDriver (cTelescopeProp d) (Connected d) (cTelescopeConnectionOpen d)
           (cDeviceConnType d) (cSocket_desc d) (cDeviceConnFileDesc d)
           (cTelescopeInfoValid d) (cIOptron_CommErrCnt d)
           v (cTelescopeDEC_String d)
           (cTelescopeStatus_String d) (cCmdQueue d).
Definition set_DEC_String (v : string) (d : Driver) : Driver :=
  mkDriver (cTelescopeProp d) (Connected d) (cTelescopeConnectionOpen d)
           (cDeviceConnType d) (cSocket_desc d) (cDeviceConnFileDesc d)
           (cTelescopeInfoValid d) (cIOptron_CommErrCnt d)
           (cTelescopeRA_String d) v
           (cTelescopeStatus_String d) (cCmdQueue d).
Definition set_Status_String (v : string) (d : Driver) : Driver :=
  mkDriver (cTelescopeProp d) (Connected d) (cTelescopeConnectionOpen d)
           (cDeviceConnType d) (cSocket_desc d) (cDeviceConnFileDesc d)
           (cTelescopeInfoValid d) (cIOptron_CommErrCnt d)
           (cTelescopeRA_String d) (cTelescopeDEC_String d)
           v (cCmdQueue d).
Definition set_CmdQueue (v : list string) (d : Driver) : Driver :=
  mkDriver (cTelescopeProp d) (Connected d) (cTelescopeConnectionOpen d)
           (cDeviceConnType d) (cSocket_desc d) (cDeviceConnFileDesc d)
           (cTelescopeInfoValid d) (cIOptron_CommErrCnt d)
           (cTelescopeRA_String d) (cTelescopeDEC_String d)
           (cTelescopeStatus_String d) v.

(** ** Validity check and sexagesimal parsers *)

Definition Qlt_bool (x y : Q) : bool := negb (Qle_bool y x).

(** [CheckForValidResponse] *)
Definition CheckForValidResponse (iOptronResponseString : string) : Buf.M bool :=
  let strLen := strlen iOptronResponseString in
  if (0 <? strLen)%nat then
    c <- Buf.peek iOptronResponseString (strLen - 1) ;;
    Buf.ret (Ascii.eqb c "#")
  else
    Buf.ret false.

(** [while (hours_Dbl >= 24.0) hours_Dbl -= 24.0;] *)
Fixpoint sub24_loop (fuel : nat) (h : Q) : Q :=
  match fuel with
  | O => h
  | S f => if Qle_bool 24 h then sub24_loop f (fsub h 24) else h
  end.

(** [while (hours_Dbl < 0.0) hours_Dbl += 24.0;] *)
Fixpoint add24_loop (fuel : nat) (h : Q) : Q :=
  match fuel with
  | O => h
  | S f => if Qlt_bool h 0 then add24_loop f (fadd h 24) else h
  end.

(** A number of iterations that neither loop exceeds on the values the
    parser passes (see [sub24_loop_exits] and [add24_loop_Z]). *)
Definition loop_fuel (h : Q) : nat := S (Z.to_nat (Z.abs (Qfloor (h / 24)))).

Definition normalize_0_24 (h : Q) : Q :=
  let h1 := sub24_loop (loop_fuel h) h in
  add24_loop (loop_fuel h1) h1.

(** [v = whole; v += (1.0 * minutes) / 60.0; v += (1.0 * seconds) / 3600.0;]
    as the two parsers compute it. *)
Definition sexagesimal (whole minutes seconds : Z) : Q :=
  let v := double_of_Z whole in
  let v := fadd v (fdiv (fmul 1 (double_of_Z minutes)) 60) in
  fadd v (fdiv (fmul 1 (double_of_Z seconds)) 3600).

(** [iOptron_ParseRA] *)
Definition iOptron_ParseRA (dataBuffer : string) : Buf.M Q :=
  isValid <- CheckForValidResponse dataBuffer ;;
  if isValid then
    let charPtr := dataBuffer in
    let hours := atoi charPtr in
    let charPtr := skip_digits charPtr in
    let '(minutes, seconds) :=
      match charPtr with
      | String ":"%char charPtr =>
          let minutes := atoi charPtr in
          let charPtr := skip_digits charPtr in
          match charPtr with
          | String ":"%char charPtr => (minutes, atoi charPtr)
          | _ => (minutes, 0)
          end
      | _ => (0, 0)
      end in
    Buf.ret (normalize_0_24 (sexagesimal hours minutes seconds))
  else
    Buf.ret 0%Q.

(** [iOptron_ParseDegMinSec] *)
Definition iOptron_ParseDegMinSec (dataBuffer : string) : Buf.M Q :=
  isValid <- CheckForValidResponse dataBuffer ;;
  if isValid then
    let '(plusMinus, charPtr) :=
      match dataBuffer with
      | String "+"%char r => (1, r)
      | String "-"%char r => (-1, r)
      | _ => (1, dataBuffer)
      end in
    let degrees := atoi charPtr in
    let charPtr := skip_digits charPtr in
    let '(minutes, seconds) :=
      match charPtr with
      | String "*"%char charPtr =>
          let minutes := atoi charPtr in
          let charPtr := skip_digits charPtr in
          match charPtr with
          | String ":"%char charPtr => (minutes, atoi charPtr)
          | _ => (minutes, 0)
          end
      | _ => (0, 0)
      end in
    Buf.ret (fmul (double_of_Z plusMinus) (sexagesimal degrees minutes seconds))
  else
    Buf.ret 0%Q.

(** ** Response processors *)

(** [Process_RA_Response] *)
Definition Process_RA_Response (dataBuffer : string) (d : Driver)
  : Buf.M (bool * Driver) :=
  isValid <- CheckForValidResponse dataBuffer ;;
  if isValid then
    hours_Dbl <- iOptron_ParseRA dataBuffer ;;
    if Qle_bool 0 hours_Dbl && Qlt_bool hours_Dbl 24 then
      let d1 := if (strlen dataBuffer <? 32)%nat
                then set_RA_String dataBuffer d else d in
      Buf.ret (isValid, with_Prop (set_RightAscension hours_Dbl) d1)
    else
      Buf.ret (isValid, d)
  else
    Buf.ret (isValid, d).

(** [Process_DEC_Response] *)
Definition Process_DEC_Response (dataBuffer : string) (d : Driver)
  : Buf.M (bool * Driver) :=
  isValid <- CheckForValidResponse dataBuffer ;;
  if isValid then
    degrees_Dbl <- iOptron_ParseDegMinSec dataBuffer ;;
    if Qle_bool (-90) degrees_Dbl && Qle_bool degrees_Dbl 90 then
      let d1 := if (strlen dataBuffer <? 32)%nat
                then set_DEC_String dataBuffer d else d in
      Buf.ret (isValid, with_Prop (set_Declination degrees_Dbl) d1)
    else
      Buf.ret (isValid, d)
  else
    Buf.ret (isValid, d).

(** [Process_GEP_Response] *)
Definition Process_GEP_Response (dataBuffer : string) (d : Driver)
  : Buf.M (bool * Driver) :=
  isValid <- CheckForValidResponse dataBuffer ;;
  if isValid then
    let strLen := strlen dataBuffer in
    if (20 <=? strLen)%nat then
      c0 <- Buf.peek dataBuffer 0 ;;
      let sign := if Ascii.eqb c0 "-" then -1 else 1 in
      decStr <- Buf.strncpy_at dataBuffer 1 8 ;;
      let dec_arcsec_01 := atoll decStr * sign in
      let dec_degrees := fdiv (double_of_Z dec_arcsec_01) (fmul 3600 100) in
      raStr <- Buf.strncpy_at dataBuffer 9 9 ;;
      let ra_arcsec_01 := atoll raStr in
      let ra_hours :=
        fdiv (double_of_Z ra_arcsec_01) (fmul (fmul 15 3600) 100) in
      let d1 := if Qle_bool (-90) dec_degrees && Qle_bool dec_degrees 90
                then with_Prop (set_Declination dec_degrees) d else d in
      let d2 := if Qle_bool 0 ra_hours && Qlt_bool ra_hours 24
                then with_Prop (set_RightAscension ra_hours) d1 else d1 in
      let d3 := if (strlen dataBuffer <? 32)%nat
                then set_DEC_String dataBuffer d2 else d2 in
      Buf.ret (isValid, d3)
    else
      Buf.ret (isValid, d)
  else
    Buf.ret (isValid, d).

(** The first [switch] of [Process_GLS_Response], on [dataBuffer[18] - '0']. *)
Definition apply_systemStatus (systemStatus : Z) (p : TelescopeProp) : TelescopeProp :=
  match systemStatus with
  | 0 => set_Tracking false (set_Slewing false p)
  | 1 => set_Tracking true (set_Slewing false p)
  | 2 => set_Tracking false (set_Slewing true p)
  | 3 => set_Tracking true (set_Slewing false p)
  | 4 => set_Tracking false (set_Slewing true p)
  | 5 => set_Tracking true (set_Slewing false p)
  | 6 => set_Tracking false (set_Slewing false (set_AtPark true p))
  | 7 => set_Tracking false (set_Slewing false p)
  | _ => p
  end.

(** The second [switch], on [dataBuffer[19] - '0']. *)
Definition apply_trackingRate (trackingRate : Z) (p : TelescopeProp) : TelescopeProp :=
  match trackingRate with
  | 0 => set_TrackingRate kDriveRate_driveSidereal p
  | 1 => set_TrackingRate kDriveRate_driveLunar p
  | 2 => set_TrackingRate kDriveRate_driveSolar p
  | 3 => set_TrackingRate kDriveRate_driveKing p
  | _ => set_TrackingRate kDriveRate_driveSidereal p
  end.

(** [Process_GLS_Response] *)
Definition Process_GLS_Response (dataBuffer : string) (d : Driver)
  : Buf.M (bool * Driver) :=
  isValid <- CheckForValidResponse dataBuffer ;;
  if isValid then
    let strLen := strlen dataBuffer in
    if (23 <=? strLen)%nat then
      let d1 := if (strLen <? 64)%nat
                then set_Status_String dataBuffer d else d in
      c18 <- Buf.peek dataBuffer 18 ;;
      let systemStatus := minus_zero c18 in
      let d2 := with_Prop (apply_systemStatus systemStatus) d1 in
      c19 <- Buf.peek dataBuffer 19 ;;
      let trackingRate := minus_zero c19 in
      let d3 := with_Prop (apply_trackingRate trackingRate) d2 in
      Buf.ret (isValid, d3)
    else
      Buf.ret (isValid, d)
  else
    Buf.ret (isValid, d).

(** Which processor [Process_iOptronResponse] hands a valid frame to: the
    nested tests on the first character and on [strchr]. *)
Inductive Route : Type := ToRA | ToDEC | ToNone.

Definition response_route (dataBuffer : string) : Route :=
  if strncmp1_eq dataBuffer "+" || strncmp1_eq dataBuffer "-" then
    if strchr dataBuffer ":" then ToRA
    else if strchr dataBuffer "*" then ToDEC
    else ToNone
  else ToNone.

(** [Process_iOptronResponse]; the results of the two processors are
    discarded, only their effect on the driver is kept. *)
Definition Process_iOptronResponse (dataBuffer : string) (d : Driver)
  : Buf.M (bool * Driver) :=
  isValid <- CheckForValidResponse dataBuffer ;;
  if isValid then
    match response_route dataBuffer with
    | ToRA => r <- Process_RA_Response dataBuffer d ;; Buf.ret (isValid, snd r)
    | ToDEC => r <- Process_DEC_Response dataBuffer d ;; Buf.ret (isValid, snd r)
    | ToNone => Buf.ret (isValid, d)
    end
  else
    Buf.ret (isValid, d).

(** ** The periodic poll *)

(** The test made before each query: a socket for Ethernet, a file
    descriptor otherwise. *)
Definition handle_unusable (d : Driver) : bool :=
  match cDeviceConnType d with
  | kDevCon_Ethernet => cSocket_desc d <=? 0
  | _ => cDeviceConnFileDesc d <? 0
  end.

(** ** Slew and sync *)

(** Modelled from the spec: [AddCmdToQueue] belongs to the base class
    [TelescopeDriverComm], whose source is not part of this file.  The
    command is appended at the tail of the queue; it is dropped when the
    connection is not open. *)
Definition AddCmdToQueue (cmdString : string) (d : Driver) : Driver :=
  if cTelescopeConnectionOpen d
  then set_CmdQueue (cCmdQueue d ++ [cmdString])%list d
  else d.

(** The [:SRA] command string built by both functions. *)
Definition SRA_command (newRtAscen_Hours : Q) : string :=
  let ra_arcsec_01 :=
    double_to_int64 (fmul (fmul (fmul newRtAscen_Hours 15) 3600) 100) in
  let ra_arcsec_01 := if ra_arcsec_01 <? 0 then 0 else ra_arcsec_01 in
  let ra_arcsec_01 :=
    if 129600000 <? ra_arcsec_01 then 129600000 else ra_arcsec_01 in
  ":SRA" ++ sprintf_0lld 9 ra_arcsec_01 ++ "#".

(** The [:Sds] command string built by both functions. *)
Definition Sds_command (newDeclination_Degrees : Q) : string :=
  let dec_arcsec_01 :=
    double_to_int64 (fmul (fmul newDeclination_Degrees 3600) 100) in
  let dec_arcsec_01 :=
    if dec_arcsec_01 <? -32400000 then -32400000 else dec_arcsec_01 in
  let dec_arcsec_01 :=
    if 32400000 <? dec_arcsec_01 then 32400000 else dec_arcsec_01 in
  if 0 <=? dec_arcsec_01
  then ":Sds+" ++ sprintf_0lld 8 dec_arcsec_01 ++ "#"
  else ":Sds-" ++ sprintf_0lld 8 (- dec_arcsec_01) ++ "#".

(** [Telescope_SlewToRA_DEC] *)
Definition Telescope_SlewToRA_DEC (newRtAscen_Hours newDeclination_Degrees : Q)
    (d : Driver) : TYPE_ASCOM_STATUS * Driver :=
  if negb (Connected d) then (kASCOM_Err_NotConnected, d)
  else if negb (cTelescopeConnectionOpen d) then (kASCOM_Err_NotConnected, d)
  else
    let d := AddCmdToQueue (SRA_command newRtAscen_Hours) d in
    let d := AddCmdToQueue (Sds_command newDeclination_Degrees) d in
    let d := AddCmdToQueue ":MS1#" d in
    (kASCOM_Err_Success, with_Prop (set_Slewing true) d).

(** [Telescope_SyncToRA_DEC] *)
Definition Telescope_SyncToRA_DEC (newRtAscen_Hours newDeclination_Degrees : Q)
    (d : Driver) : TYPE_ASCOM_STATUS * Driver :=
  if negb (Connected d) then (kASCOM_Err_NotConnected, d)
  else if negb (cTelescopeConnectionOpen d) then (kASCOM_Err_NotConnected, d)
  else
    let d := AddCmdToQueue (SRA_command newRtAscen_Hours) d in
    let d := AddCmdToQueue (Sds_command newDeclination_Degrees) d in
    let d := AddCmdToQueue ":CM#" d in
    (kASCOM_Err_Success, d).

(** A driver as the constructor leaves it, with the connection open on a
    serial descriptor; used for concrete runs. *)
Definition driver0 : Driver :=
  mkDriver (mkProp 0 0 false false false kDriveRate_driveSidereal)
           true true kDevCon_Serial (-1) 3 false 0 "" "" "" [].


(** ** Reading a computation's outcome *)

(** The value a buffer computation returns, run from an empty trace. *)
Definition result {A : Type} (m : Buf.M A) : option A :=
  option_map fst (Buf.run m).

(** A frame that ends with the sentinel: some bytes, then ['#']. *)
Definition hash_terminated (s : string) : Prop := exists p, s = p ++ "#".

(** The last byte of the frame is ['#'] (false for the empty frame). *)
Fixpoint valid_frame (s : string) : bool :=
  match s with
  | EmptyString => false
  | String c EmptyString => Ascii.eqb c "#"
  | String _ r => valid_frame r
  end.

(** The offset [CheckForValidResponse] reads: the last one, if any. *)
Definition check_reads (s : string) : list nat :=
  match s with
  | EmptyString => []
  | String _ r => [String.length r]
  end.

Definition all_digits (s : string) : bool :=
  forallb isdigit (list_ascii_of_string s).

(** The number a string of decimal digits denotes. *)
Fixpoint decimal_acc (s : string) (acc : Z) : Z :=
  match s with
  | EmptyString => acc
  | String c r => decimal_acc r (acc * 10 + minus_zero c)
  end.

Definition decimal_value (s : string) : Z := decimal_acc s 0.

(** ** Auxiliary definitions for the statements *)

(** The double products the two encoders convert to [int64_t]:
    [hours * 15.0 * 3600.0 * 100.0] and [degrees * 3600.0 * 100.0]. *)
Definition ra_scaled (hours : Q) : Q := fmul (fmul (fmul hours 15) 3600) 100.
Definition dec_scaled (degrees : Q) : Q := fmul (fmul degrees 3600) 100.

(** What [Process_GEP_Response] stores once it has read the sign byte [c0]
    and copied the two digit fields. *)
Definition GEP_store (c0 : ascii) (decStr raStr dataBuffer : string) (d : Driver)
  : Driver :=
  let sign := if Ascii.eqb c0 "-" then -1 else 1 in
  let dec_degrees := fdiv (double_of_Z (atoll decStr * sign)) (fmul 3600 100) in
  let ra_hours := fdiv (double_of_Z (atoll raStr)) (fmul (fmul 15 3600) 100) in
  let d1 := if Qle_bool (-90) dec_degrees && Qle_bool dec_degrees 90
            then with_Prop (set_Declination dec_degrees) d else d in
  let d2 := if Qle_bool 0 ra_hours && Qlt_bool ra_hours 24
            then with_Prop (set_RightAscension ra_hours) d1 else d1 in
  if (strlen dataBuffer <? 32)%nat then set_DEC_String dataBuffer d2 else d2.

(** What [Process_GLS_Response] stores from the bytes at offsets 18 and 19. *)
Definition GLS_store (c18 c19 : ascii) (dataBuffer : string) (d : Driver) : Driver :=
  with_Prop (apply_trackingRate (minus_zero c19))
    (with_Prop (apply_systemStatus (minus_zero c18))
       (if (strlen dataBuffer <? 64)%nat
        then set_Status_String dataBuffer d else d)).

(** The fields of the driver that no decoder writes. *)
Definition same_link (d d' : Driver) : Prop :=
  Connected d' = Connected d /\
  cTelescopeConnectionOpen d' = cTelescopeConnectionOpen d /\
  cDeviceConnType d' = cDeviceConnType d /\
  cSocket_desc d' = cSocket_desc d /\
  cDeviceConnFileDesc d' = cDeviceConnFileDesc d /\
  cTelescopeInfoValid d' = cTelescopeInfoValid d /\
  cIOptron_CommErrCnt d' = cIOptron_CommErrCnt d /\
  cCmdQueue d' = cCmdQueue d.

Definition same_position (d d' : Driver) : Prop :=
  RightAscension (cTelescopeProp d') = RightAscension (cTelescopeProp d) /\
  Declination (cTelescopeProp d') = Declination (cTelescopeProp d).

Definition same_flags (d d' : Driver) : Prop :=
  Slewing (cTelescopeProp d') = Slewing (cTelescopeProp d) /\
  Tracking (cTelescopeProp d') = Tracking (cTelescopeProp d) /\
  AtPark (cTelescopeProp d') = AtPark (cTelescopeProp d).

(** A field of the sexagesimal formats: one to nine decimal digits. *)
Definition digit_field (t : string) : Prop :=
  t <> "" /\ all_digits t = true /\ (String.length t <= 9)%nat.

(** A computation whose value and reads do not depend on what was read
    before it. *)
Definition uniform {A : Type} (m : Buf.M A) : Prop :=
  exists v new, forall tr, m tr = Some (v, (new ++ tr)%list).

(** ** The framer and the command queue *)

(** One round of [select] and [read] on the descriptor. *)
Inductive ReadEvent : Type :=
| RdByte (c : ascii)   (* select > 0, read returned one byte *)
| RdClosed             (* select > 0, read returned 0 *)
| RdError              (* select > 0, read returned < 0 *)
| RdTimeout.           (* select returned <= 0 after 2 s *)

(** The C string held by a buffer into which [bytes] were stored, a NUL
    after the last one: the bytes before the first NUL. *)
Fixpoint c_str (bytes : list ascii) : string :=
  match bytes with
  | [] => EmptyString
  | c :: r => if Ascii.eqb c zero then EmptyString else String c (c_str r)
  end.

Section Transport.

(** The descriptor and what lies behind it: a state [T], [write] returning
    the byte count, and one [select] / [read] round. *)
Variable T : Type.
Variable sys_write : T -> string -> Z * T.
Variable sys_read : T -> ReadEvent * T.

(** The read loop of [iOptron_SendCommand]; [room] is
    [maxBufferLen - 1 - totalBytesRead] and [got] the bytes stored so far. *)
Fixpoint read_loop (room : nat) (t : T) (got : list ascii) : list ascii * T :=
  match room with
  | O => (got, t)
  | S room' =>
      let '(ev, t') := sys_read t in
      match ev with
      | RdByte readChar =>
          let got' := (got ++ [readChar])%list in
          if Ascii.eqb readChar "#" then (got', t')
          else read_loop room' t' got'
      | _ => (got, t')
      end
  end.

(** [iOptron_SendCommand]: the byte count returned and the C string left
    in [returnBuffer]. *)
Definition iOptron_SendCommand (t : T) (cmdString : string) (maxBufferLen : nat)
  : (nat * string) * T :=
  let '(bytesWritten, t1) := sys_write t cmdString in
  if bytesWritten <? 0 then ((O, EmptyString), t1)
  else
    let '(got, t2) := read_loop (maxBufferLen - 1) t1 [] in
    ((List.length got, c_str got), t2).

(** The [while (cQueuedCmdCnt > 0)] loop of [SendCmdsFromQueue]; [q] is
    the queue, [sent] the commands handed to [iOptron_SendCommand] so far. *)
Fixpoint drain_loop (q : list string) (t : T) (d : Driver) (sent : list string)
  : Buf.M (bool * Driver * T * list string) :=
  match q with
  | [] => Buf.ret (true, d, t, sent)
  | cmd :: q' =>
      if handle_unusable d then Buf.ret (false, d, t, sent)
      else
        let '((returnByteCnt, returnBuffer), t1) :=
          iOptron_SendCommand t cmd 400 in
        d1 <- (if (0 <? returnByteCnt)%nat then
                 r <- Process_iOptronResponse returnBuffer d ;; Buf.ret (snd r)
               else Buf.ret d) ;;
        drain_loop q' t1 (set_CmdQueue q' d1) (sent ++ [cmd])%list
  end.

(** [SendCmdsFromQueue] *)
Definition SendCmdsFromQueue (t : T) (d : Driver)
  : Buf.M (bool * Driver * T * list string) :=
  if negb (cTelescopeConnectionOpen d) then Buf.ret (false, d, t, [])
  else drain_loop (cCmdQueue d) t d [].

(** [SendCmdsPeriodic]: the value returned, the driver and the transport
    after the cycle. *)
Definition SendCmdsPeriodic (t : T) (d : Driver) : Buf.M (bool * Driver * T) :=
  if negb (cTelescopeConnectionOpen d) then Buf.ret (false, d, t)
  else if handle_unusable d then Buf.ret (false, d, t)
  else
    let '((returnByteCnt, returnBuffer), t1) :=
      iOptron_SendCommand t ":GEP#" 400 in
    r1 <- (if (0 <? returnByteCnt)%nat then
             r <- Process_GEP_Response returnBuffer d ;;
             let '(isValid, d1) := r in
             if isValid then
               Buf.ret (isValid, set_InfoValid true d1)
             else
               Buf.ret (isValid,
                        set_InfoValid false
                          (set_CommErrCnt (cIOptron_CommErrCnt d1 + 1) d1))
           else
             Buf.ret (false, set_CommErrCnt (cIOptron_CommErrCnt d + 1) d)) ;;
    let '(isValid, d2) := r1 in
    if handle_unusable d2 then Buf.ret (false, d2, t1)
    else
      let '((returnByteCnt, returnBuffer), t2) :=
        iOptron_SendCommand t1 ":GLS#" 400 in
      d3 <- (if (0 <? returnByteCnt)%nat then
               r <- Process_GLS_Response returnBuffer d2 ;; Buf.ret (snd r)
             else
               Buf.ret d2) ;;
      Buf.ret (isValid, d3, t2).

(** The transport hands over the bytes [bytes], one per round, going from
    state [t] to state [t']. *)
Fixpoint delivers (t : T) (bytes : list ascii) (t' : T) : Prop :=
  match bytes with
  | [] => t = t'
  | c :: r => exists t1, sys_read t = (RdByte c, t1) /\ delivers t1 r t'
  end.

End Transport.

(** A scripted transport for concrete runs: the state is the list of the
    rounds to come, a write always succeeds in full. *)
Definition script_write (t : list ReadEvent) (cmd : string) : Z * list ReadEvent :=
  (Z.of_nat (String.length cmd), t).

Definition script_read (t : list ReadEvent) : ReadEvent * list ReadEvent :=
  match t with
  | [] => (RdTimeout, [])
  | e :: r => (e, r)
  end.

(** ** The other intent calls *)

Definition set_Connected (v : bool) (d : Driver) : Driver :=
  mkDriver (cTelescopeProp d) v (cTelescopeConnectionOpen d)
           (cDeviceConnType d) (cSocket_desc d) (cDeviceConnFileDesc d)
           (cTelescopeInfoValid d) (cIOptron_CommErrCnt d)
           (cTelescopeRA_String d) (cTelescopeDEC_String d)
           (cTelescopeStatus_String d) (cCmdQueue d).
Definition set_ConnectionOpen (v : bool) (d : Driver) : Driver :=
  mkDriver (cTelescopeProp d) (Connected d) v
           (cDeviceConnType d) (cSocket_desc d) (cDeviceConnFileDesc d)
           (cTelescopeInfoValid d) (cIOptron_CommErrCnt d)
           (cTelescopeRA_String d) (cTelescopeDEC_String d)
           (cTelescopeStatus_String d) (cCmdQueue d).
Definition set_Socket_desc (v : Z) (d : Driver) : Driver :=
  mkDriver (cTelescopeProp d) (Connected d) (cTelescopeConnectionOpen d)
           (cDeviceConnType d) v (cDeviceConnFileDesc d)
           (cTelescopeInfoValid d) (cIOptron_CommErrCnt d)
           (cTelescopeRA_String d) (cTelescopeDEC_String d)
           (cTelescopeStatus_String d) (cCmdQueue d).
Definition set_FileDesc (v : Z) (d : Driver) : Driver :=
  mkDriver (cTelescopeProp d) (Connected d) (cTelescopeConnectionOpen d)
           (cDeviceConnType d) (cSocket_desc d) v
           (cTelescopeInfoValid d) (cIOptron_CommErrCnt d)
           (cTelescopeRA_String d) (cTelescopeDEC_String d)
           (cTelescopeStatus_String d) (cCmdQueue d).

(** [!cCommonProp.Connected || !cTelescopeConnectionOpen] *)
Definition not_connected (d : Driver) : bool :=
  negb (Connected d) || negb (cTelescopeConnectionOpen d).

(** [Telescope_AbortSlew] *)
Definition Telescope_AbortSlew (d : Driver) : TYPE_ASCOM_STATUS * Driver :=
  if not_connected d then (kASCOM_Err_NotConnected, d)
  else
    let d := set_CmdQueue [] d in
    let d := AddCmdToQueue ":Q#" d in
    (kASCOM_Err_Success, with_Prop (set_Slewing false) d).

(** [Telescope_FindHome] *)
Definition Telescope_FindHome (d : Driver) : TYPE_ASCOM_STATUS * Driver :=
  if not_connected d then (kASCOM_Err_NotConnected, d)
  else
    let d := AddCmdToQueue ":MH#" d in
    (kASCOM_Err_Success, with_Prop (set_Slewing true) d).

(** [Telescope_MoveAxis].  The values of [kAxis_RA] and [kAxis_DEC] come
    from a header that is not part of this file; they are parameters. *)
Definition Telescope_MoveAxis (kAxis_RA kAxis_DEC : Z)
    (axisNum : Z) (moveRate_degPerSec : Q) (d : Driver)
  : TYPE_ASCOM_STATUS * Driver :=
  if not_connected d then (kASCOM_Err_NotConnected, d)
  else if axisNum =? kAxis_RA then
    let d := with_Prop (set_Slewing (negb (Qeq_bool moveRate_degPerSec 0))) d in
    if Qlt_bool 0 moveRate_degPerSec then
      (kASCOM_Err_Success, AddCmdToQueue ":mw#" d)
    else if Qlt_bool moveRate_degPerSec 0 then
      (kASCOM_Err_Success, AddCmdToQueue ":me#" d)
    else
      (kASCOM_Err_Success,
       with_Prop (set_Slewing false) (AddCmdToQueue ":qR#" d))
  else if axisNum =? kAxis_DEC then
    let d := with_Prop (set_Slewing (negb (Qeq_bool moveRate_degPerSec 0))) d in
    if Qlt_bool 0 moveRate_degPerSec then
      (kASCOM_Err_Success, AddCmdToQueue ":ms#" d)
    else if Qlt_bool moveRate_degPerSec 0 then
      (kASCOM_Err_Success, AddCmdToQueue ":mn#" d)
    else
      (kASCOM_Err_Success,
       with_Prop (set_Slewing false) (AddCmdToQueue ":qD#" d))
  else (kASCOM_Err_InvalidValue, d).

(** [Telescope_Park] *)
Definition Telescope_Park (d : Driver) : TYPE_ASCOM_STATUS * Driver :=
  if not_connected d then (kASCOM_Err_NotConnected, d)
  else
    let d := AddCmdToQueue ":MP1#" d in
    (kASCOM_Err_Success,
     with_Prop (set_Slewing true) (with_Prop (set_AtPark true) d)).

(** [Telescope_SetPark] *)
Definition Telescope_SetPark (d : Driver) : TYPE_ASCOM_STATUS * Driver :=
  if not_connected d then (kASCOM_Err_NotConnected, d)
  else (kASCOM_Err_Success, AddCmdToQueue ":SZP#" d).

(** [Telescope_TrackingOnOff] *)
Definition Telescope_TrackingOnOff (newTrackingState : bool) (d : Driver)
  : TYPE_ASCOM_STATUS * Driver :=
  if not_connected d then (kASCOM_Err_NotConnected, d)
  else if newTrackingState then
    (kASCOM_Err_Success,
     with_Prop (set_Tracking true) (AddCmdToQueue ":ST1#" d))
  else
    (kASCOM_Err_Success,
     with_Prop (set_Tracking false) (AddCmdToQueue ":ST0#" d)).

(** The command string chosen by the [switch] of [Telescope_TrackingRate];
    its [default] branch is for values outside the four enumerators. *)
Definition RT_command (newTrackingRate : TYPE_DriveRates) : string :=
  match newTrackingRate with
  | kDriveRate_driveSidereal => ":RT0#"
  | kDriveRate_driveLunar => ":RT1#"
  | kDriveRate_driveSolar => ":RT2#"
  | kDriveRate_driveKing => ":RT3#"
  end.

(** [Telescope_TrackingRate] *)
Definition Telescope_TrackingRate (newTrackingRate : TYPE_DriveRates) (d : Driver)
  : TYPE_ASCOM_STATUS * Driver :=
  if not_connected d then (kASCOM_Err_NotConnected, d)
  else
    let d := AddCmdToQueue (RT_command newTrackingRate) d in
    (kASCOM_Err_Success, with_Prop (set_TrackingRate newTrackingRate) d).

(** [Telescope_UnPark] *)
Definition Telescope_UnPark (d : Driver) : TYPE_ASCOM_STATUS * Driver :=
  if not_connected d then (kASCOM_Err_NotConnected, d)
  else
    let d := AddCmdToQueue ":MP0#" d in
    (kASCOM_Err_Success, with_Prop (set_AtPark false) d).

(** [AlpacaDisConnect].  [base] stands for the call of
    [TelescopeDriverComm::AlpacaDisConnect], whose source is not part of
    this file; [shutdown] and [close] act on the descriptors only. *)
Definition AlpacaDisConnect (base : Driver -> Driver) (d : Driver) : bool * Driver :=
  let d := base d in
  let d :=
    match cDeviceConnType d with
    | kDevCon_Ethernet =>
        if 0 <? cSocket_desc d then set_Socket_desc (-1) d else d
    | kDevCon_USB | kDevCon_Serial =>
        if 0 <=? cDeviceConnFileDesc d then set_FileDesc (-1) d else d
    | kDevCon_Custom => d
    end in
  let d := set_ConnectionOpen false d in
  let d := set_Connected false d in
  let d := set_InfoValid false d in
  let d := set_CmdQueue [] d in
  let d := set_CommErrCnt 0 d in
  (true, d).

(** [Process_Status_Response] *)
Definition Process_Status_Response (dataBuffer : string) (d : Driver)
  : Buf.M (bool * Driver) :=
  isValid <- CheckForValidResponse dataBuffer ;;
  if isValid then
    Buf.ret (isValid,
             if (strlen dataBuffer <? 64)%nat
             then set_Status_String dataBuffer d else d)
  else
    Buf.ret (isValid, d).

(** The stored reply strings are shorter than the sizes their [strcpy]
    guards test for. *)
Definition strings_fit (d : Driver) : Prop :=
  (String.length (cTelescopeRA_String d) < 32)%nat /\
  (String.length (cTelescopeDEC_String d) < 32)%nat /\
  (String.length (cTelescopeStatus_String d) < 64)%nat.

(** What a reply to a queued command can change: the position and the two
    coordinate strings, nothing else. *)
Definition reply_keeps (d d' : Driver) : Prop :=
  same_link d d' /\ same_flags d d' /\
  TrackingRate (cTelescopeProp d') = TrackingRate (cTelescopeProp d) /\
  cTelescopeStatus_String d' = cTelescopeStatus_String d.

(** What draining the queue keeps: everything but the queue, the position
    and the two coordinate strings. *)
Definition drain_keeps (d d' : Driver) : Prop :=
  Connected d' = Connected d /\
  cTelescopeConnectionOpen d' = cTelescopeConnectionOpen d /\
  cDeviceConnType d' = cDeviceConnType d /\
  cSocket_desc d' = cSocket_desc d /\
  cDeviceConnFileDesc d' = cDeviceConnFileDesc d /\
  cTelescopeInfoValid d' = cTelescopeInfoValid d /\
  cIOptron_CommErrCnt d' = cIOptron_CommErrCnt d /\
  same_flags d d' /\
  TrackingRate (cTelescopeProp d') = TrackingRate (cTelescopeProp d) /\
  cTelescopeStatus_String d' = cTelescopeStatus_String d.

(** What an intent call keeps: the connection, the position, the validity
    flag, the error counter and the stored reply strings. *)
Definition intent_keeps (d d' : Driver) : Prop :=
  Connected d' = Connected d /\
  cTelescopeConnectionOpen d' = cTelescopeConnectionOpen d /\
  cDeviceConnType d' = cDeviceConnType d /\
  cSocket_desc d' = cSocket_desc d /\
  cDeviceConnFileDesc d' = cDeviceConnFileDesc d /\
  cTelescopeInfoValid d' = cTelescopeInfoValid d /\
  cIOptron_CommErrCnt d' = cIOptron_CommErrCnt d /\
  same_position d d' /\
  cTelescopeRA_String d' = cTelescopeRA_String d /\
  cTelescopeDEC_String d' = cTelescopeDEC_String d /\
  cTelescopeStatus_String d' = cTelescopeStatus_String d.

(** The queue of [d'] is the queue of [d] with commands added behind. *)
Definition queue_extends (d d' : Driver) : Prop :=
  exists added, cCmdQueue d' = (cCmdQueue d ++ added)%list.

(** ** The setup form and the configuration file *)

Module Setup.

(** The connection settings of the driver. *)
Record Settings : Type := mkSettings {
  cDeviceConnType : DeviceConnectionType;
  cDeviceConnPath : string;
  cDeviceIPaddress : string;
  cIPaddrValid : bool;
  cTCPportNum : Z;
  cSetupChangeOccured : bool
}.

Definition tolower (c : ascii) : ascii :=
  let n := nat_of_ascii c in
  if ((65 <=? n) && (n <=? 90))%nat then ascii_of_nat (n + 32) else c.

Fixpoint lower (s : string) : string :=
  match s with
  | EmptyString => EmptyString
  | String c r => String (tolower c) (lower r)
  end.

(** [strcasecmp(a, b) == 0] *)
Definition strcasecmp_eq (a b : string) : bool := String.eqb (lower a) (lower b).

(** The number of ['.'] in the value: the [for] loop over [valueString]. *)
Fixpoint count_dots (s : string) : Z :=
  match s with
  | EmptyString => 0
  | String c r => (if Ascii.eqb c "." then 1 else 0) + count_dots r
  end.

Definition is_serial_or_usb (t : DeviceConnectionType) : bool :=
  match t with
  | kDevCon_Serial | kDevCon_USB => true
  | _ => false
  end.

Definition is_ethernet (t : DeviceConnectionType) : bool :=
  match t with
  | kDevCon_Ethernet => true
  | _ => false
  end.

(** [Setup_SaveInit] *)
Definition Setup_SaveInit (c : Settings) : Settings :=
  mkSettings (cDeviceConnType c) (cDeviceConnPath c) (cDeviceIPaddress c)
             (cIPaddrValid c) (cTCPportNum c) false.

(** [Setup_ProcessKeyword].  [pathSize] and [ipSize] are
    [sizeof(cDeviceConnPath)] and [sizeof(cDeviceIPaddress)], declared in a
    header that is not part of this file. *)
Definition Setup_ProcessKeyword (pathSize ipSize : nat)
    (keyword valueString : string) (c : Settings) : bool * Settings :=
  if strcasecmp_eq keyword "conntype" then
    if strcasecmp_eq valueString "serial" then
      if negb (is_serial_or_usb (cDeviceConnType c)) then
        (true, mkSettings kDevCon_Serial (cDeviceConnPath c) (cDeviceIPaddress c)
                          (cIPaddrValid c) (cTCPportNum c) true)
      else (true, c)
    else if strcasecmp_eq valueString "ethernet" then
      if negb (is_ethernet (cDeviceConnType c)) then
        (true, mkSettings kDevCon_Ethernet (cDeviceConnPath c) (cDeviceIPaddress c)
                          (cIPaddrValid c) (cTCPportNum c) true)
      else (true, c)
    else (true, c)
  else if strcasecmp_eq keyword "devpath" then
    let slen := strlen valueString in
    if ((0 <? slen) && (slen <? pathSize))%nat then
      if negb (String.eqb valueString (cDeviceConnPath c)) then
        (true, mkSettings (cDeviceConnType c) valueString (cDeviceIPaddress c)
                          (cIPaddrValid c) (cTCPportNum c) true)
      else (true, c)
    else (true, c)
  else if strcasecmp_eq keyword "ipaddr" then
    let slen := strlen valueString in
    if ((7 <=? slen) && (slen <? ipSize))%nat then
      let dotCounter := count_dots valueString in
      if dotCounter =? 3 then
        if negb (String.eqb valueString (cDeviceIPaddress c)) then
          (true, mkSettings (cDeviceConnType c) (cDeviceConnPath c) valueString
                            true (cTCPportNum c) true)
        else (true, c)
      else (true, c)
    else (true, c)
  else if strcasecmp_eq keyword "port" then
    let newPortNumber := atoi valueString in
    if (0 <? newPortNumber) && (newPortNumber <=? 65535) then
      if negb (newPortNumber =? cTCPportNum c) then
        (true, mkSettings (cDeviceConnType c) (cDeviceConnPath c)
                          (cDeviceIPaddress c) (cIPaddrValid c)
                          newPortNumber true)
      else (true, c)
    else (true, c)
  else (true, c).

(** [ProcessIOptronConfigEntry], called with the driver as [userDataPtr]. *)
Definition ProcessIOptronConfigEntry (keyword value : string) (c : Settings)
  : Settings :=
  if strcasecmp_eq keyword "CONNTYPE" then
    if strcasecmp_eq value "serial" || strcasecmp_eq value "usb" then
      mkSettings kDevCon_Serial (cDeviceConnPath c) (cDeviceIPaddress c)
                 (cIPaddrValid c) (cTCPportNum c) (cSetupChangeOccured c)
    else if strcasecmp_eq value "ethernet" then
      mkSettings kDevCon_Ethernet (cDeviceConnPath c) (cDeviceIPaddress c)
                 (cIPaddrValid c) (cTCPportNum c) (cSetupChangeOccured c)
    else c
  else if strcasecmp_eq keyword "DEVPATH" then
    mkSettings (cDeviceConnType c) value (cDeviceIPaddress c)
               (cIPaddrValid c) (cTCPportNum c) (cSetupChangeOccured c)
  else if strcasecmp_eq keyword "IPADDR" then
    mkSettings (cDeviceConnType c) (cDeviceConnPath c) value
               true (cTCPportNum c) (cSetupChangeOccured c)
  else if strcasecmp_eq keyword "PORT" then
    mkSettings (cDeviceConnType c) (cDeviceConnPath c) (cDeviceIPaddress c)
               (cIPaddrValid c) (atoi value) (cSetupChangeOccured c)
  else c.

(** Settings for concrete runs: a serial device, no IP address yet. *)
Definition settings0 : Settings :=
  mkSettings kDevCon_Serial "/dev/ttyUSB0" "" false 4030 false.

End Setup.

(** ** Device discovery *)

(** [FindAvailableUSBDevice]: [accessible p] is
    [access(p, F_OK | R_OK | W_OK) == 0]. *)
Definition commonPaths : list string :=
  ["/dev/ttyUSB0"; "/dev/ttyUSB1"; "/dev/ttyUSB2"; "/dev/ttyACM0"; "/dev/ttyACM1"].

Fixpoint first_accessible (accessible : string -> bool) (paths : list string)
  : option string :=
  match paths with
  | [] => None
  | p :: r => if accessible p then Some p else first_accessible accessible r
  end.

Definition FindAvailableUSBDevice (accessible : string -> bool) : option string :=
  first_accessible accessible commonPaths.

(** The path [CreateTelescopeObjects_iOptron] hands to the constructor. *)
Definition defaultSerialPath (accessible : string -> bool) : string :=
  match FindAvailableUSBDevice accessible with
  | Some autoDetectedPath => autoDetectedPath
  | None => "/dev/ttyUSB0"
  end.

(** * Binary64 rounding *)

(** Integer constants injected into [Q], written as the literals [lra]
    reads. *)
Ltac inject_consts :=
  repeat match goal with
  | H : context [inject_Z (Zpos ?p)] |- _ =>
      change (inject_Z (Zpos p)) with (Zpos p # 1)%Q in H
  | H : context [inject_Z (Zneg ?p)] |- _ =>
      change (inject_Z (Zneg p)) with (Zneg p # 1)%Q in H
  | H : context [inject_Z 0] |- _ => change (inject_Z 0) with 0%Q in H
  | |- context [inject_Z (Zpos ?p)] =>
      change (inject_Z (Zpos p)) with (Zpos p # 1)%Q
  | |- context [inject_Z (Zneg ?p)] =>
      change (inject_Z (Zneg p)) with (Zneg p # 1)%Q
  | |- context [inject_Z 0] => change (inject_Z 0) with 0%Q
  end.

Section RoundingFacts.
Open Scope Q_scope.

Lemma pow2_pos (e : Z) : 0 < 2 ^ e.
Proof. apply Qpower_0_lt. reflexivity. Qed.

Lemma pow2_add (a b : Z) : 2 ^ (a + b) == 2 ^ a * 2 ^ b.
Proof. apply Qpower_plus. discriminate. Qed.

Lemma pow2_Z (n : Z) : (0 <= n)%Z -> 2 ^ n == inject_Z (2 ^ n).
Proof. intros H. now rewrite Zpower_Qpower. Qed.

Lemma pow2_le (a b : Z) : (a <= b)%Z -> 2 ^ a <= 2 ^ b.
Proof. intros H. apply Qpower_le_compat_l; [exact H | discriminate]. Qed.

Lemma pow2_lt (a b : Z) : (a < b)%Z -> 2 ^ a < 2 ^ b.
Proof. intros H. apply Qpower_lt_compat_l; [exact H | reflexivity]. Qed.

Lemma Qinv_le_anti (a b : Q) : 0 < a -> a <= b -> / b <= / a.
Proof.
  intros Ha Hab. destruct (Qlt_le_dec a b) as [H | H].
  - apply Qlt_le_weak. apply (proj1 (Qinv_lt_contravar a b Ha ltac:(lra))). exact H.
  - assert (E : a == b) by lra. rewrite E. apply Qle_refl.
Qed.

Lemma Qinv_lt_anti (a b : Q) : 0 < a -> a < b -> / b < / a.
Proof. intros Ha Hab. apply (proj1 (Qinv_lt_contravar a b Ha ltac:(lra))). exact Hab. Qed.

Lemma ilog2_spec (x : Q) :
  ~ x == 0 -> 2 ^ ilog2 x <= Qabs x /\ Qabs x < 2 ^ (ilog2 x + 1).
Proof.
  intros Hx. unfold ilog2.
  assert (Ha : 0 < Qabs x).
  { destruct (Qlt_le_dec 0 (Qabs x)) as [H | H]; [exact H|].
    exfalso. apply Hx. pose proof (Qabs_nonneg x) as Hn.
    assert (E : Qabs x == 0) by lra.
    destruct (Qabs_Qle_condition x 0) as [C _]. 
    assert (Hc : Qabs x <= 0) by lra. apply C in Hc. lra. }
  set (a := Qabs x) in *.
  destruct (Qle_bool 1 a) eqn:E.
  - apply Qle_bool_iff in E.
    assert (Hf : (1 <= Qfloor a)%Z).
    { change 1%Z with (Qfloor 1). now apply Qfloor_resp_le. }
    destruct (Z.log2_spec (Qfloor a)) as [L1 L2]; [lia|].
    pose proof (Z.log2_nonneg (Qfloor a)) as Hl.
    rewrite !pow2_Z by lia. split.
    + apply Qle_trans with (inject_Z (Qfloor a)); [now rewrite <- Zle_Qle | apply Qfloor_le].
    + apply Qlt_le_trans with (inject_Z (Qfloor a + 1)); [apply Qlt_floor|].
      rewrite <- Zle_Qle. replace (Z.log2 (Qfloor a) + 1)%Z with (Z.succ (Z.log2 (Qfloor a))) by lia. lia.
  - assert (E1 : a < 1).
    { apply Qnot_le_lt. intros H. apply Qle_bool_iff in H. congruence. }
    set (y := / a).
    assert (Hy : 1 < y).
    { unfold y. apply Qlt_shift_inv_l; lra. }
    set (c := Qceiling y).
    assert (Hc : (2 <= c)%Z).
    { assert (H1 : 1 < inject_Z c) by (apply Qlt_le_trans with y; [exact Hy | apply Qle_ceiling]).
      change 1 with (inject_Z 1) in H1. rewrite <- Zlt_Qlt in H1. lia. }
    destruct (Z.log2_up_spec c) as [L1 L2]; [lia|].
    set (k := Z.log2_up c) in *.
    assert (Hk : (1 <= k)%Z).
    { pose proof (Z.log2_up_pos c). unfold k. lia. }
    assert (Eay : a == / y) by (unfold y; rewrite Qinv_involutive; reflexivity).
    split.
    + rewrite Qpower_opp, pow2_Z by lia. rewrite Eay.
      apply Qinv_le_anti; [lra|].
      apply Qle_trans with (inject_Z c); [apply Qle_ceiling | now rewrite <- Zle_Qle].
    + replace (- k + 1)%Z with (- (k - 1))%Z by lia.
      rewrite Qpower_opp, pow2_Z by lia. rewrite Eay.
      assert (H2 : 0 < inject_Z (2 ^ (k - 1))).
      { change 0 with (inject_Z 0). rewrite <- Zlt_Qlt. apply Z.pow_pos_nonneg; lia. }
      apply Qinv_lt_anti; [exact H2|].
      apply Qle_lt_trans with (inject_Z (c - 1)).
      * rewrite <- Zle_Qle. replace (k - 1)%Z with (Z.pred k) by lia. lia.
      * apply Qceiling_lt.
Qed.


Lemma Qabs_ge_neg (c b : Q) : c <= - b -> c <= Qabs b.
Proof. intros H. rewrite <- Qabs_opp. now apply Qabs_ge. Qed.

Lemma Qabs_le_both (a c : Q) : - c <= a -> a <= c -> Qabs a <= c.
Proof. intros H1 H2. apply Qabs_Qle_condition. split; assumption. Qed.

(** Rounding to an integer picks a nearest one. *)
Lemma round_half_even_nearest (y : Q) (k : Z) :
  Qabs (inject_Z (round_half_even y) - y) <= Qabs (inject_Z k - y).
Proof.
  unfold round_half_even.
  pose proof (Qfloor_le y) as F1. pose proof (Qlt_floor y) as F2.
  set (f := Qfloor y) in *.
  rewrite inject_Z_plus in F2. change (inject_Z 1) with 1 in F2.
  assert (K : inject_Z k <= inject_Z f \/ inject_Z f + 1 <= inject_Z k).
  { destruct (Z_le_gt_dec k f) as [H | H].
    - left. now rewrite <- Zle_Qle.
    - right. change 1 with (inject_Z 1). rewrite <- inject_Z_plus, <- Zle_Qle. lia. }
  destruct (y - inject_Z f ?= 1 # 2) eqn:C.
  - apply Qeq_alt in C.
    assert (Hr : Qabs (inject_Z (if Z.even f then f else (f + 1)%Z) - y) <= 1 # 2).
    { destruct (Z.even f); [|rewrite inject_Z_plus; change (inject_Z 1) with 1];
        apply Qabs_le_both; lra. }
    eapply Qle_trans; [exact Hr|].
    destruct K; [apply Qabs_ge_neg | apply Qabs_ge]; lra.
  - apply Qlt_alt in C.
    apply Qle_trans with (y - inject_Z f); [apply Qabs_le_both; lra|].
    destruct K; [apply Qabs_ge_neg | apply Qabs_ge]; lra.
  - apply Qgt_alt in C.
    rewrite inject_Z_plus. change (inject_Z 1) with 1.
    apply Qle_trans with (inject_Z f + 1 - y); [apply Qabs_le_both; lra|].
    destruct K; [apply Qabs_ge_neg | apply Qabs_ge]; lra.
Qed.

Lemma round_half_even_Z (z : Z) : round_half_even (inject_Z z) = z.
Proof.
  pose proof (round_half_even_nearest (inject_Z z) z) as H.
  assert (E : inject_Z z - inject_Z z == 0) by ring.
  rewrite E in H. change (Qabs 0) with 0 in H.
  apply Qabs_Qle_condition in H.
  assert (E2 : inject_Z (round_half_even (inject_Z z)) == inject_Z z) by lra.
  apply inject_Z_injective. exact E2.
Qed.

Lemma round_half_even_within (y : Q) (n : Z) :
  - inject_Z n <= y <= inject_Z n ->
  (- n <= round_half_even y <= n)%Z.
Proof.
  intros [H1 H2].
  pose proof (round_half_even_nearest y n) as A.
  pose proof (round_half_even_nearest y (- n)) as B.
  rewrite inject_Z_opp in B.
  rewrite (Qabs_pos (inject_Z n - y)) in A by lra.
  rewrite (Qabs_neg (- inject_Z n - y)) in B by lra.
  apply Qabs_Qle_condition in A. apply Qabs_Qle_condition in B.
  split; rewrite Zle_Qle; [rewrite inject_Z_opp|]; lra.
Qed.

#[global] Instance round_half_even_comp : Proper (Qeq ==> eq) round_half_even.
Proof.
  intros x y E. unfold round_half_even.
  rewrite (Qfloor_comp x y E).
  assert (C : (x - inject_Z (Qfloor y) ?= 1 # 2) = (y - inject_Z (Qfloor y) ?= 1 # 2)).
  { apply Qcompare_comp; [|reflexivity]. rewrite E. reflexivity. }
  rewrite C. reflexivity.
Qed.

#[global] Instance ilog2_comp : Proper (Qeq ==> eq) ilog2.
Proof.
  intros x y E. unfold ilog2.
  assert (A : Qabs x == Qabs y) by (rewrite E; reflexivity).
  rewrite (Qleb_comp 1 1 (Qeq_refl 1) _ _ A).
  rewrite (Qfloor_comp _ _ A).
  assert (B : / Qabs x == / Qabs y) by (rewrite A; reflexivity).
  rewrite (Qceiling_comp _ _ B). reflexivity.
Qed.

#[global] Instance ulp_exp_comp : Proper (Qeq ==> eq) ulp_exp.
Proof. intros x y E. unfold ulp_exp. rewrite (ilog2_comp x y E). reflexivity. Qed.

#[global] Instance round64_comp : Proper (Qeq ==> eq) round64.
Proof.
  intros x y E. unfold round64.
  assert (B : Qeq_bool x 0 = Qeq_bool y 0).
  { destruct (Qeq_bool x 0) eqn:Bx, (Qeq_bool y 0) eqn:By; try reflexivity.
    - apply Qeq_bool_iff in Bx. rewrite E in Bx. apply Qeq_bool_iff in Bx. congruence.
    - apply Qeq_bool_iff in By. rewrite <- E in By. apply Qeq_bool_iff in By. congruence. }
  rewrite B. destruct (Qeq_bool y 0); [reflexivity|].
  apply Qred_complete. rewrite (ulp_exp_comp x y E).
  assert (S : x / 2 ^ ulp_exp y == y / 2 ^ ulp_exp y) by (rewrite E; reflexivity).
  rewrite (round_half_even_comp _ _ S). reflexivity.
Qed.

#[global] Instance round64_wd : Proper (Qeq ==> Qeq) round64.
Proof. intros x y E. rewrite (round64_comp x y E). reflexivity. Qed.

Lemma round64_0 : round64 0 = 0.
Proof. reflexivity. Qed.

Lemma round64_eq (x : Q) :
  ~ x == 0 ->
  round64 x == inject_Z (round_half_even (x / 2 ^ ulp_exp x)) * 2 ^ ulp_exp x.
Proof.
  intros Hx. unfold round64.
  destruct (Qeq_bool x 0) eqn:E; [apply Qeq_bool_iff in E; contradiction|].
  apply Qred_correct.
Qed.

Lemma scaled (x : Q) (e : Z) : x == x / 2 ^ e * 2 ^ e.
Proof. field. pose proof (pow2_pos e). lra. Qed.

Lemma ulp_exp_min (x : Q) : (-1074 <= ulp_exp x)%Z.
Proof. unfold ulp_exp. lia. Qed.

(** The scaled value is below [2 ^ 53]. *)
Lemma scaled_upper (x : Q) :
  ~ x == 0 -> Qabs (x / 2 ^ ulp_exp x) < 2 ^ 53.
Proof.
  intros Hx. destruct (ilog2_spec x Hx) as [_ U].
  set (e := ulp_exp x).
  assert (He : (ilog2 x + 1 <= e + 53)%Z) by (unfold e, ulp_exp; lia).
  pose proof (pow2_le _ _ He) as P. rewrite (pow2_add e 53) in P.
  pose proof (pow2_pos e) as Pe.
  unfold Qdiv. rewrite Qabs_Qmult, Qabs_Qinv, (Qabs_pos (2 ^ e)) by lra.
  apply Qlt_shift_div_r; [exact Pe|]. lra.
Qed.

(** A value whose exponent is not the smallest one scales to at least
    [2 ^ 52]. *)
Lemma scaled_lower (x : Q) :
  ~ x == 0 -> (-1074 < ulp_exp x)%Z -> 2 ^ 52 <= Qabs (x / 2 ^ ulp_exp x).
Proof.
  intros Hx Hm. destruct (ilog2_spec x Hx) as [L _].
  set (e := ulp_exp x) in *.
  assert (He : (ilog2 x = e + 52)%Z) by (unfold e, ulp_exp in *; lia).
  rewrite He, (pow2_add e 52) in L.
  pose proof (pow2_pos e) as Pe.
  unfold Qdiv. rewrite Qabs_Qmult, Qabs_Qinv, (Qabs_pos (2 ^ e)) by lra.
  apply Qle_shift_div_l; [exact Pe|]. lra.
Qed.

Lemma binary64_0 : binary64 0.
Proof. exists 0%Z, 0%Z. split; [simpl; lia | split; [lia | reflexivity]]. Qed.

(** R1: the result of rounding is a binary64 number. *)
Lemma round64_binary64 (x : Q) : binary64 (round64 x).
Proof.
  destruct (Qeq_dec x 0) as [E | Hx].
  - rewrite (round64_comp _ _ E). exact binary64_0.
  - exists (round_half_even (x / 2 ^ ulp_exp x)), (ulp_exp x).
    split; [|split; [apply ulp_exp_min | now apply round64_eq]].
    pose proof (scaled_upper x Hx) as U.
    rewrite (pow2_Z 53) in U by lia.
    assert (W : - inject_Z (2 ^ 53) <= x / 2 ^ ulp_exp x <= inject_Z (2 ^ 53)).
    { apply Qabs_Qle_condition. lra. }
    apply round_half_even_within in W. lia.
Qed.

(** R2: no binary64 number is nearer to [x] than [round64 x]. *)
Lemma round64_nearest (x y : Q) :
  binary64 y -> Qabs (round64 x - x) <= Qabs (y - x).
Proof.
  intros [m [e' [Hm [He' Ey]]]].
  destruct (Qeq_dec x 0) as [E | Hx].
  { rewrite (round64_comp _ _ E), round64_0, E.
    assert (Z0 : 0 - 0 == 0) by ring. rewrite Z0. apply Qabs_nonneg. }
  rewrite (round64_eq x Hx).
  set (e := ulp_exp x). set (z := x / 2 ^ e).
  pose proof (pow2_pos e) as Pe.
  assert (Ex : x == z * 2 ^ e) by (unfold z; apply scaled).
  set (w := y / 2 ^ e).
  assert (Ew : y == w * 2 ^ e) by (unfold w; apply scaled).
  assert (G : Qabs (inject_Z (round_half_even z) - z) <= Qabs (w - z)).
  { destruct (Z_le_gt_dec e e') as [Hee | Hee].
    - (* [y] is a whole multiple of [2 ^ e] *)
      assert (Ewz : w == inject_Z (m * 2 ^ (e' - e))).
      { unfold w. rewrite Ey, inject_Z_mult, <- pow2_Z by lia.
        replace e' with ((e' - e) + e)%Z at 1 by lia. rewrite pow2_add.
        field. lra. }
      rewrite Ewz. apply round_half_even_nearest.
    - (* [y] lies below the binade of [x] *)
      assert (Hmin : (-1074 < e)%Z) by lia.
      pose proof (scaled_lower x Hx Hmin) as L. fold e in L. fold z in L.
      assert (Hw : Qabs w <= 2 ^ 52).
      { unfold w. rewrite Ey.
        assert (E1 : inject_Z m * 2 ^ e' / 2 ^ e == inject_Z m * 2 ^ (e' - e)).
        { replace e' with ((e' - e) + e)%Z at 1 by lia. rewrite pow2_add.
          field. lra. }
        rewrite E1, Qabs_Qmult.
        pose proof (pow2_pos (e' - e)) as Pd.
        rewrite (Qabs_pos (2 ^ (e' - e))) by lra.
        assert (Hd : 2 ^ (e' - e) <= 2 ^ (-1)) by (apply pow2_le; lia).
        assert (Hm' : Qabs (inject_Z m) <= 2 ^ 53).
        { rewrite (pow2_Z 53) by lia.
          change (Qabs (inject_Z m)) with (inject_Z (Z.abs m)).
          now rewrite <- Zle_Qle. }
        pose proof (Qabs_nonneg (inject_Z m)) as Hn.
        apply Qle_trans with (2 ^ 53 * 2 ^ (-1)).
        - apply Qmult_le_compat_nonneg; split; lra.
        - rewrite <- pow2_add. apply Qle_refl. }
      apply Qabs_Qle_condition in Hw.
      rewrite (pow2_Z 52) in * by lia.
      destruct (Qlt_le_dec z 0) as [Hz | Hz].
      + rewrite (Qabs_neg z) in L by lra.
        eapply Qle_trans; [apply (round_half_even_nearest z (- 2 ^ 52))|].
        rewrite inject_Z_opp.
        rewrite (Qabs_pos (- inject_Z (2 ^ 52) - z)) by lra.
        apply Qabs_ge. lra.
      + rewrite (Qabs_pos z) in L by lra.
        eapply Qle_trans; [apply (round_half_even_nearest z (2 ^ 52))|].
        rewrite (Qabs_neg (inject_Z (2 ^ 52) - z)) by lra.
        apply Qabs_ge_neg. lra. }
  assert (A1 : inject_Z (round_half_even z) * 2 ^ e - x ==
               (inject_Z (round_half_even z) - z) * 2 ^ e) by (rewrite Ex at 1; ring).
  assert (A2 : y - x == (w - z) * 2 ^ e) by (rewrite Ew, Ex at 1; ring).
  rewrite A1, A2, !Qabs_Qmult, (Qabs_pos (2 ^ e)) by lra.
  apply Qmult_le_compat_r; [exact G | lra].
Qed.

(** R3: rounding leaves a binary64 number as it is. *)
Lemma round64_id (x : Q) : binary64 x -> round64 x == x.
Proof.
  intros H. pose proof (round64_nearest x x H) as N.
  assert (E : x - x == 0) by ring. rewrite E in N. change (Qabs 0) with 0 in N.
  apply Qabs_Qle_condition in N. lra.
Qed.

(** R4: rounding does not cross a binary64 number. *)
Lemma round64_le (x y : Q) : binary64 y -> x <= y -> round64 x <= y.
Proof.
  intros H L. pose proof (round64_nearest x y H) as N.
  rewrite (Qabs_pos (y - x)) in N by lra.
  apply Qabs_Qle_condition in N. lra.
Qed.

Lemma round64_ge (x y : Q) : binary64 y -> y <= x -> y <= round64 x.
Proof.
  intros H L. pose proof (round64_nearest x y H) as N.
  rewrite (Qabs_neg (y - x)) in N by lra.
  apply Qabs_Qle_condition in N. lra.
Qed.

Lemma binary64_opp (x : Q) : binary64 x -> binary64 (- x).
Proof.
  intros [m [e [Hm [He E]]]]. exists (- m)%Z, e.
  split; [lia | split; [exact He|]]. rewrite E, inject_Z_opp. ring.
Qed.

Lemma binary64_Z (z : Z) : (Z.abs z <= 2 ^ 53)%Z -> binary64 (inject_Z z).
Proof.
  intros H. exists z, 0%Z. split; [exact H | split; [lia|]].
  change (2 ^ 0) with 1. ring.
Qed.

Lemma Qred_inject_Z (z : Z) : Qred (inject_Z z) = inject_Z z.
Proof.
  unfold Qred, inject_Z.
  pose proof (Z.ggcd_gcd z 1) as G. pose proof (Z.ggcd_correct_divisors z 1) as D.
  destruct (Z.ggcd z 1) as [g [aa bb]]. cbn [fst snd] in *.
  rewrite Z.gcd_1_r in G. subst g. destruct D as [D1 D2].
  assert (Ea : aa = z) by lia. assert (Eb : bb = 1%Z) by lia.
  rewrite Ea, Eb. reflexivity.
Qed.

Lemma round64_canonical (x : Q) : Qred (round64 x) = round64 x.
Proof.
  unfold round64. destruct (Qeq_bool x 0); [reflexivity|].
  apply Qred_complete, Qred_correct.
Qed.

Lemma round64_Z (z : Z) : (Z.abs z <= 2 ^ 53)%Z -> round64 (inject_Z z) = inject_Z z.
Proof.
  intros H. pose proof (round64_id _ (binary64_Z z H)) as E.
  apply Qred_complete in E.
  now rewrite Qred_inject_Z, round64_canonical in E.
Qed.


(** R5: the rounding error below [2 ^ p]. *)
Lemma round64_error (x : Q) (p : Z) :
  (-1021 <= p)%Z -> Qabs x <= 2 ^ p -> Qabs (round64 x - x) <= 2 ^ (p - 53).
Proof.
  intros Hp Hx.
  set (e := (p - 53)%Z). set (z := x / 2 ^ e).
  pose proof (pow2_pos e) as Pe.
  assert (Ex : x == z * 2 ^ e) by (unfold z; apply scaled).
  assert (Hz : - inject_Z (2 ^ 53) <= z <= inject_Z (2 ^ 53)).
  { apply Qabs_Qle_condition. unfold z, Qdiv.
    rewrite Qabs_Qmult, Qabs_Qinv, (Qabs_pos (2 ^ e)) by lra.
    apply Qle_shift_div_r; [exact Pe|].
    rewrite <- pow2_Z by lia. rewrite <- pow2_add.
    replace (53 + e)%Z with p by (unfold e; lia). exact Hx. }
  set (m := Qfloor z).
  assert (Hm : (Z.abs m <= 2 ^ 53)%Z).
  { destruct Hz as [Z1 Z2].
    assert (A : (- 2 ^ 53 <= m)%Z).
    { rewrite <- inject_Z_opp in Z1. apply Qfloor_resp_le in Z1.
      now rewrite Qfloor_Z in Z1. }
    assert (B : (m <= 2 ^ 53)%Z).
    { apply Qfloor_resp_le in Z2. now rewrite Qfloor_Z in Z2. }
    lia. }
  assert (Hy : binary64 (inject_Z m * 2 ^ e)).
  { exists m, e. split; [exact Hm | split; [unfold e; lia | reflexivity]]. }
  eapply Qle_trans; [apply (round64_nearest x _ Hy)|].
  assert (A : inject_Z m * 2 ^ e - x == (inject_Z m - z) * 2 ^ e)
    by (rewrite Ex at 1; ring).
  rewrite A, Qabs_Qmult, (Qabs_pos (2 ^ e)) by lra.
  pose proof (Qfloor_le z) as F1. pose proof (Qlt_floor z) as F2.
  fold m in F1, F2. rewrite inject_Z_plus in F2. change (inject_Z 1) with 1 in F2.
  assert (B : Qabs (inject_Z m - z) <= 1) by (apply Qabs_le_both; lra).
  assert (C : Qabs (inject_Z m - z) * 2 ^ e <= 1 * 2 ^ e)
    by (apply Qmult_le_compat_r; [exact B | lra]).
  lra.
Qed.

(** [(int64_t) x]: the integer part of [x]. *)
Lemma trunc_spec (x : Q) :
  let t := Z.quot (Qnum x) (Zpos (Qden x)) in
  (0 <= x -> inject_Z t <= x /\ x < inject_Z t + 1) /\
  (x <= 0 -> inject_Z t - 1 < x /\ x <= inject_Z t).
Proof.
  destruct x as [n d]. cbn [Qnum Qden]. split; intros H.
  - assert (Hn : (0 <= n)%Z) by (unfold Qle in H; simpl in H; lia).
    rewrite Z.quot_div_nonneg by lia.
    change (n / Z.pos d)%Z with (Qfloor (n # d)).
    split; [apply Qfloor_le|].
    pose proof (Qlt_floor (n # d)) as F. rewrite inject_Z_plus in F. exact F.
  - assert (Hn : (n <= 0)%Z) by (unfold Qle in H; simpl in H; lia).
    assert (E : (n ÷ Z.pos d = - Qfloor (- (n # d)))%Z).
    { unfold Qfloor, Qopp. cbn [Qnum Qden].
      rewrite <- (Z.opp_involutive n) at 1. rewrite Z.quot_opp_l by lia.
      rewrite Z.quot_div_nonneg by lia. reflexivity. }
    rewrite E. rewrite inject_Z_opp.
    pose proof (Qfloor_le (- (n # d))) as F1.
    pose proof (Qlt_floor (- (n # d))) as F2.
    rewrite inject_Z_plus in F2. change (inject_Z 1) with 1 in F2.
    split; lra.
Qed.


Lemma round64_mono (x y : Q) : x <= y -> round64 x <= round64 y.
Proof.
  intros L. destruct (Qlt_le_dec (round64 y) (round64 x)) as [C | C]; [|exact C].
  exfalso.
  pose proof (round64_binary64 x) as Bx. pose proof (round64_binary64 y) as By.
  destruct (Qlt_le_dec (round64 y) x) as [H1 | H1];
    [|pose proof (round64_le x _ By H1); lra].
  destruct (Qlt_le_dec y (round64 x)) as [H2 | H2];
    [|pose proof (round64_ge y _ Bx H2); lra].
  pose proof (round64_nearest x _ By) as N1.
  pose proof (round64_nearest y _ Bx) as N2.
  rewrite (Qabs_pos (round64 x - x)), (Qabs_neg (round64 y - x)) in N1 by lra.
  rewrite (Qabs_neg (round64 y - y)), (Qabs_pos (round64 x - y)) in N2 by lra.
  assert (E : x == y) by lra.
  rewrite (round64_comp x y E) in C. lra.
Qed.

(** Subtracting 24 from a binary64 number of at least 24 is exact. *)
Lemma binary64_sub24 (h : Q) :
  binary64 h -> 24 <= h -> h <= 2 ^ 55 -> binary64 (h - 24).
Proof.
  intros [m [e [Hm [He E]]]] L U.
  pose proof (pow2_pos e) as Pe.
  destruct (Z_le_gt_dec e 3) as [C | C].
  - exists (m - 3 * 2 ^ (3 - e))%Z, e.
    assert (E24 : 24 == inject_Z (3 * 2 ^ (3 - e)) * 2 ^ e).
    { rewrite inject_Z_mult, <- pow2_Z by lia.
      rewrite <- Qmult_assoc, <- pow2_add.
      replace (3 - e + e)%Z with 3%Z by lia. reflexivity. }
    assert (G : (3 * 2 ^ (3 - e) <= m)%Z).
    { rewrite Zle_Qle. apply (Qmult_le_r _ _ (2 ^ e)); [exact Pe|].
      rewrite <- E24, <- E. exact L. }
    assert (P : (0 < 2 ^ (3 - e))%Z) by (apply Z.pow_pos_nonneg; lia).
    split; [lia|]. split; [exact He|].
    unfold Z.sub at 1. rewrite inject_Z_plus, inject_Z_opp.
    assert (X : h - 24 == inject_Z m * 2 ^ e - inject_Z (3 * 2 ^ (3 - e)) * 2 ^ e)
      by (rewrite <- E, <- E24; reflexivity).
    rewrite X. generalize (2 ^ e) (inject_Z m) (inject_Z (3 * 2 ^ (3 - e))).
    intros. ring.
  - exists (m * 2 ^ (e - 3) - 3)%Z, 3%Z.
    assert (Eh : h == inject_Z (m * 2 ^ (e - 3)) * 2 ^ 3).
    { rewrite E, inject_Z_mult, <- pow2_Z by lia.
      rewrite <- Qmult_assoc, <- pow2_add.
      replace (e - 3 + 3)%Z with e by lia. reflexivity. }
    assert (G : (3 <= m * 2 ^ (e - 3) <= 2 ^ 52)%Z).
    { split; rewrite Zle_Qle; apply (Qmult_le_r _ _ (2 ^ 3)); try reflexivity.
      - rewrite <- Eh. exact L.
      - rewrite <- Eh. rewrite <- pow2_Z by lia. rewrite <- pow2_add. exact U. }
    change (2 ^ 52)%Z with 4503599627370496%Z in G.
    change (2 ^ 53)%Z with 9007199254740992%Z.
    split; [lia|]. split; [lia|].
    replace (m * 2 ^ (e - 3) - 3)%Z with (m * 2 ^ (e - 3) + -3)%Z by lia.
    rewrite inject_Z_plus, Eh. change (2 ^ 3) with 8.
    change (inject_Z (-3)) with (-3 # 1).
    generalize (inject_Z (m * 2 ^ (e - 3))). intros. ring.
Qed.

End RoundingFacts.

(** * Lemmas on strings *)

Section StringFacts.

Lemma length_app (a b : string) :
  String.length (a ++ b) = (String.length a + String.length b)%nat.
Proof. induction a as [|c a IH]; simpl; [reflexivity | now rewrite IH]. Qed.

Lemma app_assoc_str (a b c : string) : (a ++ b) ++ c = a ++ b ++ c.
Proof. induction a as [|x a IH]; simpl; [reflexivity | now rewrite IH]. Qed.

Lemma app_nil_r_str (a : string) : a ++ "" = a.
Proof. induction a as [|x a IH]; simpl; [reflexivity | now rewrite IH]. Qed.

Lemma get_lt (s : string) : forall i,
  (i < String.length s)%nat -> exists c, String.get i s = Some c.
Proof.
  induction s as [|a s IH]; simpl; intros i Hi; [lia|].
  destruct i as [|i]; [now exists a|]. apply IH. lia.
Qed.

Lemma get_some_lt (s : string) : forall i c,
  String.get i s = Some c -> (i < String.length s)%nat.
Proof.
  induction s as [|a s IH]; simpl; intros i c H; [discriminate|].
  destruct i as [|i]; [lia|]. apply IH in H. lia.
Qed.

Lemma valid_frame_get (a : ascii) (s : string) :
  exists c, String.get (String.length s) (String a s) = Some c /\
            Ascii.eqb c "#" = valid_frame (String a s).
Proof.
  revert a. induction s as [|b s IH]; intros a.
  - exists a. split; reflexivity.
  - destruct (IH b) as [c [Hc Hv]]. exists c. split.
    + exact Hc.
    + rewrite Hv. reflexivity.
Qed.

Lemma valid_frame_app (p : string) : valid_frame (p ++ "#") = true.
Proof.
  induction p as [|a p IH]; [reflexivity|].
  simpl. destruct (p ++ "#") eqn:E; [|exact IH].
  destruct p; discriminate.
Qed.

Lemma valid_frame_iff (s : string) :
  valid_frame s = true <-> hash_terminated s.
Proof.
  split.
  - induction s as [|a s IH]; [discriminate|].
    destruct s as [|b s].
    + simpl. intros H. apply Ascii.eqb_eq in H. subst a. now exists "".
    + intros H. destruct (IH H) as [p Hp]. exists (String a p).
      simpl. now rewrite <- Hp.
  - intros [p ->]. apply valid_frame_app.
Qed.

Lemma hash_terminated_nonempty (s : string) :
  hash_terminated s -> s <> "".
Proof. intros [p ->]. destruct p; discriminate. Qed.

Lemma substring_length (s : string) : forall off n,
  (off + n <= String.length s)%nat ->
  String.length (substring off n s) = n.
Proof.
  induction s as [|a s IH]; intros off n H; simpl in H.
  - assert (off = O) by lia. assert (n = O) by lia. subst. reflexivity.
  - destruct off as [|off]; simpl.
    + destruct n as [|n]; [reflexivity|]. simpl. f_equal. apply IH. lia.
    + apply IH. lia.
Qed.

Lemma substring_prefix (b c : string) :
  substring 0 (String.length b) (b ++ c) = b.
Proof.
  induction b as [|x b IH]; simpl.
  - destruct c; reflexivity.
  - now rewrite IH.
Qed.

Lemma substring_mid (a b c : string) :
  substring (String.length a) (String.length b) (a ++ b ++ c) = b.
Proof.
  induction a as [|x a IH]; simpl.
  - apply substring_prefix.
  - exact IH.
Qed.

End StringFacts.

(** * Lemmas on buffer reads *)

Section BufFacts.

Lemma peek_run (s : string) (i : nat) (c : ascii) (tr : list nat) :
  String.get i s = Some c -> Buf.peek s i tr = Some (c, i :: tr).
Proof. unfold Buf.peek. now intros ->. Qed.

Lemma strncpy_at_run (s : string) : forall n off tr,
  (off + n <= String.length s)%nat ->
  Buf.strncpy_at s off n tr = Some (substring off n s, (rev (seq off n) ++ tr)%list).
Proof.
  induction n as [|n IH]; intros off tr H.
  - simpl. unfold Buf.ret. f_equal. f_equal.
    clear H. revert off. induction s as [|a s IHs]; intros [|off]; simpl; auto.
  - simpl Buf.strncpy_at. unfold Buf.bind.
    destruct (get_lt s off) as [c Hc]; [lia|].
    rewrite (peek_run _ _ _ _ Hc).
    rewrite IH by lia. unfold Buf.ret. f_equal. f_equal.
    + clear IH. revert off H Hc.
      induction s as [|a s IHs]; intros off H Hc; [discriminate|].
      destruct off as [|off].
      * simpl in Hc. injection Hc as ->. reflexivity.
      * simpl in Hc. simpl. apply IHs; [simpl in H; lia | exact Hc].
    + simpl. rewrite <- app_assoc. reflexivity.
Qed.

(** [CheckForValidResponse] never fails: it reads the last byte only. *)
Lemma Check_run (s : string) (tr : list nat) :
  CheckForValidResponse s tr = Some (valid_frame s, (check_reads s ++ tr)%list).
Proof.
  unfold CheckForValidResponse, strlen.
  destruct s as [|a s]; [reflexivity|].
  cbn [String.length]. change (0 <? S (String.length s))%nat with true.
  cbv iota. replace (S (String.length s) - 1)%nat with (String.length s) by lia.
  unfold Buf.bind.
  destruct (valid_frame_get a s) as [c [Hc Hv]].
  rewrite (peek_run _ _ _ _ Hc). unfold Buf.ret. now rewrite Hv.
Qed.

Lemma bind_Check {A : Type} (s : string) (k : bool -> Buf.M A) (tr : list nat) :
  Buf.bind (CheckForValidResponse s) k tr = k (valid_frame s) (check_reads s ++ tr)%list.
Proof. unfold Buf.bind. now rewrite Check_run. Qed.

Lemma check_reads_bound (s : string) :
  Forall (fun i => (i < String.length s)%nat) (check_reads s).
Proof. destruct s; simpl; constructor; [lia | constructor]. Qed.

End BufFacts.

(** * Lemmas on decimal numbers *)

Section DecimalFacts.

Lemma all_digits_cons (c : ascii) (r : string) :
  all_digits (String c r) = isdigit c && all_digits r.
Proof. reflexivity. Qed.

Lemma all_digits_app (a b : string) :
  all_digits (a ++ b) = all_digits a && all_digits b.
Proof.
  induction a as [|c a IH]; [reflexivity|].
  simpl. rewrite !all_digits_cons, IH. now rewrite andb_assoc.
Qed.

Lemma isdigit_range (c : ascii) :
  isdigit c = true -> 0 <= minus_zero c <= 9.
Proof.
  unfold isdigit, minus_zero. intros H.
  apply andb_true_iff in H. destruct H as [H1 H2].
  apply Nat.leb_le in H1. apply Nat.leb_le in H2. lia.
Qed.

Lemma isdigit_not_space (c : ascii) : isdigit c = true -> isspace c = false.
Proof.
  unfold isdigit, isspace. intros H.
  apply andb_true_iff in H. destruct H as [H1 H2].
  apply Nat.leb_le in H1. apply Nat.leb_le in H2.
  apply orb_false_iff. split.
  - apply Nat.eqb_neq. lia.
  - apply andb_false_iff. right. apply Nat.leb_gt. lia.
Qed.

Lemma decimal_acc_shift (s : string) : forall acc,
  decimal_acc s acc = acc * 10 ^ Z.of_nat (String.length s) + decimal_value s.
Proof.
  unfold decimal_value.
  induction s as [|c r IH]; intros acc.
  - simpl. lia.
  - cbn [decimal_acc String.length]. rewrite IH. rewrite (IH (0 * 10 + minus_zero c)).
    rewrite Nat2Z.inj_succ, Z.pow_succ_r by lia. ring.
Qed.

Lemma decimal_value_bound (s : string) :
  all_digits s = true ->
  0 <= decimal_value s < 10 ^ Z.of_nat (String.length s).
Proof.
  induction s as [|c r IH]; intros H.
  - cbn. lia.
  - rewrite all_digits_cons in H. apply andb_true_iff in H. destruct H as [Hc Hr].
    specialize (IH Hr). apply isdigit_range in Hc.
    unfold decimal_value. cbn [decimal_acc String.length].
    rewrite decimal_acc_shift.
    rewrite Nat2Z.inj_succ, Z.pow_succ_r by lia.
    set (P := 10 ^ Z.of_nat (String.length r)) in *.
    assert (0 < P) by (apply Z.pow_pos_nonneg; lia).
    nia.
Qed.

Lemma decimal_acc_app (a b : string) : forall acc,
  decimal_acc (a ++ b) acc = decimal_acc b (decimal_acc a acc).
Proof. induction a as [|c a IH]; intros acc; simpl; auto. Qed.

(** On a string of digits the loop of [strtoll] reads every byte. *)
Lemma digits_acc_all (s : string) : forall acc,
  all_digits s = true -> digits_acc s acc = decimal_acc s acc.
Proof.
  induction s as [|c r IH]; intros acc H; [reflexivity|].
  rewrite all_digits_cons in H. apply andb_true_iff in H. destruct H as [Hc Hr].
  simpl. rewrite Hc. now apply IH.
Qed.

(** It stops at the first byte that is not a digit. *)
Lemma digits_acc_stop (a : string) (c : ascii) (r : string) : forall acc,
  all_digits a = true -> isdigit c = false ->
  digits_acc (a ++ String c r) acc = decimal_acc a acc.
Proof.
  induction a as [|x a IH]; intros acc Ha Hc.
  - simpl. now rewrite Hc.
  - rewrite all_digits_cons in Ha. apply andb_true_iff in Ha. destruct Ha as [Hx Ha].
    simpl. rewrite Hx. now apply IH.
Qed.

Lemma skip_digits_stop (a : string) (c : ascii) (r : string) :
  all_digits a = true -> isdigit c = false ->
  skip_digits (a ++ String c r) = String c r.
Proof.
  induction a as [|x a IH]; intros Ha Hc.
  - simpl. now rewrite Hc.
  - rewrite all_digits_cons in Ha. apply andb_true_iff in Ha. destruct Ha as [Hx Ha].
    simpl. rewrite Hx. now apply IH.
Qed.

(** A string that starts with a digit has neither white space nor a sign
    for [strtoll] to consume. *)
Lemma strtoll_digit_start (c : ascii) (r : string) :
  isdigit c = true ->
  strtoll (String c r) = clamp INT64_MIN INT64_MAX (digits_acc (String c r) 0).
Proof.
  intros H. unfold strtoll.
  cbn [skip_space]. rewrite (isdigit_not_space c H).
  destruct c as [[] [] [] [] [] [] [] []]; try discriminate H; reflexivity.
Qed.

Lemma clamp_id (lo hi x : Z) : lo <= x <= hi -> clamp lo hi x = x.
Proof.
  intros H. unfold clamp.
  destruct (Z.ltb_spec x lo); [lia|]. destruct (Z.ltb_spec hi x); [lia|]. reflexivity.
Qed.

Lemma clamp_range (lo hi x : Z) : lo <= hi -> lo <= clamp lo hi x <= hi.
Proof.
  intros H. unfold clamp.
  destruct (Z.ltb_spec x lo); [lia|]. destruct (Z.ltb_spec hi x); lia.
Qed.

Lemma pow10_le (n m : nat) : (n <= m)%nat -> 10 ^ Z.of_nat n <= 10 ^ Z.of_nat m.
Proof. intros H. apply Z.pow_le_mono_r; lia. Qed.

(** [atoll] of at most 18 digits is the number they denote. *)
Lemma atoll_digits (s : string) :
  all_digits s = true -> (String.length s <= 18)%nat ->
  atoll s = decimal_value s.
Proof.
  intros Hd Hl.
  pose proof (decimal_value_bound s Hd) as Hb.
  pose proof (pow10_le _ _ Hl) as Hp.
  assert (E : clamp INT64_MIN INT64_MAX (decimal_value s) = decimal_value s).
  { apply clamp_id. unfold INT64_MIN, INT64_MAX.
    change (10 ^ Z.of_nat 18) with 1000000000000000000 in Hp. lia. }
  unfold atoll. destruct s as [|c r].
  - reflexivity.
  - pose proof Hd as Hd'. rewrite all_digits_cons in Hd'.
    apply andb_true_iff in Hd'. destruct Hd' as [Hc _].
    rewrite (strtoll_digit_start c r Hc).
    rewrite (digits_acc_all _ 0 Hd). exact E.
Qed.

(** [atoi] of at most 9 digits is the number they denote, whatever
    follows the digits. *)
Lemma atoi_digits (a : string) (c : ascii) (r : string) :
  all_digits a = true -> a <> "" -> (String.length a <= 9)%nat ->
  isdigit c = false ->
  atoi (a ++ String c r) = decimal_value a.
Proof.
  intros Hd Hne Hl Hc.
  pose proof (decimal_value_bound a Hd) as Hb.
  pose proof (pow10_le _ _ Hl) as Hp.
  change (10 ^ Z.of_nat 9) with 1000000000 in Hp.
  unfold atoi. destruct a as [|x a]; [congruence|].
  pose proof Hd as Hd'. rewrite all_digits_cons in Hd'.
  apply andb_true_iff in Hd'. destruct Hd' as [Hx _].
  change (String x a ++ String c r) with (String x (a ++ String c r)).
  rewrite (strtoll_digit_start x _ Hx).
  change (String x (a ++ String c r)) with (String x a ++ String c r).
  rewrite (digits_acc_stop _ _ _ 0 Hd Hc).
  fold (decimal_value (String x a)).
  rewrite clamp_id by (unfold INT64_MIN, INT64_MAX; lia).
  unfold wrap32. rewrite Z.mod_small by lia. lia.
Qed.

End DecimalFacts.

(** * Lemmas on the printed fields *)

Section PrintFacts.

Lemma digit_char_spec (d : Z) :
  0 <= d <= 9 ->
  isdigit (digit_char d) = true /\ minus_zero (digit_char d) = d.
Proof.
  intros H.
  assert (E : d = 0 \/ d = 1 \/ d = 2 \/ d = 3 \/ d = 4 \/
              d = 5 \/ d = 6 \/ d = 7 \/ d = 8 \/ d = 9) by lia.
  repeat (destruct E as [E | E]; [subst d; split; reflexivity|]).
  subst d; split; reflexivity.
Qed.

Lemma decimal_value_snoc (a : string) (c : ascii) :
  decimal_value (a ++ String c "") = decimal_value a * 10 + minus_zero c.
Proof. unfold decimal_value. rewrite decimal_acc_app. reflexivity. Qed.

Lemma utoa_fuel_S (f : nat) (n : Z) (acc : string) :
  utoa_fuel (S f) n acc =
  if n / 10 =? 0 then String (digit_char (n mod 10)) acc
  else utoa_fuel f (n / 10) (String (digit_char (n mod 10)) acc).
Proof. reflexivity. Qed.

(** With enough fuel [utoa_fuel] prints [n] in full, without leading
    zeros beyond the first digit. *)
Lemma utoa_fuel_spec : forall (f f' : nat) (n : Z) (acc : string),
  0 <= n < 10 ^ Z.of_nat (S f) -> (f <= f')%nat ->
  exists body,
    utoa_fuel (S f') n acc = body ++ acc /\
    (String.length body <= S f)%nat /\
    all_digits body = true /\
    decimal_value body = n.
Proof.
  induction f as [|f IH]; intros f' n acc Hn Hf.
  - change (10 ^ Z.of_nat 1) with 10 in Hn.
    assert (Hq : n / 10 = 0) by (apply Z.div_small; lia).
    assert (Hm : n mod 10 = n) by (apply Z.mod_small; lia).
    rewrite utoa_fuel_S, Hq, Hm. cbn [Z.eqb].
    destruct (digit_char_spec n) as [Hd Hv]; [lia|].
    exists (String (digit_char n) ""). repeat split.
    + simpl. lia.
    + rewrite all_digits_cons, Hd. reflexivity.
    + unfold decimal_value. cbn [decimal_acc]. lia.
  - destruct f' as [|f']; [lia|].
    assert (Hmod : 0 <= n mod 10 <= 9) by (pose proof (Z.mod_pos_bound n 10); lia).
    destruct (digit_char_spec (n mod 10) Hmod) as [Hd Hv].
    rewrite utoa_fuel_S.
    destruct (Z.eqb_spec (n / 10) 0) as [Hq | Hq].
    + exists (String (digit_char (n mod 10)) ""). repeat split.
      * simpl. lia.
      * rewrite all_digits_cons, Hd. reflexivity.
      * unfold decimal_value. cbn [decimal_acc].
        pose proof (Z.div_mod n 10). lia.
    + assert (Hn' : 0 <= n / 10 < 10 ^ Z.of_nat (S f)).
      { split; [apply Z.div_pos; lia|].
        apply Z.div_lt_upper_bound; [lia|].
        rewrite (Nat2Z.inj_succ (S f)), Z.pow_succ_r in Hn by lia. lia. }
      destruct (IH f' (n / 10) (String (digit_char (n mod 10)) acc) Hn')
        as [body [E [Hl [Hall Hval]]]]; [lia|].
      exists (body ++ String (digit_char (n mod 10)) ""). repeat split.
      * rewrite E, app_assoc_str. reflexivity.
      * rewrite length_app. simpl. lia.
      * rewrite all_digits_app, Hall, all_digits_cons, Hd. reflexivity.
      * rewrite decimal_value_snoc, Hval, Hv.
        pose proof (Z.div_mod n 10). lia.
Qed.

Lemma zeros_length (k : nat) : String.length (zeros k) = k.
Proof. induction k; simpl; auto. Qed.

Lemma zeros_digits (k : nat) : all_digits (zeros k) = true.
Proof. induction k; [reflexivity|]. simpl. rewrite all_digits_cons, IHk. reflexivity. Qed.

Lemma zeros_value (k : nat) : decimal_acc (zeros k) 0 = 0.
Proof. induction k; [reflexivity|]. simpl. exact IHk. Qed.

(** [%0<w>lld] of a number of at most [w] digits: exactly [w] digits, which
    denote the number. *)
Lemma sprintf_0lld_field (w : nat) (n : Z) :
  (1 <= w <= 19)%nat -> 0 <= n < 10 ^ Z.of_nat w ->
  String.length (sprintf_0lld w n) = w /\
  all_digits (sprintf_0lld w n) = true /\
  decimal_value (sprintf_0lld w n) = n.
Proof.
  intros Hw Hn. unfold sprintf_0lld, utoa.
  destruct (Z.ltb_spec n 0) as [|_]; [lia|].
  rewrite Z.abs_eq by lia.
  destruct w as [|w]; [lia|].
  destruct (utoa_fuel_spec w 18 n "" Hn) as [body [E [Hl [Hall Hval]]]]; [lia|].
  rewrite E, app_nil_r_str. cbn [String.length append]. rewrite Nat.sub_0_r.
  repeat split.
  - rewrite length_app, zeros_length. lia.
  - rewrite all_digits_app, zeros_digits, Hall. reflexivity.
  - unfold decimal_value. rewrite decimal_acc_app, zeros_value. exact Hval.
Qed.

(** The two tests of the RA encoder amount to [clamp]. *)
Lemma SRA_command_field (ra : Q) :
  exists ra9,
    SRA_command ra = ":SRA" ++ ra9 ++ "#" /\
    String.length ra9 = 9%nat /\
    all_digits ra9 = true /\
    decimal_value ra9 =
      clamp 0 129600000 (double_to_int64 (ra_scaled ra)).
Proof.
  unfold SRA_command. fold (ra_scaled ra).
  set (x := double_to_int64 (ra_scaled ra)).
  set (y := if 129600000 <? (if x <? 0 then 0 else x) then 129600000
            else (if x <? 0 then 0 else x)).
  assert (Hy : y = clamp 0 129600000 x).
  { unfold y, clamp.
    destruct (Z.ltb_spec x 0); destruct (Z.ltb_spec 129600000 x);
      try reflexivity; try lia. }
  assert (Hr : 0 <= y <= 129600000) by (rewrite Hy; apply clamp_range; lia).
  destruct (sprintf_0lld_field 9 y) as [Hl [Hd Hv]];
    [lia | change (10 ^ Z.of_nat 9) with 1000000000; lia |].
  exists (sprintf_0lld 9 y). repeat split; auto. now rewrite Hv.
Qed.

(** The declination field: the sign is ['-'] exactly for a negative
    clamped value, and the digits give its magnitude. *)
Lemma Sds_command_field (dec : Q) :
  let v := clamp (-32400000) 32400000 (double_to_int64 (dec_scaled dec)) in
  exists sgn dec8,
    Sds_command dec = ":Sds" ++ String sgn dec8 ++ "#" /\
    String.length dec8 = 8%nat /\
    all_digits dec8 = true /\
    ((sgn = "+"%char /\ 0 <= v /\ decimal_value dec8 = v) \/
     (sgn = "-"%char /\ v < 0 /\ decimal_value dec8 = - v)).
Proof.
  intros v. unfold Sds_command. fold (dec_scaled dec).
  set (x := double_to_int64 (dec_scaled dec)) in *.
  set (y := if 32400000 <? (if x <? -32400000 then -32400000 else x)
            then 32400000 else (if x <? -32400000 then -32400000 else x)).
  assert (Hy : y = v).
  { unfold y, v, clamp.
    destruct (Z.ltb_spec x (-32400000)); destruct (Z.ltb_spec 32400000 x);
      try reflexivity; try lia. }
  assert (Hr : -32400000 <= y <= 32400000)
    by (rewrite Hy; apply clamp_range; lia).
  rewrite <- Hy.
  destruct (Z.leb_spec 0 y) as [Hpos | Hneg].
  - destruct (sprintf_0lld_field 8 y) as [Hl [Hd Hv]];
      [lia | change (10 ^ Z.of_nat 8) with 100000000; lia |].
    exists "+"%char, (sprintf_0lld 8 y). repeat split; auto.
  - destruct (sprintf_0lld_field 8 (- y)) as [Hl [Hd Hv]];
      [lia | change (10 ^ Z.of_nat 8) with 100000000; lia |].
    exists "-"%char, (sprintf_0lld 8 (- y)). repeat split; auto.
Qed.

End PrintFacts.

(** * Lemmas on the processors *)

Section ProcessorFacts.

Lemma Qlt_bool_iff (x y : Q) : Qlt_bool x y = true <-> (x < y)%Q.
Proof.
  unfold Qlt_bool. rewrite negb_true_iff. split.
  - intros H. apply Qnot_le_lt. intros Hle.
    apply Qle_bool_iff in Hle. congruence.
  - intros H. destruct (Qle_bool y x) eqn:E; [|reflexivity].
    apply Qle_bool_iff in E. exfalso. exact (Qlt_not_le _ _ H E).
Qed.

Lemma same_link_refl (d : Driver) : same_link d d.
Proof. repeat split. Qed.

Variables (s : string) (d : Driver).

(** An invalid frame: every processor stops after the validity check. *)
Lemma GEP_run_invalid (tr : list nat) :
  valid_frame s = false ->
  Process_GEP_Response s d tr = Some ((false, d), (check_reads s ++ tr)%list).
Proof. intros H. unfold Process_GEP_Response. rewrite bind_Check, H. reflexivity. Qed.

Lemma GLS_run_invalid (tr : list nat) :
  valid_frame s = false ->
  Process_GLS_Response s d tr = Some ((false, d), (check_reads s ++ tr)%list).
Proof. intros H. unfold Process_GLS_Response. rewrite bind_Check, H. reflexivity. Qed.

Lemma RA_run_invalid (tr : list nat) :
  valid_frame s = false ->
  Process_RA_Response s d tr = Some ((false, d), (check_reads s ++ tr)%list).
Proof. intros H. unfold Process_RA_Response. rewrite bind_Check, H. reflexivity. Qed.

Lemma DEC_run_invalid (tr : list nat) :
  valid_frame s = false ->
  Process_DEC_Response s d tr = Some ((false, d), (check_reads s ++ tr)%list).
Proof. intros H. unfold Process_DEC_Response. rewrite bind_Check, H. reflexivity. Qed.

Lemma dispatch_run_invalid (tr : list nat) :
  valid_frame s = false ->
  Process_iOptronResponse s d tr = Some ((false, d), (check_reads s ++ tr)%list).
Proof. intros H. unfold Process_iOptronResponse. rewrite bind_Check, H. reflexivity. Qed.

(** A valid frame below the minimum length: nothing more is read. *)
Lemma GEP_run_short (tr : list nat) :
  valid_frame s = true -> (String.length s < 20)%nat ->
  Process_GEP_Response s d tr = Some ((true, d), (check_reads s ++ tr)%list).
Proof.
  intros H Hl. unfold Process_GEP_Response, strlen. rewrite bind_Check, H.
  destruct (Nat.leb_spec 20 (String.length s)); [lia | reflexivity].
Qed.

Lemma GLS_run_short (tr : list nat) :
  valid_frame s = true -> (String.length s < 23)%nat ->
  Process_GLS_Response s d tr = Some ((true, d), (check_reads s ++ tr)%list).
Proof.
  intros H Hl. unfold Process_GLS_Response, strlen. rewrite bind_Check, H.
  destruct (Nat.leb_spec 23 (String.length s)); [lia | reflexivity].
Qed.

(** A valid frame of full length: offsets 0 to 17 are read. *)
Lemma GEP_run_long (c0 : ascii) (tr : list nat) :
  valid_frame s = true -> (20 <= String.length s)%nat ->
  String.get 0 s = Some c0 ->
  Process_GEP_Response s d tr =
  Some ((true, GEP_store c0 (substring 1 8 s) (substring 9 9 s) s d),
        (rev (seq 9 9) ++ rev (seq 1 8) ++ 0%nat :: check_reads s ++ tr)%list).
Proof.
  intros H Hl H0. unfold Process_GEP_Response, strlen. rewrite bind_Check, H.
  destruct (Nat.leb_spec 20 (String.length s)); [|lia].
  unfold Buf.bind at 1. rewrite (peek_run _ _ _ _ H0).
  unfold Buf.bind at 1. rewrite strncpy_at_run by lia.
  unfold Buf.bind at 1. rewrite strncpy_at_run by lia.
  reflexivity.
Qed.

(** A valid frame of full length: offsets 18 and 19 are read. *)
Lemma GLS_run_long (c18 c19 : ascii) (tr : list nat) :
  valid_frame s = true -> (23 <= String.length s)%nat ->
  String.get 18 s = Some c18 -> String.get 19 s = Some c19 ->
  Process_GLS_Response s d tr =
  Some ((true, GLS_store c18 c19 s d),
        (19%nat :: 18%nat :: check_reads s ++ tr)%list).
Proof.
  intros H Hl H18 H19. unfold Process_GLS_Response, strlen. rewrite bind_Check, H.
  destruct (Nat.leb_spec 23 (String.length s)); [|lia].
  unfold Buf.bind at 1. rewrite (peek_run _ _ _ _ H18).
  unfold Buf.bind at 1. rewrite (peek_run _ _ _ _ H19).
  reflexivity.
Qed.

End ProcessorFacts.

Section StoreFacts.

Lemma apply_systemStatus_shape (x : Z) (p : TelescopeProp) :
  exists sl tk pk,
    apply_systemStatus x p =
    mkProp (RightAscension p) (Declination p) sl tk pk (TrackingRate p).
Proof.
  destruct p as [ra de sl tk pk rt]. unfold apply_systemStatus.
  destruct x as [|q|q]; [do 3 eexists; reflexivity | | do 3 eexists; reflexivity].
  destruct q as [[[q|q|]|[q|q|]|]|[[q|q|]|[q|q|]|]|]; do 3 eexists; reflexivity.
Qed.

Lemma apply_systemStatus_other (x : Z) (p : TelescopeProp) :
  x < 0 \/ 7 < x -> apply_systemStatus x p = p.
Proof.
  intros H. unfold apply_systemStatus.
  destruct x as [|q|q]; [lia | | reflexivity].
  destruct q as [[[q|q|]|[q|q|]|]|[[q|q|]|[q|q|]|]|]; try reflexivity; lia.
Qed.

Lemma apply_trackingRate_shape (x : Z) (p : TelescopeProp) :
  exists rt, apply_trackingRate x p = set_TrackingRate rt p.
Proof.
  unfold apply_trackingRate.
  destruct x as [|q|q]; [eexists; reflexivity | | eexists; reflexivity].
  destruct q as [[q|q|]|[q|q|]|]; eexists; reflexivity.
Qed.

Lemma GEP_store_keeps (c0 : ascii) (a b s : string) (d : Driver) :
  same_link d (GEP_store c0 a b s d) /\ same_flags d (GEP_store c0 a b s d).
Proof.
  unfold GEP_store.
  destruct (Qle_bool _ _ && Qle_bool _ _);
    destruct (Qle_bool _ _ && Qlt_bool _ _);
    destruct (strlen s <? 32)%nat; split; repeat split.
Qed.

Lemma GLS_store_keeps (c18 c19 : ascii) (s : string) (d : Driver) :
  same_link d (GLS_store c18 c19 s d) /\ same_position d (GLS_store c18 c19 s d).
Proof.
  unfold GLS_store.
  set (d1 := if (strlen s <? 64)%nat then set_Status_String s d else d).
  assert (E : cTelescopeProp d1 = cTelescopeProp d)
    by (unfold d1; destruct (strlen s <? 64)%nat; reflexivity).
  assert (L : same_link d d1)
    by (unfold d1; destruct (strlen s <? 64)%nat; repeat split).
  destruct (apply_systemStatus_shape (minus_zero c18) (cTelescopeProp d1))
    as [sl [tk [pk E1]]].
  destruct (apply_trackingRate_shape (minus_zero c19)
              (apply_systemStatus (minus_zero c18) (cTelescopeProp d1)))
    as [rt E2].
  split.
  - unfold same_link, with_Prop.
    cbn [cTelescopeProp Connected cTelescopeConnectionOpen cDeviceConnType
         cSocket_desc cDeviceConnFileDesc cTelescopeInfoValid
         cIOptron_CommErrCnt cCmdQueue].
    exact L.
  - unfold same_position, with_Prop. cbn [cTelescopeProp].
    rewrite E2, E1, E. split; reflexivity.
Qed.

Lemma seq_bound (a n m : nat) :
  (a + n <= m)%nat -> Forall (fun i => (i < m)%nat) (rev (seq a n)).
Proof.
  intros H. apply Forall_forall. intros i Hi.
  apply in_rev in Hi. apply in_seq in Hi. lia.
Qed.

(** [Process_GEP_Response] always returns; it reports the validity of the
    terminator, reads inside the frame only, and writes nothing but the
    position and the stored DEC string. *)
Lemma GEP_total (s : string) (d : Driver) (tr : list nat) :
  exists d' new,
    Process_GEP_Response s d tr = Some ((valid_frame s, d'), (new ++ tr)%list) /\
    Forall (fun i => (i < String.length s)%nat) new /\
    same_link d d' /\ same_flags d d' /\
    (valid_frame s = false -> d' = d).
Proof.
  destruct (valid_frame s) eqn:Hv.
  - destruct (Nat.leb_spec 20 (String.length s)) as [Hl | Hl].
    + destruct (get_lt s 0) as [c0 H0]; [lia|].
      exists (GEP_store c0 (substring 1 8 s) (substring 9 9 s) s d),
             (rev (seq 9 9) ++ rev (seq 1 8) ++ 0%nat :: check_reads s)%list.
      rewrite (GEP_run_long s d c0 tr Hv Hl H0).
      destruct (GEP_store_keeps c0 (substring 1 8 s) (substring 9 9 s) s d) as [L F].
      refine (conj eq_refl (conj _ (conj L (conj F _)))); [|discriminate].
      apply Forall_app. split; [apply seq_bound; lia|].
      apply Forall_app. split; [apply seq_bound; lia|].
      constructor; [lia | apply check_reads_bound].
    + exists d, (check_reads s). rewrite (GEP_run_short s d tr Hv Hl).
      refine (conj eq_refl (conj (check_reads_bound s)
               (conj (same_link_refl d) (conj _ _)))); [|discriminate].
      repeat split.
  - exists d, (check_reads s). rewrite (GEP_run_invalid s d tr Hv).
    refine (conj eq_refl (conj (check_reads_bound s)
             (conj (same_link_refl d) (conj _ (fun _ => eq_refl))))).
    repeat split.
Qed.

(** The same for [Process_GLS_Response], which writes nothing but the
    flags, the tracking rate and the stored status string. *)
Lemma GLS_total (s : string) (d : Driver) (tr : list nat) :
  exists d' new,
    Process_GLS_Response s d tr = Some ((valid_frame s, d'), (new ++ tr)%list) /\
    Forall (fun i => (i < String.length s)%nat) new /\
    same_link d d' /\ same_position d d' /\
    (valid_frame s = false -> d' = d).
Proof.
  destruct (valid_frame s) eqn:Hv.
  - destruct (Nat.leb_spec 23 (String.length s)) as [Hl | Hl].
    + destruct (get_lt s 18) as [c18 H18]; [lia|].
      destruct (get_lt s 19) as [c19 H19]; [lia|].
      exists (GLS_store c18 c19 s d), (19%nat :: 18%nat :: check_reads s).
      rewrite (GLS_run_long s d c18 c19 tr Hv Hl H18 H19).
      destruct (GLS_store_keeps c18 c19 s d) as [L P].
      refine (conj eq_refl (conj _ (conj L (conj P _)))); [|discriminate].
      constructor; [lia|]. constructor; [lia|]. apply check_reads_bound.
    + exists d, (check_reads s). rewrite (GLS_run_short s d tr Hv Hl).
      refine (conj eq_refl (conj (check_reads_bound s)
               (conj (same_link_refl d) (conj _ _)))); [|discriminate].
      split; reflexivity.
  - exists d, (check_reads s). rewrite (GLS_run_invalid s d tr Hv).
    refine (conj eq_refl (conj (check_reads_bound s)
             (conj (same_link_refl d) (conj _ (fun _ => eq_refl))))).
    split; reflexivity.
Qed.

End StoreFacts.

Section StoredValues.

Lemma GEP_store_position (c0 : ascii) (a b s : string) (d : Driver) :
  let sign := if Ascii.eqb c0 "-" then -1 else 1 in
  let dec_degrees := fdiv (double_of_Z (atoll a * sign)) (fmul 3600 100) in
  let ra_hours := fdiv (double_of_Z (atoll b)) (fmul (fmul 15 3600) 100) in
  Declination (cTelescopeProp (GEP_store c0 a b s d)) =
    (if Qle_bool (-90) dec_degrees && Qle_bool dec_degrees 90
     then dec_degrees else Declination (cTelescopeProp d)) /\
  RightAscension (cTelescopeProp (GEP_store c0 a b s d)) =
    (if Qle_bool 0 ra_hours && Qlt_bool ra_hours 24
     then ra_hours else RightAscension (cTelescopeProp d)).
Proof.
  intros sign dec_degrees ra_hours. unfold GEP_store.
  fold sign. fold dec_degrees. fold ra_hours.
  destruct (Qle_bool (-90) dec_degrees && Qle_bool dec_degrees 90);
    destruct (Qle_bool 0 ra_hours && Qlt_bool ra_hours 24);
    destruct (strlen s <? 32)%nat; split; reflexivity.
Qed.

Lemma GLS_store_flags (c18 c19 : ascii) (s : string) (d : Driver) :
  let p := apply_systemStatus (minus_zero c18) (cTelescopeProp d) in
  let p' := cTelescopeProp (GLS_store c18 c19 s d) in
  Slewing p' = Slewing p /\ Tracking p' = Tracking p /\ AtPark p' = AtPark p.
Proof.
  intros p p'. unfold p', GLS_store.
  set (d1 := if (strlen s <? 64)%nat then set_Status_String s d else d).
  assert (E : cTelescopeProp d1 = cTelescopeProp d)
    by (unfold d1; destruct (strlen s <? 64)%nat; reflexivity).
  unfold with_Prop. cbn [cTelescopeProp].
  destruct (apply_trackingRate_shape (minus_zero c19)
              (apply_systemStatus (minus_zero c18) (cTelescopeProp d1)))
    as [rt E2].
  rewrite E2, E. repeat split.
Qed.

Lemma in_range_dec (x : Q) :
  Qle_bool (-90) x && Qle_bool x 90 = true <-> (-90 <= x <= 90)%Q.
Proof. rewrite andb_true_iff, !Qle_bool_iff. tauto. Qed.

Lemma in_range_ra (x : Q) :
  Qle_bool 0 x && Qlt_bool x 24 = true <-> (0 <= x /\ x < 24)%Q.
Proof. rewrite andb_true_iff, Qle_bool_iff, Qlt_bool_iff. tauto. Qed.

(** The two divisors are exact. *)
Lemma divisor_dec : fmul 3600 100 = 360000%Q.
Proof. vm_compute. reflexivity. Qed.

Lemma divisor_ra : fmul (fmul 15 3600) 100 = 5400000%Q.
Proof. vm_compute. reflexivity. Qed.

(** The quotients of [Process_GEP_Response] for a count that a [double]
    holds exactly. *)
Lemma GEP_dec_value (n : Z) :
  Z.abs n <= 2 ^ 53 ->
  fdiv (double_of_Z n) (fmul 3600 100) = round64 (inject_Z n / 360000).
Proof.
  intros H. unfold fdiv, double_of_Z. now rewrite divisor_dec, round64_Z.
Qed.

Lemma GEP_ra_value (n : Z) :
  Z.abs n <= 2 ^ 53 ->
  fdiv (double_of_Z n) (fmul (fmul 15 3600) 100) = round64 (inject_Z n / 5400000).
Proof.
  intros H. unfold fdiv, double_of_Z. now rewrite divisor_ra, round64_Z.
Qed.

Open Scope Q_scope.

(** Rounding the quotient does not move it across a bound of the range
    tests: the bounds are binary64 numbers, and a count beyond a bound is
    a whole unit beyond it. *)
Lemma dec_gate_exact (n : Z) :
  -90 <= round64 (inject_Z n / 360000) <= 90 <-> -90 <= inject_Z n / 360000 <= 90.
Proof.
  assert (E : inject_Z n / 360000 == inject_Z n * (1 # 360000)) by field.
  assert (B90 : binary64 90) by (apply (binary64_Z 90); vm_compute; discriminate).
  assert (Bm90 : binary64 (-90)) by (apply (binary64_Z (-90)); vm_compute; discriminate).
  assert (Bhi : binary64 (47185921 # 524288)).
  { exists 47185921%Z, (-19)%Z. split; [vm_compute; discriminate|].
    split; [lia | reflexivity]. }
  assert (Blo : binary64 (- 47185921 # 524288)).
  { exists (-47185921)%Z, (-19)%Z. split; [vm_compute; discriminate|].
    split; [lia | reflexivity]. }
  set (x := inject_Z n / 360000) in *.
  split; intros [H1 H2].
  - split.
    + destruct (Z_le_gt_dec (-32400000) n) as [L | L].
      * rewrite Zle_Qle in L. inject_consts. lra.
      * assert (L' : (n <= -32400001)%Z) by lia. rewrite Zle_Qle in L'.
        inject_consts.
        assert (X : x <= - 47185921 # 524288) by lra.
        pose proof (round64_le _ _ Blo X). lra.
    + destruct (Z_le_gt_dec n 32400000) as [L | L].
      * rewrite Zle_Qle in L. inject_consts. lra.
      * assert (L' : (32400001 <= n)%Z) by lia. rewrite Zle_Qle in L'.
        inject_consts.
        assert (X : 47185921 # 524288 <= x) by lra.
        pose proof (round64_ge _ _ Bhi X). lra.
  - split; [apply round64_ge | apply round64_le]; assumption.
Qed.

Lemma ra_gate_exact (n : Z) :
  0 <= round64 (inject_Z n / 5400000) < 24 <-> 0 <= inject_Z n / 5400000 < 24.
Proof.
  assert (E : inject_Z n / 5400000 == inject_Z n * (1 # 5400000)) by field.
  assert (B0 : binary64 0) by exact binary64_0.
  assert (B24 : binary64 24) by (apply (binary64_Z 24); vm_compute; discriminate).
  assert (Bhi : binary64 (201326591 # 8388608)).
  { exists 201326591%Z, (-23)%Z. split; [vm_compute; discriminate|].
    split; [lia | reflexivity]. }
  assert (Blo : binary64 (- 1 # 8388608)).
  { exists (-1)%Z, (-23)%Z. split; [vm_compute; discriminate|].
    split; [lia | reflexivity]. }
  set (x := inject_Z n / 5400000) in *.
  split; intros [H1 H2].
  - split.
    + destruct (Z_le_gt_dec 0 n) as [L | L].
      * rewrite Zle_Qle in L. inject_consts. lra.
      * assert (L' : (n <= -1)%Z) by lia. rewrite Zle_Qle in L'.
        inject_consts.
        assert (X : x <= - 1 # 8388608) by lra.
        pose proof (round64_le _ _ Blo X). lra.
    + destruct (Z_le_gt_dec 129600000 n) as [L | L].
      * rewrite Zle_Qle in L. inject_consts.
        assert (X : 24 <= x) by lra.
        pose proof (round64_ge _ _ B24 X). lra.
      * assert (L' : (n <= 129599999)%Z) by lia. rewrite Zle_Qle in L'.
        inject_consts. lra.
  - split; [now apply round64_ge|].
    destruct (Z_le_gt_dec 129600000 n) as [L | L].
    + rewrite Zle_Qle in L. inject_consts. lra.
    + assert (L' : (n <= 129599999)%Z) by lia. rewrite Zle_Qle in L'.
      inject_consts.
      assert (X : x <= 201326591 # 8388608) by lra.
      pose proof (round64_le _ _ Bhi X). lra.
Qed.

End StoredValues.

(** A frame that ends with ['#'], has at least 20 bytes and decimal digits
    at offsets 1-8 and 9-17 decodes to the doubles
    [dec = sign * digits8 / 360000.0] and [ra = digits9 / 5400000.0].  The
    declination is stored when it lies in [-90, 90] and the right ascension
    when it lies in [0, 24); a value outside its range is dropped. *)
Lemma GEP_decode_fields (s : string) (d : Driver) (c0 : ascii) :
  hash_terminated s ->
  (20 <= String.length s)%nat ->
  String.get 0 s = Some c0 ->
  all_digits (substring 1 8 s) = true ->
  all_digits (substring 9 9 s) = true ->
  let sign := if Ascii.eqb c0 "-" then -1 else 1 in
  let dec_degrees :=
    round64 (inject_Z (sign * decimal_value (substring 1 8 s)) / 360000) in
  let ra_hours :=
    round64 (inject_Z (decimal_value (substring 9 9 s)) / 5400000) in
  exists d',
    result (Process_GEP_Response s d) = Some (true, d') /\
    ((-90 <= dec_degrees <= 90)%Q ->
       (Declination (cTelescopeProp d') == dec_degrees)%Q) /\
    (~ (-90 <= dec_degrees <= 90)%Q ->
       Declination (cTelescopeProp d') = Declination (cTelescopeProp d)) /\
    ((0 <= ra_hours /\ ra_hours < 24)%Q ->
       (RightAscension (cTelescopeProp d') == ra_hours)%Q) /\
    (~ (0 <= ra_hours /\ ra_hours < 24)%Q ->
       RightAscension (cTelescopeProp d') = RightAscension (cTelescopeProp d)).
Proof.
  intros Hh Hl H0 Hd8 Hd9 sign dec_degrees ra_hours.
  apply valid_frame_iff in Hh.
  exists (GEP_store c0 (substring 1 8 s) (substring 9 9 s) s d). split.
  { unfold result, Buf.run. now rewrite (GEP_run_long s d c0 [] Hh Hl H0). }
  destruct (GEP_store_position c0 (substring 1 8 s) (substring 9 9 s) s d)
    as [ED ER].
  rewrite ED, ER.
  rewrite (atoll_digits (substring 1 8 s)) by
    (auto; rewrite substring_length; lia).
  rewrite (atoll_digits (substring 9 9 s)) by
    (auto; rewrite substring_length; lia).
  rewrite (Z.mul_comm (decimal_value (substring 1 8 s))).
  pose proof (decimal_value_bound (substring 1 8 s) Hd8) as [B8 B8'].
  pose proof (decimal_value_bound (substring 9 9 s) Hd9) as [B9 B9'].
  assert (L8 : (String.length (substring 1 8 s) <= 8)%nat)
    by (rewrite substring_length; lia).
  assert (L9 : (String.length (substring 9 9 s) <= 9)%nat)
    by (rewrite substring_length; lia).
  pose proof (pow10_le _ _ L8) as P8. pose proof (pow10_le _ _ L9) as P9.
  change (10 ^ Z.of_nat 8)%Z with 100000000%Z in P8.
  change (10 ^ Z.of_nat 9)%Z with 1000000000%Z in P9.
  rewrite GEP_dec_value
    by (change (2 ^ 53)%Z with 9007199254740992%Z;
        destruct (Ascii.eqb c0 "-"); lia).
  rewrite GEP_ra_value by (change (2 ^ 53)%Z with 9007199254740992%Z; lia).
  fold sign. fold dec_degrees. fold ra_hours.
  repeat split.
  - intros H. apply in_range_dec in H. rewrite H. reflexivity.
  - intros H. destruct (Qle_bool (-90) dec_degrees && Qle_bool dec_degrees 90) eqn:E;
      [|reflexivity]. apply in_range_dec in E. contradiction.
  - intros H. apply in_range_ra in H. rewrite H. reflexivity.
  - intros H. destruct (Qle_bool 0 ra_hours && Qlt_bool ra_hours 24) eqn:E;
      [|reflexivity]. apply in_range_ra in E. contradiction.
Qed.

(** * The claims *)

(** C1.  A position frame that ends with ['#'], has at least 20 bytes, a
    sign at offset 0 and decimal digits at offsets 1-8 and 9-17 decodes to
    [dec = sign * digits8 / 360000] degrees and [ra = digits9 / 5400000]
    hours, each quotient rounded to a [double].  The declination is stored
    when it lies in [-90, 90] and the right ascension when it lies in
    [0, 24); a value outside its range is dropped: the field keeps the
    value it had, it is not clamped.  Rounding does not change the outcome
    of either range test: each holds of the double exactly when it holds of
    the quotient itself. *)
Theorem C1_GEP_decode (s : string) (d : Driver) (c0 : ascii) :
  hash_terminated s ->
  (20 <= String.length s)%nat ->
  String.get 0 s = Some c0 ->
  (c0 = "+"%char \/ c0 = "-"%char) ->
  all_digits (substring 1 8 s) = true ->
  all_digits (substring 9 9 s) = true ->
  let sign := if Ascii.eqb c0 "-" then -1 else 1 in
  let dec_exact := (inject_Z (sign * decimal_value (substring 1 8 s)) / 360000)%Q in
  let ra_exact := (inject_Z (decimal_value (substring 9 9 s)) / 5400000)%Q in
  let dec_degrees := round64 dec_exact in
  let ra_hours := round64 ra_exact in
  (exists d',
     result (Process_GEP_Response s d) = Some (true, d') /\
     ((-90 <= dec_degrees <= 90)%Q ->
        (Declination (cTelescopeProp d') == dec_degrees)%Q) /\
     (~ (-90 <= dec_degrees <= 90)%Q ->
        Declination (cTelescopeProp d') = Declination (cTelescopeProp d)) /\
     ((0 <= ra_hours /\ ra_hours < 24)%Q ->
        (RightAscension (cTelescopeProp d') == ra_hours)%Q) /\
     (~ (0 <= ra_hours /\ ra_hours < 24)%Q ->
        RightAscension (cTelescopeProp d') = RightAscension (cTelescopeProp d))) /\
  ((-90 <= dec_degrees <= 90)%Q <-> (-90 <= dec_exact <= 90)%Q) /\
  ((0 <= ra_hours /\ ra_hours < 24)%Q <-> (0 <= ra_exact /\ ra_exact < 24)%Q).
Proof.
  intros Hh Hl H0 _ Hd8 Hd9. cbv zeta.
  split; [exact (GEP_decode_fields s d c0 Hh Hl H0 Hd8 Hd9)|].
  split; [apply dec_gate_exact | apply ra_gate_exact].
Qed.

(** C1 at the frame [-12345678123456789 01#]: the declination is the
    double of -12345678/360000 and the right ascension the double of
    123456789/5400000. *)
Lemma C1_GEP_decode_witness :
  exists d',
    result (Process_GEP_Response "-1234567812345678901#" driver0) = Some (true, d') /\
    (Declination (cTelescopeProp d') == round64 (inject_Z (-12345678) / 360000))%Q /\
    (RightAscension (cTelescopeProp d') == round64 (inject_Z 123456789 / 5400000))%Q.
Proof.
  destruct (C1_GEP_decode "-1234567812345678901#" driver0 "-"%char)
    as [[d' [R [D [_ [A _]]]]] _].
  - exists "-1234567812345678901". reflexivity.
  - simpl. lia.
  - reflexivity.
  - right. reflexivity.
  - reflexivity.
  - reflexivity.
  - exists d'. split; [exact R|]. split.
    + apply D. split; vm_compute; discriminate.
    + apply A. split; [vm_compute; discriminate | vm_compute; reflexivity].
Defined.

(** C2.  For a status frame that ends with ['#'] and has at least 23 bytes,
    the byte at offset 18 sets (slewing, tracking) as the table says, code 6
    also sets at-park, every other code leaves at-park alone, and a byte
    outside ['0']-['7'] leaves the three flags as they were. *)
Theorem C2_GLS_status_flags (s : string) (d : Driver) (c18 : ascii) :
  hash_terminated s ->
  (23 <= String.length s)%nat ->
  String.get 18 s = Some c18 ->
  exists d',
    result (Process_GLS_Response s d) = Some (true, d') /\
    let p := cTelescopeProp d in
    let p' := cTelescopeProp d' in
    (c18 = "0"%char ->
       Slewing p' = false /\ Tracking p' = false /\ AtPark p' = AtPark p) /\
    (c18 = "1"%char ->
       Slewing p' = false /\ Tracking p' = true /\ AtPark p' = AtPark p) /\
    (c18 = "2"%char ->
       Slewing p' = true /\ Tracking p' = false /\ AtPark p' = AtPark p) /\
    (c18 = "3"%char ->
       Slewing p' = false /\ Tracking p' = true /\ AtPark p' = AtPark p) /\
    (c18 = "4"%char ->
       Slewing p' = true /\ Tracking p' = false /\ AtPark p' = AtPark p) /\
    (c18 = "5"%char ->
       Slewing p' = false /\ Tracking p' = true /\ AtPark p' = AtPark p) /\
    (c18 = "6"%char ->
       Slewing p' = false /\ Tracking p' = false /\ AtPark p' = true) /\
    (c18 = "7"%char ->
       Slewing p' = false /\ Tracking p' = false /\ AtPark p' = AtPark p) /\
    ((nat_of_ascii c18 < 48 \/ 55 < nat_of_ascii c18)%nat ->
       Slewing p' = Slewing p /\ Tracking p' = Tracking p /\ AtPark p' = AtPark p).
Proof.
  intros Hh Hl H18. apply valid_frame_iff in Hh.
  destruct (get_lt s 19) as [c19 H19]; [lia|].
  exists (GLS_store c18 c19 s d). split.
  { unfold result, Buf.run. now rewrite (GLS_run_long s d c18 c19 [] Hh Hl H18 H19). }
  intros p p'.
  destruct (GLS_store_flags c18 c19 s d) as [ES [ET EP]].
  fold p' in ES, ET, EP. rewrite ES, ET, EP. fold p.
  repeat match goal with |- _ /\ _ => split end;
    try (intros ->; repeat split; reflexivity).
  intros H. rewrite apply_systemStatus_other; [repeat split|].
  unfold minus_zero. lia.
Qed.

(** C2 at a frame whose offset 18 holds ['6'], from a driver that was
    slewing and tracking: parked, neither slewing nor tracking. *)
Lemma C2_GLS_status_flags_witness :
  exists d',
    result (Process_GLS_Response "+1234567890123456761511#"
              (with_Prop (set_Tracking true) (with_Prop (set_Slewing true) driver0)))
      = Some (true, d') /\
    Slewing (cTelescopeProp d') = false /\
    Tracking (cTelescopeProp d') = false /\
    AtPark (cTelescopeProp d') = true.
Proof.
  destruct (C2_GLS_status_flags "+1234567890123456761511#"
              (with_Prop (set_Tracking true) (with_Prop (set_Slewing true) driver0))
              "6"%char)
    as [d' [R [_ [_ [_ [_ [_ [_ [P _]]]]]]]]].
  - exists "+1234567890123456761511". reflexivity.
  - simpl. lia.
  - reflexivity.
  - exists d'. split; [exact R|]. apply P. reflexivity.
Defined.

(** C3.  The validity check accepts a string exactly when it is some bytes
    followed by ['#'] (so: non-empty, last byte ['#']).  When it does not,
    the generic processor and the RA, DEC, GEP and GLS processors all report
    the frame invalid and return the driver as they received it. *)
Theorem C3_validity_gate (s : string) (d : Driver) :
  (result (CheckForValidResponse s) = Some true <-> hash_terminated s) /\
  (~ hash_terminated s ->
     result (CheckForValidResponse s) = Some false /\
     result (Process_iOptronResponse s d) = Some (false, d) /\
     result (Process_RA_Response s d) = Some (false, d) /\
     result (Process_DEC_Response s d) = Some (false, d) /\
     result (Process_GEP_Response s d) = Some (false, d) /\
     result (Process_GLS_Response s d) = Some (false, d)).
Proof.
  split.
  - unfold result, Buf.run. rewrite Check_run. cbn [option_map fst].
    rewrite <- valid_frame_iff. split; [now intros [= ->] | now intros ->].
  - intros Hn.
    assert (Hv : valid_frame s = false).
    { destruct (valid_frame s) eqn:E; [|reflexivity].
      apply valid_frame_iff in E. contradiction. }
    unfold result, Buf.run.
    rewrite Check_run, dispatch_run_invalid, RA_run_invalid, DEC_run_invalid,
      GEP_run_invalid, GLS_run_invalid by exact Hv.
    rewrite Hv. repeat split.
Qed.

(** C3 at the frame [1234], which lacks the terminator. *)
Lemma C3_validity_gate_witness :
  result (CheckForValidResponse "1234") = Some false /\
  result (Process_iOptronResponse "1234" driver0) = Some (false, driver0) /\
  result (Process_RA_Response "1234" driver0) = Some (false, driver0) /\
  result (Process_DEC_Response "1234" driver0) = Some (false, driver0) /\
  result (Process_GEP_Response "1234" driver0) = Some (false, driver0) /\
  result (Process_GLS_Response "1234" driver0) = Some (false, driver0).
Proof.
  apply (proj2 (C3_validity_gate "1234" driver0)).
  intros [p H].
  destruct p as [|a [|b [|c [|e p]]]]; try discriminate H.
  destruct p; discriminate H.
Defined.

(** C4, as the code has it.  On a frame that ends with ['#'] but has fewer
    than 20 bytes the GEP decoder decodes nothing: it returns without
    failing on an out-of-bounds read, every offset it read lies inside the
    frame, and the driver is returned as it was.  The value it returns is
    true, the outcome of the validity check: no processor reports a frame
    invalid for its length or its content.  The same holds for the GLS
    decoder below 23 bytes. *)
Theorem C4_short_frames_safe (s : string) (d : Driver) :
  hash_terminated s ->
  ((String.length s < 20)%nat ->
     exists offsets,
       Buf.run (Process_GEP_Response s d) = Some ((true, d), offsets) /\
       Forall (fun i => (i < String.length s)%nat) offsets) /\
  ((String.length s < 23)%nat ->
     exists offsets,
       Buf.run (Process_GLS_Response s d) = Some ((true, d), offsets) /\
       Forall (fun i => (i < String.length s)%nat) offsets).
Proof.
  intros Hh. apply valid_frame_iff in Hh. split; intros Hl.
  - exists (check_reads s). unfold Buf.run.
    rewrite (GEP_run_short s d [] Hh Hl), app_nil_r.
    split; [reflexivity | apply check_reads_bound].
  - exists (check_reads s). unfold Buf.run.
    rewrite (GLS_run_short s d [] Hh Hl), app_nil_r.
    split; [reflexivity | apply check_reads_bound].
Qed.

(** C4 at the truncated frame [+1234567#]: only offset 8, the last byte,
    is read by either decoder. *)
Lemma C4_short_frames_safe_witness :
  (exists offsets,
     Buf.run (Process_GEP_Response "+1234567#" driver0) = Some ((true, driver0), offsets) /\
     Forall (fun i => (i < 9)%nat) offsets) /\
  (exists offsets,
     Buf.run (Process_GLS_Response "+1234567#" driver0) = Some ((true, driver0), offsets) /\
     Forall (fun i => (i < 9)%nat) offsets).
Proof.
  assert (H : hash_terminated "+1234567#") by (exists "+1234567"; reflexivity).
  destruct (C4_short_frames_safe "+1234567#" driver0 H) as [G L].
  split; [apply G | apply L]; simpl; lia.
Defined.

(** C4 as stated fails on the truncated frame [+1234567#]: neither decoder
    rejects it, both report it valid. *)
Lemma C4_counterexample :
  ~ (exists d', result (Process_GEP_Response "+1234567#" driver0) = Some (false, d')) /\
  ~ (exists d', result (Process_GLS_Response "+1234567#" driver0) = Some (false, d')).
Proof.
  split; intros [d' H]; vm_compute in H; discriminate H.
Qed.

(** Beyond C4: on every string, of any length and content, the two
    fixed-width decoders return and read inside the frame only. *)
Lemma fixed_width_decoders_in_bounds (s : string) (d : Driver) :
  (exists r offsets,
     Buf.run (Process_GEP_Response s d) = Some (r, offsets) /\
     Forall (fun i => (i < String.length s)%nat) offsets) /\
  (exists r offsets,
     Buf.run (Process_GLS_Response s d) = Some (r, offsets) /\
     Forall (fun i => (i < String.length s)%nat) offsets).
Proof.
  split.
  - destruct (GEP_total s d []) as [d' [new [E [F _]]]].
    exists (valid_frame s, d'), new. unfold Buf.run.
    rewrite E, app_nil_r. split; [reflexivity | exact F].
  - destruct (GLS_total s d []) as [d' [new [E [F _]]]].
    exists (valid_frame s, d'), new. unfold Buf.run.
    rewrite E, app_nil_r. split; [reflexivity | exact F].
Qed.

Section QueueFacts.

Lemma AddCmdToQueue_open (c : string) (d : Driver) :
  cTelescopeConnectionOpen d = true ->
  AddCmdToQueue c d = set_CmdQueue (cCmdQueue d ++ [c])%list d.
Proof. intros H. unfold AddCmdToQueue. now rewrite H. Qed.

Lemma enqueue_three (a b c : string) (d : Driver) :
  cTelescopeConnectionOpen d = true ->
  cCmdQueue (AddCmdToQueue c (AddCmdToQueue b (AddCmdToQueue a d))) =
  (cCmdQueue d ++ [a; b; c])%list.
Proof.
  intros H.
  rewrite (AddCmdToQueue_open a d H).
  rewrite (AddCmdToQueue_open b) by exact H.
  rewrite (AddCmdToQueue_open c) by exact H.
  cbn [set_CmdQueue cCmdQueue]. rewrite <- !app_assoc. reflexivity.
Qed.

Lemma slew_open (ra dec : Q) (d : Driver) :
  Connected d = true -> cTelescopeConnectionOpen d = true ->
  fst (Telescope_SlewToRA_DEC ra dec d) = kASCOM_Err_Success /\
  cCmdQueue (snd (Telescope_SlewToRA_DEC ra dec d)) =
    (cCmdQueue d ++ [SRA_command ra; Sds_command dec; ":MS1#"])%list.
Proof.
  intros Hc Ho. unfold Telescope_SlewToRA_DEC. rewrite Hc, Ho.
  cbn [negb fst snd]. split; [reflexivity|].
  unfold with_Prop. cbn [cCmdQueue]. now apply enqueue_three.
Qed.

Lemma sync_open (ra dec : Q) (d : Driver) :
  Connected d = true -> cTelescopeConnectionOpen d = true ->
  fst (Telescope_SyncToRA_DEC ra dec d) = kASCOM_Err_Success /\
  cCmdQueue (snd (Telescope_SyncToRA_DEC ra dec d)) =
    (cCmdQueue d ++ [SRA_command ra; Sds_command dec; ":CM#"])%list.
Proof.
  intros Hc Ho. unfold Telescope_SyncToRA_DEC. rewrite Hc, Ho.
  cbn [negb fst snd]. split; [reflexivity|]. now apply enqueue_three.
Qed.

End QueueFacts.

Section ConversionFacts.

Open Scope Q_scope.

(** The conversion of a double to [int64_t]: the integer part where it
    fits, [INT64_MIN] where it does not. *)
Lemma double_to_int64_cases (x : Q) :
  let t := double_to_int64 x in
  (9223372036854775808 <= x -> t = INT64_MIN) /\
  (0 <= x < 9223372036854775808 -> inject_Z t <= x < inject_Z t + 1) /\
  (-9223372036854775808 < x <= 0 -> inject_Z t - 1 < x <= inject_Z t) /\
  (x <= -9223372036854775808 -> t = INT64_MIN).
Proof.
  intros t. unfold t, double_to_int64.
  destruct (trunc_spec x) as [P N].
  set (z := (Qnum x ÷ Z.pos (Qden x))%Z) in *.
  unfold INT64_MIN, INT64_MAX.
  change (- 2 ^ 63)%Z with (-9223372036854775808)%Z.
  change (2 ^ 63 - 1)%Z with 9223372036854775807%Z.
  repeat split.
  - intros H. destruct P as [P1 P2]; [lra|].
    assert (L : (9223372036854775807 < z)%Z).
    { rewrite Zlt_Qlt. rewrite <- (Qplus_lt_l _ _ 1).
      inject_consts. lra. }
    destruct (Z.leb_spec (-9223372036854775808) z);
      destruct (Z.leb_spec z 9223372036854775807); cbn [andb]; try reflexivity; lia.
  - destruct H as [H1 H2]. destruct P as [P1 P2]; [lra|].
    assert (L : (z < 9223372036854775808)%Z)
      by (rewrite Zlt_Qlt; inject_consts; lra).
    assert (L0 : (-1 < z)%Z).
    { rewrite Zlt_Qlt. rewrite <- (Qplus_lt_l _ _ 1). inject_consts. lra. }
    destruct (Z.leb_spec (-9223372036854775808) z);
      destruct (Z.leb_spec z 9223372036854775807); cbn [andb]; try lia. exact P1.
  - destruct H as [H1 H2]. destruct P as [P1 P2]; [lra|].
    assert (L : (z < 9223372036854775808)%Z)
      by (rewrite Zlt_Qlt; inject_consts; lra).
    assert (L0 : (-1 < z)%Z).
    { rewrite Zlt_Qlt. rewrite <- (Qplus_lt_l _ _ 1). inject_consts. lra. }
    destruct (Z.leb_spec (-9223372036854775808) z);
      destruct (Z.leb_spec z 9223372036854775807); cbn [andb]; try lia. exact P2.
  - destruct H as [H1 H2]. destruct N as [N1 N2]; [lra|].
    assert (L : (-9223372036854775808 < z)%Z)
      by (rewrite Zlt_Qlt; inject_consts; lra).
    assert (L0 : (z < 1)%Z).
    { rewrite Zlt_Qlt. rewrite <- (Qplus_lt_l _ _ (-1)). inject_consts. lra. }
    destruct (Z.leb_spec (-9223372036854775808) z);
      destruct (Z.leb_spec z 9223372036854775807); cbn [andb]; try lia.
    lra.
  - destruct H as [H1 H2]. destruct N as [N1 N2]; [lra|].
    assert (L : (-9223372036854775808 < z)%Z)
      by (rewrite Zlt_Qlt; inject_consts; lra).
    assert (L0 : (z < 1)%Z).
    { rewrite Zlt_Qlt. rewrite <- (Qplus_lt_l _ _ (-1)). inject_consts. lra. }
    destruct (Z.leb_spec (-9223372036854775808) z);
      destruct (Z.leb_spec z 9223372036854775807); cbn [andb]; try lia.
    exact N2.
  - intros H. destruct N as [N1 N2]; [lra|].
    assert (L : (z < -9223372036854775807)%Z).
    { rewrite Zlt_Qlt. rewrite <- (Qplus_lt_l _ _ (-1)). inject_consts. lra. }
    destruct (Z.leb_spec (-9223372036854775808) z);
      destruct (Z.leb_spec z 9223372036854775807); cbn [andb]; try reflexivity; lia.
Qed.

(** The value the RA encoder prints, by the size of the double product. *)
Lemma ra_value_cases (p : Q) :
  let v := clamp 0 129600000 (double_to_int64 p) in
  (p < 0 -> v = 0%Z) /\
  (0 <= p < 129600000 -> inject_Z v <= p < inject_Z v + 1) /\
  (129600000 <= p < 9223372036854775808 -> v = 129600000%Z) /\
  (9223372036854775808 <= p -> v = 0%Z).
Proof.
  intros v. unfold v.
  destruct (double_to_int64_cases p) as [C1 [C2 [C3 C4]]].
  set (t := double_to_int64 p) in *. unfold clamp.
  repeat split.
  - intros H.
    assert (L : (t < 1)%Z).
    { destruct (Qlt_le_dec (-9223372036854775808) p) as [G | G].
      - destruct C3 as [A B]; [lra|].
        rewrite Zlt_Qlt. rewrite <- (Qplus_lt_l _ _ (-1)). inject_consts. lra.
      - rewrite (C4 G). reflexivity. }
    destruct (Z.ltb_spec t 0); [reflexivity|].
    destruct (Z.ltb_spec 129600000 t); lia.
  - destruct C2 as [A B]; [lra|]. destruct H as [H1 H2].
    assert (L : (-1 < t < 129600000)%Z).
    { split; rewrite Zlt_Qlt.
      - rewrite <- (Qplus_lt_l _ _ 1). inject_consts. lra.
      - inject_consts. lra. }
    destruct (Z.ltb_spec t 0); [lia|].
    destruct (Z.ltb_spec 129600000 t); [lia | exact A].
  - destruct C2 as [A B]; [lra|]. destruct H as [H1 H2].
    assert (L : (-1 < t < 129600000)%Z).
    { split; rewrite Zlt_Qlt.
      - rewrite <- (Qplus_lt_l _ _ 1). inject_consts. lra.
      - inject_consts. lra. }
    destruct (Z.ltb_spec t 0); [lia|].
    destruct (Z.ltb_spec 129600000 t); [lia | exact B].
  - intros [H1 H2]. destruct C2 as [A B]; [lra|].
    assert (L : (129599999 < t)%Z).
    { rewrite Zlt_Qlt. rewrite <- (Qplus_lt_l _ _ 1). inject_consts. lra. }
    destruct (Z.ltb_spec t 0); [lia|].
    destruct (Z.ltb_spec 129600000 t); lia.
  - intros H. rewrite (C1 H). reflexivity.
Qed.

(** The value the Dec encoder prints, by the size of the double product. *)
Lemma dec_value_cases (q : Q) :
  let v := clamp (-32400000) 32400000 (double_to_int64 q) in
  (q <= -32400000 -> v = (-32400000)%Z) /\
  (-32400000 < q <= 0 -> inject_Z v - 1 < q <= inject_Z v) /\
  (0 <= q < 32400000 -> inject_Z v <= q < inject_Z v + 1) /\
  (32400000 <= q < 9223372036854775808 -> v = 32400000%Z) /\
  (9223372036854775808 <= q -> v = (-32400000)%Z).
Proof.
  intros v. unfold v.
  destruct (double_to_int64_cases q) as [C1 [C2 [C3 C4]]].
  set (t := double_to_int64 q) in *. unfold clamp.
  repeat split.
  - intros H.
    assert (L : (t < -32399999)%Z).
    { destruct (Qlt_le_dec (-9223372036854775808) q) as [G | G].
      - destruct C3 as [A B]; [lra|].
        rewrite Zlt_Qlt. rewrite <- (Qplus_lt_l _ _ (-1)). inject_consts. lra.
      - rewrite (C4 G). reflexivity. }
    destruct (Z.ltb_spec t (-32400000)); [reflexivity|].
    destruct (Z.ltb_spec 32400000 t); lia.
  - destruct H as [H1 H2]. destruct C3 as [A B]; [lra|].
    assert (L : (-32400000 <= t < 1)%Z).
    { split; [rewrite Zle_Qle | rewrite Zlt_Qlt].
      - inject_consts. lra.
      - rewrite <- (Qplus_lt_l _ _ (-1)). inject_consts. lra. }
    destruct (Z.ltb_spec t (-32400000)); [lia|].
    destruct (Z.ltb_spec 32400000 t); [lia | exact A].
  - destruct H as [H1 H2]. destruct C3 as [A B]; [lra|].
    assert (L : (-32400000 <= t < 1)%Z).
    { split; [rewrite Zle_Qle | rewrite Zlt_Qlt].
      - inject_consts. lra.
      - rewrite <- (Qplus_lt_l _ _ (-1)). inject_consts. lra. }
    destruct (Z.ltb_spec t (-32400000)); [lia|].
    destruct (Z.ltb_spec 32400000 t); [lia | exact B].
  - destruct H as [H1 H2]. destruct C2 as [A B]; [lra|].
    assert (L : (-1 < t < 32400000)%Z).
    { split; rewrite Zlt_Qlt.
      - rewrite <- (Qplus_lt_l _ _ 1). inject_consts. lra.
      - inject_consts. lra. }
    destruct (Z.ltb_spec t (-32400000)); [lia|].
    destruct (Z.ltb_spec 32400000 t); [lia | exact A].
  - destruct H as [H1 H2]. destruct C2 as [A B]; [lra|].
    assert (L : (-1 < t < 32400000)%Z).
    { split; rewrite Zlt_Qlt.
      - rewrite <- (Qplus_lt_l _ _ 1). inject_consts. lra.
      - inject_consts. lra. }
    destruct (Z.ltb_spec t (-32400000)); [lia|].
    destruct (Z.ltb_spec 32400000 t); [lia | exact B].
  - intros [H1 H2]. destruct C2 as [A B]; [lra|].
    assert (L : (32399999 < t)%Z).
    { rewrite Zlt_Qlt. rewrite <- (Qplus_lt_l _ _ 1). inject_consts. lra. }
    destruct (Z.ltb_spec t (-32400000)); [lia|].
    destruct (Z.ltb_spec 32400000 t); lia.
  - intros H. rewrite (C1 H). reflexivity.
Qed.

End ConversionFacts.

(** C7, the part the code satisfies and the part it misses.  On an open
    connection slew-to-coordinates and sync-to-coordinates succeed for every
    pair of finite coordinates and enqueue [:SRA], nine decimal digits,
    ['#'] and [:Sds], a sign, eight decimal digits, ['#'].  With
    [p = hours * 15.0 * 3600.0 * 100.0] and [q = degrees * 3600.0 * 100.0]
    the double products, the RA digits are the integer part of [p] for
    [0 <= p < 129600000], 0 for [p < 0] and 129600000 from there up to
    [2 ^ 63]; the Dec field is the integer part of [q] (toward zero)
    between the bounds, -32400000 below and 32400000 from there up to
    [2 ^ 63].  But from [2 ^ 63] on the conversion to [int64_t] does not fit
    and yields [INT64_MIN]: the RA field is then 0 and the Dec field
    -32400000, the lower bounds, not the upper ones. *)
Theorem C7_coordinate_commands (ra dec : Q) (d : Driver) :
  finite_double ra -> finite_double dec ->
  Connected d = true ->
  cTelescopeConnectionOpen d = true ->
  let p := ra_scaled ra in
  let q := dec_scaled dec in
  exists (ra_val dec_val : Z) (ra9 : string) (sgn : ascii) (dec8 : string),
    (String.length ra9 = 9%nat /\ all_digits ra9 = true /\
     decimal_value ra9 = ra_val) /\
    (String.length dec8 = 8%nat /\ all_digits dec8 = true /\
     ((sgn = "+"%char /\ 0 <= dec_val /\ decimal_value dec8 = dec_val) \/
      (sgn = "-"%char /\ dec_val < 0 /\ decimal_value dec8 = - dec_val))) /\
    (fst (Telescope_SlewToRA_DEC ra dec d) = kASCOM_Err_Success /\
     cCmdQueue (snd (Telescope_SlewToRA_DEC ra dec d)) =
       (cCmdQueue d ++
          [(":SRA" ++ ra9 ++ "#")%string; (":Sds" ++ String sgn dec8 ++ "#")%string;
           ":MS1#"])%list /\
     fst (Telescope_SyncToRA_DEC ra dec d) = kASCOM_Err_Success /\
     cCmdQueue (snd (Telescope_SyncToRA_DEC ra dec d)) =
       (cCmdQueue d ++
          [(":SRA" ++ ra9 ++ "#")%string; (":Sds" ++ String sgn dec8 ++ "#")%string;
           ":CM#"])%list) /\
    (((p < 0)%Q -> ra_val = 0) /\
     ((0 <= p < 129600000)%Q ->
        (inject_Z ra_val <= p < inject_Z ra_val + 1)%Q) /\
     ((129600000 <= p < 9223372036854775808)%Q -> ra_val = 129600000) /\
     ((9223372036854775808 <= p)%Q -> ra_val = 0)) /\
    (((q <= -32400000)%Q -> dec_val = -32400000) /\
     ((-32400000 < q <= 0)%Q ->
        (inject_Z dec_val - 1 < q <= inject_Z dec_val)%Q) /\
     ((0 <= q < 32400000)%Q ->
        (inject_Z dec_val <= q < inject_Z dec_val + 1)%Q) /\
     ((32400000 <= q < 9223372036854775808)%Q -> dec_val = 32400000) /\
     ((9223372036854775808 <= q)%Q -> dec_val = -32400000)).
Proof.
  intros _ _ Hc Ho p q.
  destruct (SRA_command_field ra) as [ra9 [ER [Hl9 [Hd9 Hv9]]]].
  destruct (Sds_command_field dec) as [sgn [dec8 [ED [Hl8 [Hd8 Hv8]]]]].
  destruct (slew_open ra dec d Hc Ho) as [S1 S2].
  destruct (sync_open ra dec d Hc Ho) as [Y1 Y2].
  exists (clamp 0 129600000 (double_to_int64 p)),
    (clamp (-32400000) 32400000 (double_to_int64 q)), ra9, sgn, dec8.
  rewrite S2, Y2, ER, ED.
  split; [auto|]. split; [auto|]. split; [auto|].
  split; [apply ra_value_cases | apply dec_value_cases].
Qed.

(** C7 at RA = 0.29 h with Dec = 4.1 degrees, and at RA = Dec = 1e30: in
    range the fields are the integer parts of the double products
    1565999.99... and 1475999.99...; at 1e30 both fields are the lower
    bounds. *)
Lemma C7_coordinate_commands_witness :
  cCmdQueue (snd (Telescope_SlewToRA_DEC (round64 (29 # 100)) (round64 (41 # 10))
                    driver0)) =
    [":SRA001565999#"; ":Sds+01475999#"; ":MS1#"] /\
  cCmdQueue (snd (Telescope_SlewToRA_DEC (round64 (inject_Z (10 ^ 30)))
                    (round64 (inject_Z (10 ^ 30))) driver0)) =
    [":SRA000000000#"; ":Sds-32400000#"; ":MS1#"].
Proof.
  assert (F : forall x, (Qabs (round64 x) < 2 ^ 1024)%Q -> finite_double (round64 x)).
  { intros x H. split; [apply round64_binary64 | exact H]. }
  destruct (C7_coordinate_commands (round64 (29 # 100)) (round64 (41 # 10)) driver0)
    as [rv [dv [ra9 [sgn [dec8 [_ [_ [[_ [S _]] _]]]]]]]];
    try reflexivity; try (apply F; vm_compute; reflexivity).
  destruct (C7_coordinate_commands (round64 (inject_Z (10 ^ 30)))
              (round64 (inject_Z (10 ^ 30))) driver0)
    as [rv' [dv' [ra9' [sgn' [dec8' [_ [_ [[_ [S' _]] _]]]]]]]];
    try reflexivity; try (apply F; vm_compute; reflexivity).
  split; vm_compute; reflexivity.
Defined.

(** C8, as the code has it.  For RA = 12.5 h and Dec = -33.25 degrees on an
    open connection, slew enqueues [:SRA067500000#], [:Sds-11970000#],
    [:MS1#] and sync enqueues the same two coordinate commands, then
    [:CM#]: 12.5 h is 67500000 units, printed on nine digits with one
    leading zero. *)
Theorem C8_example_commands (d : Driver) :
  Connected d = true ->
  cTelescopeConnectionOpen d = true ->
  cCmdQueue (snd (Telescope_SlewToRA_DEC (25 # 2) (- 133 # 4) d)) =
    (cCmdQueue d ++ [":SRA067500000#"; ":Sds-11970000#"; ":MS1#"])%list /\
  cCmdQueue (snd (Telescope_SyncToRA_DEC (25 # 2) (- 133 # 4) d)) =
    (cCmdQueue d ++ [":SRA067500000#"; ":Sds-11970000#"; ":CM#"])%list.
Proof.
  intros Hc Ho.
  destruct (slew_open (25 # 2) (- 133 # 4) d Hc Ho) as [_ S].
  destruct (sync_open (25 # 2) (- 133 # 4) d Hc Ho) as [_ Y].
  rewrite S, Y. split; reflexivity.
Qed.

Lemma C8_example_commands_witness :
  cCmdQueue (snd (Telescope_SlewToRA_DEC (25 # 2) (- 133 # 4) driver0)) =
    [":SRA067500000#"; ":Sds-11970000#"; ":MS1#"] /\
  cCmdQueue (snd (Telescope_SyncToRA_DEC (25 # 2) (- 133 # 4) driver0)) =
    [":SRA067500000#"; ":Sds-11970000#"; ":CM#"].
Proof.
  exact (C8_example_commands driver0 eq_refl eq_refl).
Defined.

(** C8 as stated fails: slewing to RA = 12.5 h, Dec = -33.25 degrees does
    not enqueue [:SRA675000000#], whose field would be 675000000 units
    (125 h). *)
Lemma C8_counterexample :
  ~ In ":SRA675000000#"
       (cCmdQueue (snd (Telescope_SlewToRA_DEC (25 # 2) (- 133 # 4) driver0))).
Proof.
  vm_compute. intros [H | [H | [H | []]]]; discriminate H.
Qed.

Section RoundTrip.

Open Scope Q_scope.

(** The rounding error for a value between [-b] and [b], [b] a power of
    two. *)
Lemma round64_error_below (x b err : Q) (p : Z) :
  (-1021 <= p)%Z -> 2 ^ p == b -> 2 ^ (p - 53) == err ->
  - b <= x <= b ->
  - err <= round64 x - x <= err.
Proof.
  intros Hp Eb Ee Hx. apply Qabs_Qle_condition. rewrite <- Ee.
  apply round64_error; [exact Hp|]. rewrite Eb. now apply Qabs_Qle_condition.
Qed.

(** Scaling the double of [k / 360000] back to 0.01 arc-second units gives
    a double within a small fraction of a unit of [k]. *)
Lemma dec_scaled_near (k : Z) :
  (-32400000 <= k <= 32400000)%Z ->
  - (1 # 1000000) <= dec_scaled (round64 (inject_Z k / 360000)) - inject_Z k
    <= 1 # 1000000.
Proof.
  intros [K1 K2]. rewrite Zle_Qle in K1, K2. inject_consts.
  assert (E : inject_Z k / 360000 == inject_Z k * (1 # 360000)) by field.
  unfold dec_scaled, fmul.
  set (a := inject_Z k / 360000) in *.
  pose proof (round64_error_below a 128 (1 # 70368744177664) 7
                ltac:(lia) ltac:(reflexivity) ltac:(reflexivity)) as E1.
  set (x1 := round64 a) in *.
  pose proof (round64_error_below (x1 * 3600) 524288 (1 # 17179869184) 19
                ltac:(lia) ltac:(reflexivity) ltac:(reflexivity)) as E2.
  set (x2 := round64 (x1 * 3600)) in *.
  pose proof (round64_error_below (x2 * 100) 33554432 (1 # 268435456) 25
                ltac:(lia) ltac:(reflexivity) ltac:(reflexivity)) as E3.
  set (x3 := round64 (x2 * 100)) in *.
  assert (A1 : - (1 # 70368744177664) <= x1 - a <= 1 # 70368744177664)
    by (apply E1; lra).
  assert (A2 : - (1 # 17179869184) <= x2 - x1 * 3600 <= 1 # 17179869184)
    by (apply E2; lra).
  assert (A3 : - (1 # 268435456) <= x3 - x2 * 100 <= 1 # 268435456)
    by (apply E3; lra).
  lra.
Qed.

(** The same for the double of [j / 5400000] hours. *)
Lemma ra_scaled_near (j : Z) :
  (0 <= j <= 129600000)%Z ->
  - (1 # 1000000) <= ra_scaled (round64 (inject_Z j / 5400000)) - inject_Z j
    <= 1 # 1000000.
Proof.
  intros [K1 K2]. rewrite Zle_Qle in K1, K2. inject_consts.
  assert (E : inject_Z j / 5400000 == inject_Z j * (1 # 5400000)) by field.
  unfold ra_scaled, fmul.
  set (a := inject_Z j / 5400000) in *.
  pose proof (round64_error_below a 32 (1 # 281474976710656) 5
                ltac:(lia) ltac:(reflexivity) ltac:(reflexivity)) as E1.
  set (x1 := round64 a) in *.
  pose proof (round64_error_below (x1 * 15) 512 (1 # 17592186044416) 9
                ltac:(lia) ltac:(reflexivity) ltac:(reflexivity)) as E2.
  set (x2 := round64 (x1 * 15)) in *.
  pose proof (round64_error_below (x2 * 3600) 2097152 (1 # 4294967296) 21
                ltac:(lia) ltac:(reflexivity) ltac:(reflexivity)) as E3.
  set (x3 := round64 (x2 * 3600)) in *.
  pose proof (round64_error_below (x3 * 100) 268435456 (1 # 33554432) 28
                ltac:(lia) ltac:(reflexivity) ltac:(reflexivity)) as E4.
  set (x4 := round64 (x3 * 100)) in *.
  assert (A1 : - (1 # 281474976710656) <= x1 - a <= 1 # 281474976710656)
    by (apply E1; lra).
  assert (A2 : - (1 # 17592186044416) <= x2 - x1 * 15 <= 1 # 17592186044416)
    by (apply E2; lra).
  assert (A3 : - (1 # 4294967296) <= x3 - x2 * 3600 <= 1 # 4294967296)
    by (apply E3; lra).
  assert (A4 : - (1 # 33554432) <= x4 - x3 * 100 <= 1 # 33554432)
    by (apply E4; lra).
  lra.
Qed.

(** The Dec field of the encoder for the double of [k / 360000]: [k], or
    the count one unit nearer to zero. *)
Lemma dec_field_near (k : Z) :
  (-32400000 <= k <= 32400000)%Z ->
  let v := clamp (-32400000) 32400000
             (double_to_int64 (dec_scaled (round64 (inject_Z k / 360000)))) in
  (Z.abs v <= Z.abs k /\ Z.abs k - 1 <= Z.abs v)%Z /\ (0 <= v * k)%Z.
Proof.
  intros Hk v. pose proof (dec_scaled_near k Hk) as N.
  destruct (dec_value_cases (dec_scaled (round64 (inject_Z k / 360000))))
    as [V1 [V2 [V3 [V4 V5]]]].
  fold v in V1, V2, V3, V4, V5.
  set (q := dec_scaled (round64 (inject_Z k / 360000))) in *.
  destruct Hk as [K1 K2].
  assert (Q1 : inject_Z (-32400000) <= inject_Z k) by (now rewrite <- Zle_Qle).
  assert (Q2 : inject_Z k <= inject_Z 32400000) by (now rewrite <- Zle_Qle).
  inject_consts.
  destruct (Qlt_le_dec q 0) as [Hn | Hp].
  - assert (Kn : (k <= 0)%Z).
    { destruct (Z_le_gt_dec k 0) as [L | L]; [exact L|].
      assert (L' : (1 <= k)%Z) by lia. rewrite Zle_Qle in L'. inject_consts. lra. }
    destruct (Qlt_le_dec (-32400000) q) as [H1 | H1].
    + destruct V2 as [A B]; [lra|].
      assert (T : (k < v + 1)%Z /\ (v < k + 2)%Z /\ (v < 1)%Z).
      { repeat split; rewrite Zlt_Qlt.
        - rewrite inject_Z_plus. inject_consts. lra.
        - rewrite inject_Z_plus. inject_consts. lra.
        - inject_consts. lra. }
      split; [|nia]. lia.
    + rewrite (V1 H1).
      assert (Kk : (k < -32399999)%Z).
      { rewrite Zlt_Qlt. inject_consts. lra. }
      split; [|nia]. lia.
  - assert (Kp : (0 <= k)%Z).
    { destruct (Z_le_gt_dec 0 k) as [L | L]; [exact L|].
      assert (L' : (k <= -1)%Z) by lia. rewrite Zle_Qle in L'. inject_consts. lra. }
    destruct (Qlt_le_dec q 32400000) as [H1 | H1].
    + destruct V3 as [A B]; [lra|].
      assert (T : (k < v + 2)%Z /\ (v < k + 1)%Z /\ (-1 < v)%Z).
      { repeat split; rewrite Zlt_Qlt.
        - rewrite inject_Z_plus. inject_consts. lra.
        - rewrite inject_Z_plus. inject_consts. lra.
        - inject_consts. lra. }
      split; [|nia]. lia.
    + rewrite V4 by lra.
      assert (Kk : (32399999 < k)%Z).
      { rewrite Zlt_Qlt. inject_consts. lra. }
      split; [|nia]. lia.
Qed.

(** The RA field of the encoder for the double of [j / 5400000]: [j] or
    [j - 1]. *)
Lemma ra_field_near (j : Z) :
  (0 <= j < 129600000)%Z ->
  let v := clamp 0 129600000
             (double_to_int64 (ra_scaled (round64 (inject_Z j / 5400000)))) in
  (0 <= v <= j /\ j - 1 <= v)%Z.
Proof.
  intros Hj v.
  pose proof (ra_scaled_near j ltac:(lia)) as N.
  destruct (ra_value_cases (ra_scaled (round64 (inject_Z j / 5400000))))
    as [V1 [V2 [V3 V4]]].
  fold v in V1, V2, V3, V4.
  set (p := ra_scaled (round64 (inject_Z j / 5400000))) in *.
  destruct Hj as [K1 K2].
  assert (Q1 : inject_Z 0 <= inject_Z j) by (now rewrite <- Zle_Qle).
  assert (Q2 : inject_Z j <= inject_Z 129599999) by (rewrite <- Zle_Qle; lia).
  inject_consts.
  destruct (Qlt_le_dec p 0) as [Hn | Hp].
  - rewrite (V1 Hn).
    assert (Kn : (j < 1)%Z) by (rewrite Zlt_Qlt; inject_consts; lra).
    lia.
  - destruct V2 as [A B]; [lra|].
    assert (T : (j < v + 2)%Z /\ (v < j + 1)%Z /\ (-1 < v)%Z).
    { repeat split; rewrite Zlt_Qlt.
      - rewrite inject_Z_plus. inject_consts. lra.
      - rewrite inject_Z_plus. inject_consts. lra.
      - inject_consts. lra. }
    lia.
Qed.

Close Scope Q_scope.

Lemma hash_terminated_app (a b : string) :
  hash_terminated b -> hash_terminated (a ++ b).
Proof. intros [p ->]. exists (a ++ p). now rewrite app_assoc_str. Qed.

(** Decoding a frame assembled from a sign, eight digits, nine digits and
    a tail of at least two bytes that ends with ['#']. *)
Lemma GEP_decode_assembled (sgn : ascii) (dec8 ra9 tail : string) (d : Driver) :
  String.length dec8 = 8%nat -> String.length ra9 = 9%nat ->
  all_digits dec8 = true -> all_digits ra9 = true ->
  hash_terminated tail -> (2 <= String.length tail)%nat ->
  let sign := if Ascii.eqb sgn "-" then -1 else 1 in
  let dec_degrees := round64 (inject_Z (sign * decimal_value dec8) / 360000) in
  let ra_hours := round64 (inject_Z (decimal_value ra9) / 5400000) in
  exists d',
    result (Process_GEP_Response (String sgn dec8 ++ ra9 ++ tail) d)
      = Some (true, d') /\
    ((-90 <= dec_degrees <= 90)%Q ->
       (Declination (cTelescopeProp d') == dec_degrees)%Q) /\
    ((0 <= ra_hours /\ ra_hours < 24)%Q ->
       (RightAscension (cTelescopeProp d') == ra_hours)%Q).
Proof.
  intros L8 L9 D8 D9 Ht Lt sign dec_degrees ra_hours.
  set (s := String sgn dec8 ++ ra9 ++ tail).
  assert (E8 : substring 1 8 s = dec8).
  { unfold s. cbn [append substring].
    rewrite <- L8. apply substring_prefix. }
  assert (E9 : substring 9 9 s = ra9).
  { unfold s. replace 9%nat with (String.length (String sgn dec8)) at 1
      by (simpl; lia).
    rewrite <- L9. apply substring_mid. }
  assert (Hs : hash_terminated s).
  { unfold s. apply hash_terminated_app. now apply hash_terminated_app. }
  assert (Ls : (20 <= String.length s)%nat).
  { unfold s. rewrite !length_app. simpl. lia. }
  assert (H0 : String.get 0 s = Some sgn) by reflexivity.
  destruct (GEP_decode_fields s d sgn Hs Ls H0) as [d' [R [HD [_ [HR _]]]]].
  - now rewrite E8.
  - now rewrite E9.
  - rewrite E8, E9 in *. exists d'. auto.
Qed.

End RoundTrip.

(** C5, as the code has it.  Take a declination of [k] units of 0.01
    arc-second with [k] in [-32400000, 32400000] and a right ascension of
    [j] such units with [j] in [0, 129600000), as the doubles nearest to
    [k / 360000] degrees and [j / 5400000] hours.  Encode them as slew and
    sync do, and form a position frame from the Dec field (sign and eight
    digits), the RA field (nine digits) and a tail of at least one more
    byte followed by ['#'] (in a real frame: the pier-side and
    pointing-state digits).  The GEP decoder then stores the doubles of
    [k'] and [j'] units, where each count is the original one or, the
    encoder truncating the double product, the one next to it toward
    zero: the pair read back is the original one to within 0.01
    arc-second. *)
Theorem C5_encode_decode_roundtrip (k j : Z) (tail : string) (d : Driver) :
  -32400000 <= k <= 32400000 ->
  0 <= j < 129600000 ->
  hash_terminated tail ->
  (2 <= String.length tail)%nat ->
  let dec := round64 (inject_Z k / 360000) in
  let ra := round64 (inject_Z j / 5400000) in
  let frame :=
    substring 4 9 (Sds_command dec) ++ substring 4 9 (SRA_command ra) ++ tail in
  exists (d' : Driver) (k' j' : Z),
    result (Process_GEP_Response frame d) = Some (true, d') /\
    (Z.abs k - 1 <= Z.abs k' <= Z.abs k /\ 0 <= k' * k) /\
    (j - 1 <= j' <= j /\ 0 <= j') /\
    (Declination (cTelescopeProp d') == round64 (inject_Z k' / 360000))%Q /\
    (RightAscension (cTelescopeProp d') == round64 (inject_Z j' / 5400000))%Q.
Proof.
  intros Hk Hj Ht Lt dec ra frame.
  destruct (SRA_command_field ra) as [ra9 [ER [L9 [D9 V9]]]].
  destruct (Sds_command_field dec) as [sgn [dec8 [ED [L8 [D8 V8]]]]].
  pose proof (dec_field_near k Hk) as [[Nk1 Nk2] Nk3].
  pose proof (ra_field_near j Hj) as [[Nj1 Nj2] Nj3].
  fold dec in V8, Nk1, Nk2, Nk3. fold ra in V9, Nj1, Nj2, Nj3.
  set (k' := clamp (-32400000) 32400000 (double_to_int64 (dec_scaled dec))) in *.
  set (j' := clamp 0 129600000 (double_to_int64 (ra_scaled ra))) in *.
  assert (EF : frame = (String sgn dec8 ++ ra9 ++ tail)%string).
  { unfold frame. rewrite ER, ED. f_equal; [|f_equal].
    - pose proof (substring_mid ":Sds" (String sgn dec8) "#") as M.
      cbn [String.length] in M. rewrite L8 in M. exact M.
    - pose proof (substring_mid ":SRA" ra9 "#") as M.
      cbn [String.length] in M. rewrite L9 in M. exact M. }
  rewrite EF.
  destruct (GEP_decode_assembled sgn dec8 ra9 tail d L8 L9 D8 D9 Ht Lt)
    as [d' [R [HD HR]]].
  assert (SV : (if Ascii.eqb sgn "-" then -1 else 1) * decimal_value dec8 = k').
  { destruct V8 as [[-> [_ V]] | [-> [_ V]]]; cbn [Ascii.eqb Bool.eqb]; lia. }
  rewrite SV, V9 in *.
  exists d', k', j'. split; [exact R|].
  split; [lia|]. split; [lia|]. split.
  - apply HD. apply dec_gate_exact.
    assert (B : -32400000 <= k' <= 32400000) by lia.
    destruct B as [B1 B2]. rewrite Zle_Qle in B1, B2. inject_consts.
    assert (E : (inject_Z k' / 360000 == inject_Z k' * (1 # 360000))%Q) by field.
    set (x := (inject_Z k' / 360000)%Q) in *. split; lra.
  - apply HR. apply ra_gate_exact.
    assert (B : 0 <= j' <= 129599999) by lia.
    destruct B as [B1 B2]. rewrite Zle_Qle in B1, B2. inject_consts.
    assert (E : (inject_Z j' / 5400000 == inject_Z j' * (1 # 5400000))%Q) by field.
    set (x := (inject_Z j' / 5400000)%Q) in *. split; lra.
Qed.

(** C5 at Dec = -33.25 degrees, RA = 12.5 h and the tail [01#]: both
    products are exact, and the pair is read back as it was. *)
Lemma C5_encode_decode_roundtrip_witness :
  exists d',
    result (Process_GEP_Response "-1197000006750000001#" driver0) = Some (true, d') /\
    (Declination (cTelescopeProp d') == - 133 # 4)%Q /\
    (RightAscension (cTelescopeProp d') == 25 # 2)%Q.
Proof.
  destruct (C5_encode_decode_roundtrip (-11970000) 67500000 "01#" driver0)
    as [d' [k' [j' [R _]]]].
  - lia.
  - lia.
  - exists "01". reflexivity.
  - simpl. lia.
  - exists d'. split; [exact R|].
    vm_compute in R. injection R as <-. split; vm_compute; reflexivity.
Defined.

(** C5 as stated fails twice.  The frame made of the sign, the eight and
    the nine digits and ['#'] alone has 19 bytes, below the 20 the decoder
    asks for: for Dec = 1 degree and RA = 1 h it is [+00360000005400000#],
    nothing is stored and the driver still holds Dec = 0, RA = 0.  And with
    the two status digits in place the pair does not always come back
    exactly: for Dec = 4.1 degrees and RA = 0.29 h the double products are
    1475999.99... and 1565999.99..., the encoder truncates them, and the
    frame reads back one unit short in both coordinates. *)
Lemma C5_counterexample :
  ~ (exists d',
       result (Process_GEP_Response
                 (substring 4 9 (Sds_command 1) ++
                  substring 4 9 (SRA_command 1) ++ "#") driver0)
         = Some (true, d') /\
       (Declination (cTelescopeProp d') == 1)%Q /\
       (RightAscension (cTelescopeProp d') == 1)%Q) /\
  ~ (exists d',
       result (Process_GEP_Response
                 (substring 4 9 (Sds_command (round64 (41 # 10))) ++
                  substring 4 9 (SRA_command (round64 (29 # 100))) ++ "01#")
                 driver0)
         = Some (true, d') /\
       (Declination (cTelescopeProp d') == round64 (41 # 10))%Q /\
       (RightAscension (cTelescopeProp d') == round64 (29 # 100))%Q).
Proof.
  split.
  - intros [d' [R [HD _]]].
    vm_compute in R. injection R as <-.
    vm_compute in HD. discriminate HD.
  - intros [d' [R [HD _]]].
    vm_compute in R. injection R as <-.
    vm_compute in HD. discriminate HD.
Qed.

Section PollFacts.

Variable T : Type.
Variable sys_write : T -> string -> Z * T.
Variable sys_read : T -> ReadEvent * T.

Lemma bind_ret {A B : Type} (a : A) (k : A -> Buf.M B) (tr : list nat) :
  Buf.bind (Buf.ret a) k tr = k a tr.
Proof. reflexivity. Qed.

(** A count of zero comes with an empty buffer. *)
Lemma send_nothing (t : T) (cmd : string) (n : nat) :
  fst (fst (iOptron_SendCommand T sys_write sys_read t cmd n)) = 0%nat ->
  snd (fst (iOptron_SendCommand T sys_write sys_read t cmd n)) = "".
Proof.
  unfold iOptron_SendCommand. destruct (sys_write t cmd) as [w t1].
  destruct (w <? 0); [reflexivity|].
  destruct (read_loop T sys_read (n - 1) t1 []) as [got t2]. cbn [fst snd].
  destruct got; [reflexivity | discriminate].
Qed.

(** The [:GLS#] half of the poll: it returns, and touches neither the
    position nor the validity flag nor the error counter. *)
Lemma poll_status_half (t1 : T) (isValid : bool) (d2 : Driver) (tr : list nat) :
  handle_unusable d2 = false ->
  exists d3 tr',
    (if handle_unusable d2 then Buf.ret (false, d2, t1)
     else
       let '((returnByteCnt, returnBuffer), t2) :=
         iOptron_SendCommand T sys_write sys_read t1 ":GLS#" 400 in
       d3 <- (if (0 <? returnByteCnt)%nat then
                r <- Process_GLS_Response returnBuffer d2 ;; Buf.ret (snd r)
              else Buf.ret d2) ;;
       Buf.ret (isValid, d3, t2)) tr =
    Some ((isValid, d3,
           snd (iOptron_SendCommand T sys_write sys_read t1 ":GLS#" 400)), tr') /\
    same_link d2 d3 /\ same_position d2 d3.
Proof.
  intros Hh. rewrite Hh.
  destruct (iOptron_SendCommand T sys_write sys_read t1 ":GLS#" 400)
    as [[cnt buf] t2]. cbn [snd].
  destruct (0 <? cnt)%nat.
  - destruct (GLS_total buf d2 tr) as [d3 [new [E [_ [L [P _]]]]]].
    exists d3, (new ++ tr)%list. unfold Buf.bind. rewrite E. cbn [snd].
    unfold Buf.ret. auto.
  - exists d2, tr. rewrite bind_ret. unfold Buf.ret.
    split; [reflexivity|]. split; [apply same_link_refl | split; reflexivity].
Qed.

Variables (t : T) (d : Driver).
Hypothesis Hopen : cTelescopeConnectionOpen d = true.
Hypothesis Hhandle : handle_unusable d = false.

(** No byte came back for [:GEP#]: the counter goes up by one, the
    position is kept, and [cTelescopeInfoValid] is left as it was. *)
Lemma poll_no_reply :
  fst (fst (iOptron_SendCommand T sys_write sys_read t ":GEP#" 400)) = 0%nat ->
  exists d' t',
    result (SendCmdsPeriodic T sys_write sys_read t d) = Some (false, d', t') /\
    cIOptron_CommErrCnt d' = cIOptron_CommErrCnt d + 1 /\
    cTelescopeInfoValid d' = cTelescopeInfoValid d /\
    same_position d d'.
Proof.
  intros H0.
  unfold result, Buf.run, SendCmdsPeriodic. rewrite Hopen. cbn [negb].
  rewrite Hhandle.
  destruct (iOptron_SendCommand T sys_write sys_read t ":GEP#" 400)
    as [[cnt buf] t1]. cbn [fst] in H0. subst cnt.
  change (0 <? 0)%nat with false. cbv iota. rewrite bind_ret.
  set (d2 := set_CommErrCnt (cIOptron_CommErrCnt d + 1) d).
  assert (H2 : handle_unusable d2 = false) by exact Hhandle.
  destruct (poll_status_half t1 false d2 [] H2) as [d3 [tr' [E [L P]]]].
  exists d3. eexists. rewrite E. cbn [option_map fst].
  split; [reflexivity|].
  destruct L as [_ [_ [_ [_ [_ [LV [LC _]]]]]]]. destruct P as [PR PD].
  unfold same_position. rewrite LC, LV, PR, PD. repeat split.
Qed.

(** Bytes came back for [:GEP#] but the buffer fails the validity check:
    the counter goes up by one, [cTelescopeInfoValid] becomes false and
    the position is kept. *)
Lemma poll_invalid_reply :
  (0 < fst (fst (iOptron_SendCommand T sys_write sys_read t ":GEP#" 400)))%nat ->
  valid_frame (snd (fst (iOptron_SendCommand T sys_write sys_read t ":GEP#" 400)))
    = false ->
  exists d' t',
    result (SendCmdsPeriodic T sys_write sys_read t d) = Some (false, d', t') /\
    cIOptron_CommErrCnt d' = cIOptron_CommErrCnt d + 1 /\
    cTelescopeInfoValid d' = false /\
    same_position d d'.
Proof.
  intros Hc Hv.
  unfold result, Buf.run, SendCmdsPeriodic. rewrite Hopen. cbn [negb].
  rewrite Hhandle.
  destruct (iOptron_SendCommand T sys_write sys_read t ":GEP#" 400)
    as [[cnt buf] t1]. cbn [fst snd] in Hc, Hv.
  apply Nat.ltb_lt in Hc. rewrite Hc.
  unfold Buf.bind at 1. unfold Buf.bind at 1.
  rewrite (GEP_run_invalid buf d [] Hv). cbv iota beta.
  unfold Buf.ret at 1.
  set (d2 := set_InfoValid false
               (set_CommErrCnt (cIOptron_CommErrCnt d + 1) d)).
  assert (H2 : handle_unusable d2 = false) by exact Hhandle.
  destruct (poll_status_half t1 false d2 (check_reads buf ++ [])%list H2)
    as [d3 [tr' [E [L P]]]].
  exists d3. eexists. rewrite E. cbn [option_map fst].
  split; [reflexivity|].
  destruct L as [_ [_ [_ [_ [_ [LV [LC _]]]]]]]. destruct P as [PR PD].
  unfold same_position. rewrite LC, LV, PR, PD. repeat split.
Qed.

End PollFacts.

(** C6, the part the code satisfies and the part it misses.  On an open
    connection with a usable handle, a [:GEP#] query for which
    [iOptron_SendCommand] returns no byte raises the communication-error
    counter by one and keeps the stored right ascension and declination;
    but [cTelescopeInfoValid] keeps its previous value: the position is not
    marked not-valid.  (A reply of at least one byte that fails the
    validity check does mark it: [poll_invalid_reply].) *)
Theorem C6_no_reply_keeps_valid_flag (T : Type) (sys_write : T -> string -> Z * T)
    (sys_read : T -> ReadEvent * T) (t : T) (d : Driver) :
  cTelescopeConnectionOpen d = true ->
  handle_unusable d = false ->
  fst (fst (iOptron_SendCommand T sys_write sys_read t ":GEP#" 400)) = 0%nat ->
  exists d' t',
    result (SendCmdsPeriodic T sys_write sys_read t d) = Some (false, d', t') /\
    cIOptron_CommErrCnt d' = cIOptron_CommErrCnt d + 1 /\
    cTelescopeInfoValid d' = cTelescopeInfoValid d /\
    RightAscension (cTelescopeProp d') = RightAscension (cTelescopeProp d) /\
    Declination (cTelescopeProp d') = Declination (cTelescopeProp d).
Proof.
  intros Ho Hh H0. exact (poll_no_reply T sys_write sys_read t d Ho Hh H0).
Qed.

(** C6 at a driver whose position was valid, on a scripted transport with
    nothing to read, so that both queries time out: the flag is still true
    after the cycle. *)
Lemma C6_no_reply_keeps_valid_flag_witness :
  exists d' t',
    result (SendCmdsPeriodic _ script_write script_read []
              (set_InfoValid true driver0)) = Some (false, d', t') /\
    cIOptron_CommErrCnt d' = 1 /\
    cTelescopeInfoValid d' = true.
Proof.
  destruct (C6_no_reply_keeps_valid_flag _ script_write script_read []
              (set_InfoValid true driver0) eq_refl eq_refl eq_refl)
    as [d' [t' [R [C [V _]]]]].
  exists d', t'. split; [exact R|]. split; [exact C | exact V].
Defined.

Section NormalizeFacts.

Open Scope Q_scope.

Lemma inject_Z_succ_nat (f : nat) :
  inject_Z (Z.of_nat (S f)) == inject_Z (Z.of_nat f) + 1.
Proof. rewrite Nat2Z.inj_succ. unfold Z.succ. now rewrite inject_Z_plus. Qed.

Lemma inject_Z_nonneg (z : Z) : (0 <= z)%Z -> 0 <= inject_Z z.
Proof. intros H. change 0 with (inject_Z 0). now rewrite <- Zle_Qle. Qed.

Lemma Qle_bool_false (x y : Q) : Qle_bool x y = false -> y < x.
Proof.
  intros H. apply Qnot_le_lt. intros Hle.
  apply Qle_bool_iff in Hle. congruence.
Qed.

Lemma Qlt_bool_false (x y : Q) : Qlt_bool x y = false -> y <= x.
Proof.
  unfold Qlt_bool. intros H. apply negb_false_iff in H.
  now apply Qle_bool_iff.
Qed.

(** On whole numbers of hours the two loops compute exactly. *)
Lemma fsub_Z (n : Z) :
  (Z.abs n <= 2 ^ 52)%Z -> fsub (inject_Z n) 24 = inject_Z (n - 24).
Proof.
  intros H. unfold fsub.
  assert (E : inject_Z n - 24 == inject_Z (n - 24)).
  { unfold Z.sub. rewrite inject_Z_plus, inject_Z_opp. reflexivity. }
  rewrite (round64_comp _ _ E). apply round64_Z.
  change (2 ^ 52)%Z with 4503599627370496%Z in H.
  change (2 ^ 53)%Z with 9007199254740992%Z. lia.
Qed.

Lemma fadd_Z (n : Z) :
  (Z.abs n <= 2 ^ 52)%Z -> fadd (inject_Z n) 24 = inject_Z (n + 24).
Proof.
  intros H. unfold fadd.
  assert (E : inject_Z n + 24 == inject_Z (n + 24)).
  { rewrite inject_Z_plus. reflexivity. }
  rewrite (round64_comp _ _ E). apply round64_Z.
  change (2 ^ 52)%Z with 4503599627370496%Z in H.
  change (2 ^ 53)%Z with 9007199254740992%Z. lia.
Qed.

Lemma ge24_Z (n : Z) : Qle_bool 24 (inject_Z n) = (24 <=? n)%Z.
Proof.
  destruct (Z.leb_spec 24 n) as [L | L].
  - apply Qle_bool_iff. change 24 with (inject_Z 24). now rewrite <- Zle_Qle.
  - destruct (Qle_bool 24 (inject_Z n)) eqn:E; [|reflexivity].
    apply Qle_bool_iff in E. change 24 with (inject_Z 24) in E.
    rewrite <- Zle_Qle in E. lia.
Qed.

Lemma lt0_Z (n : Z) : Qlt_bool (inject_Z n) 0 = (n <? 0)%Z.
Proof.
  unfold Qlt_bool.
  destruct (Z.ltb_spec n 0) as [L | L].
  - apply negb_true_iff.
    destruct (Qle_bool 0 (inject_Z n)) eqn:E; [|reflexivity].
    apply Qle_bool_iff in E. change 0 with (inject_Z 0) in E.
    rewrite <- Zle_Qle in E. lia.
  - apply negb_false_iff. apply Qle_bool_iff.
    change 0 with (inject_Z 0). now rewrite <- Zle_Qle.
Qed.

Lemma sub24_loop_Z (f : nat) : forall n : Z,
  (0 <= n <= 2 ^ 52)%Z -> (n < 24 * (Z.of_nat f + 1))%Z ->
  sub24_loop f (inject_Z n) = inject_Z (n mod 24).
Proof.
  induction f as [|f IH]; intros n Hn Hf.
  - cbn [sub24_loop]. rewrite Z.mod_small by lia. reflexivity.
  - cbn [sub24_loop]. rewrite ge24_Z.
    destruct (Z.leb_spec 24 n) as [L | L].
    + rewrite fsub_Z by lia. rewrite IH by lia.
      replace n with (n - 24 + 1 * 24)%Z at 2 by lia.
      now rewrite Z.mod_add by lia.
    + rewrite Z.mod_small by lia. reflexivity.
Qed.

Lemma add24_loop_Z (f : nat) : forall n : Z,
  (- 2 ^ 52 <= n)%Z -> (- (24 * Z.of_nat f) <= n < 24)%Z ->
  add24_loop f (inject_Z n) = inject_Z (if (n <? 0)%Z then n mod 24 else n).
Proof.
  induction f as [|f IH]; intros n Hn Hf.
  - cbn [add24_loop]. destruct (Z.ltb_spec n 0); [lia | reflexivity].
  - cbn [add24_loop]. rewrite lt0_Z.
    destruct (Z.ltb_spec n 0) as [L | L]; [|reflexivity].
    rewrite fadd_Z by (change (2 ^ 52)%Z with 4503599627370496%Z in *; lia).
    rewrite IH by lia.
    replace (n mod 24)%Z with ((n + 24) mod 24)%Z
      by (replace (n + 24)%Z with (n + 1 * 24)%Z by lia; apply Z.mod_add; lia).
    destruct (Z.ltb_spec (n + 24) 0); [reflexivity|].
    rewrite Z.mod_small by lia. reflexivity.
Qed.

Lemma loop_fuel_Z (n : Z) :
  loop_fuel (inject_Z n) = S (Z.to_nat (Z.abs (n / 24))).
Proof.
  unfold loop_fuel. rewrite (Zdiv_Qdiv n 24). reflexivity.
Qed.

(** A whole number of hours is reduced modulo 24. *)
Lemma normalize_0_24_Z (n : Z) :
  (Z.abs n <= 2 ^ 52)%Z ->
  normalize_0_24 (inject_Z n) = inject_Z (n mod 24).
Proof.
  intros H. unfold normalize_0_24.
  pose proof (Z.mod_pos_bound n 24 ltac:(lia)) as Hm.
  pose proof (Z.div_mod n 24 ltac:(lia)) as Hd.
  change (2 ^ 52)%Z with 4503599627370496%Z in H.
  destruct (Z_le_gt_dec 0 n) as [P | N].
  - rewrite sub24_loop_Z.
    + rewrite loop_fuel_Z. cbn [add24_loop]. rewrite lt0_Z.
      destruct (Z.ltb_spec (n mod 24) 0); [lia | reflexivity].
    + change (2 ^ 52)%Z with 4503599627370496%Z. lia.
    + rewrite loop_fuel_Z, Nat2Z.inj_succ, Z2Nat.id by lia.
      assert (0 <= n / 24)%Z by (apply Z.div_pos; lia). lia.
  - assert (E1 : sub24_loop (loop_fuel (inject_Z n)) (inject_Z n) = inject_Z n).
    { rewrite loop_fuel_Z. cbn [sub24_loop]. rewrite ge24_Z.
      destruct (Z.leb_spec 24 n); [lia | reflexivity]. }
    rewrite E1, add24_loop_Z.
    + destruct (Z.ltb_spec n 0); [reflexivity | lia].
    + change (2 ^ 52)%Z with 4503599627370496%Z. lia.
    + rewrite loop_fuel_Z, Nat2Z.inj_succ, Z2Nat.id by lia.
      assert (n / 24 < 0)%Z by (apply Z.div_lt_upper_bound; lia). lia.
Qed.

(** Hours alone, with no minutes and no seconds. *)
Lemma sexagesimal_Z (n : Z) :
  (Z.abs n <= 2 ^ 53)%Z -> sexagesimal n 0 0 = inject_Z n.
Proof.
  intros H. unfold sexagesimal, double_of_Z.
  rewrite (round64_Z n H).
  change (fdiv (fmul 1 (round64 (inject_Z 0))) 60) with 0.
  change (fdiv (fmul 1 (round64 (inject_Z 0))) 3600) with 0.
  unfold fadd.
  assert (E : inject_Z n + 0 == inject_Z n) by ring.
  rewrite (round64_comp _ _ E), (round64_Z n H).
  rewrite (round64_comp _ _ E), (round64_Z n H). reflexivity.
Qed.

Lemma wrap32_range (x : Z) : (- 2 ^ 31 <= wrap32 x < 2 ^ 31)%Z.
Proof.
  unfold wrap32.
  pose proof (Z.mod_pos_bound (x + 2 ^ 31) (2 ^ 32) ltac:(lia)). lia.
Qed.

End NormalizeFacts.

Section ParseRAFacts.

Variables (H M S : string) (c : ascii) (rest : string).
Hypothesis HH : digit_field H.
Hypothesis HM : digit_field M.
Hypothesis HS : digit_field S.
Hypothesis Hc : isdigit c = false.
Hypothesis Hrest : hash_terminated (String c rest).

Lemma colon_not_digit : isdigit ":" = false.
Proof. reflexivity. Qed.

Lemma ParseRA_valid (s : string) (q : Q) :
  hash_terminated s ->
  result (Buf.bind (CheckForValidResponse s)
            (fun isValid => if isValid then Buf.ret q else Buf.ret 0%Q))
    = Some q.
Proof.
  intros Hs. apply valid_frame_iff in Hs.
  unfold result, Buf.run. rewrite bind_Check, Hs. reflexivity.
Qed.

(** Hours, minutes and seconds are all present. *)
Lemma ParseRA_hms :
  result (iOptron_ParseRA (H ++ ":" ++ M ++ ":" ++ S ++ String c rest)) =
  Some (normalize_0_24
          (sexagesimal (decimal_value H) (decimal_value M) (decimal_value S))).
Proof.
  destruct HH as [H1 [H2 H3]]. destruct HM as [M1 [M2 M3]].
  destruct HS as [S1 [S2 S3]].
  unfold iOptron_ParseRA.
  change (":" ++ M ++ ":" ++ S ++ String c rest)
    with (String ":" (M ++ String ":" (S ++ String c rest))).
  rewrite (atoi_digits H ":" _ H2 H1 H3 colon_not_digit).
  rewrite (skip_digits_stop H ":" _ H2 colon_not_digit).
  cbv iota beta.
  rewrite (atoi_digits M ":" _ M2 M1 M3 colon_not_digit).
  rewrite (skip_digits_stop M ":" _ M2 colon_not_digit).
  cbv iota beta.
  rewrite (atoi_digits S c rest S2 S1 S3 Hc).
  apply ParseRA_valid.
  apply hash_terminated_app.
  change (hash_terminated (":" ++ M ++ ":" ++ S ++ String c rest)).
  do 4 apply hash_terminated_app. exact Hrest.
Qed.

Hypothesis Hnc : c <> ":"%char.

(** The second separator is missing: seconds stay 0. *)
Lemma ParseRA_hm :
  result (iOptron_ParseRA (H ++ ":" ++ M ++ String c rest)) =
  Some (normalize_0_24 (sexagesimal (decimal_value H) (decimal_value M) 0)).
Proof.
  destruct HH as [H1 [H2 H3]]. destruct HM as [M1 [M2 M3]].
  unfold iOptron_ParseRA.
  change (":" ++ M ++ String c rest) with (String ":" (M ++ String c rest)).
  rewrite (atoi_digits H ":" _ H2 H1 H3 colon_not_digit).
  rewrite (skip_digits_stop H ":" _ H2 colon_not_digit).
  cbv iota beta.
  rewrite (atoi_digits M c rest M2 M1 M3 Hc).
  rewrite (skip_digits_stop M c rest M2 Hc).
  assert (Hv : hash_terminated (H ++ String ":" (M ++ String c rest))).
  { apply hash_terminated_app.
    change (hash_terminated (":" ++ M ++ String c rest)).
    do 2 apply hash_terminated_app. exact Hrest. }
  revert Hv. generalize (H ++ String ":" (M ++ String c rest)). intros s Hv.
  destruct c as [[] [] [] [] [] [] [] []];
    try (exfalso; apply Hnc; reflexivity);
    cbv iota beta; apply ParseRA_valid; exact Hv.
Qed.

(** The first separator is missing: minutes and seconds stay 0. *)
Lemma ParseRA_h :
  result (iOptron_ParseRA (H ++ String c rest)) =
  Some (normalize_0_24 (sexagesimal (decimal_value H) 0 0)).
Proof.
  destruct HH as [H1 [H2 H3]].
  unfold iOptron_ParseRA.
  rewrite (atoi_digits H c rest H2 H1 H3 Hc).
  rewrite (skip_digits_stop H c rest H2 Hc).
  assert (Hv : hash_terminated (H ++ String c rest)).
  { apply hash_terminated_app. exact Hrest. }
  revert Hv. generalize (H ++ String c rest). intros s Hv.
  destruct c as [[] [] [] [] [] [] [] []];
    try (exfalso; apply Hnc; reflexivity);
    cbv iota beta; apply ParseRA_valid; exact Hv.
Qed.

End ParseRAFacts.

Section SignedRA.

(** [iOptron_ParseRA] on a frame that starts with a sign: [atoi] reads the
    signed number, the digit walk does not move past the sign, and no
    separator is found there. *)
Lemma ParseRA_signed (sgn : ascii) (r : string) :
  sgn = "+"%char \/ sgn = "-"%char ->
  valid_frame (String sgn r) = true ->
  result (iOptron_ParseRA (String sgn r)) =
  Some (inject_Z (atoi (String sgn r) mod 24)).
Proof.
  intros Hs Hv. unfold result, Buf.run, iOptron_ParseRA.
  rewrite bind_Check, Hv.
  pose proof (wrap32_range (strtoll (String sgn r))) as W. fold (atoi (String sgn r)) in W.
  change (2 ^ 31)%Z with 2147483648%Z in W.
  assert (E : normalize_0_24 (sexagesimal (atoi (String sgn r)) 0 0) =
              inject_Z (atoi (String sgn r) mod 24)).
  { rewrite sexagesimal_Z by (change (2 ^ 53)%Z with 9007199254740992%Z; lia).
    apply normalize_0_24_Z. change (2 ^ 52)%Z with 4503599627370496%Z. lia. }
  destruct Hs as [-> | ->]; cbv iota beta; cbn [skip_digits isdigit];
    (change (isdigit "+") with false || change (isdigit "-") with false);
    cbv iota; unfold Buf.ret; cbn [option_map fst]; now rewrite E.
Qed.

End SignedRA.

(** C9, what the code does where the claim fails.  The only frames
    [Process_iOptronResponse] hands to the RA parser start with ['+'] or
    ['-'].  On every such frame that ends with ['#'] the parser returns a
    whole number of hours, the signed integer [atoi] reads at the head of
    the frame reduced modulo 24 into [0, 24): the digit walk that should
    lead to the first [':'] does not step over the sign, so the minutes and
    the seconds are never read. *)
Theorem C9_signed_frame_whole_hours (sgn : ascii) (r : string) :
  (sgn = "+"%char \/ sgn = "-"%char) ->
  hash_terminated (String sgn r) ->
  result (iOptron_ParseRA (String sgn r)) =
    Some (inject_Z (atoi (String sgn r) mod 24)) /\
  0 <= atoi (String sgn r) mod 24 < 24.
Proof.
  intros Hs Hh. apply valid_frame_iff in Hh. split.
  - exact (ParseRA_signed sgn r Hs Hh).
  - apply Z.mod_pos_bound. lia.
Qed.

(** C9 at [+05:30:00#] and [-05:30:00#]: 5 and 19 hours, where the claim
    has 5.5 and, the sign taken with the hours, 19.5. *)
Lemma C9_signed_frame_whole_hours_witness :
  result (iOptron_ParseRA "+05:30:00#") = Some 5%Q /\
  result (iOptron_ParseRA "-05:30:00#") = Some 19%Q.
Proof.
  destruct (C9_signed_frame_whole_hours "+" "05:30:00#" (or_introl eq_refl)
              (ex_intro _ "+05:30:00" eq_refl)) as [A _].
  destruct (C9_signed_frame_whole_hours "-" "05:30:00#" (or_intror eq_refl)
              (ex_intro _ "-05:30:00" eq_refl)) as [B _].
  split; [exact A | exact B].
Defined.

Section DispatchFacts.

Lemma uniform_ret {A : Type} (a : A) : uniform (Buf.ret a).
Proof. exists a, []. reflexivity. Qed.

Lemma uniform_bind {A B : Type} (m : Buf.M A) (k : A -> Buf.M B) :
  uniform m -> (forall a, uniform (k a)) -> uniform (Buf.bind m k).
Proof.
  intros [v [new Hm]] Hk. destruct (Hk v) as [w [new' Hw]].
  exists w, (new' ++ new)%list. intros tr.
  unfold Buf.bind. rewrite Hm, Hw, app_assoc. reflexivity.
Qed.

Lemma uniform_Check (s : string) : uniform (CheckForValidResponse s).
Proof. exists (valid_frame s), (check_reads s). intros tr. apply Check_run. Qed.

Lemma uniform_ParseRA (s : string) : uniform (iOptron_ParseRA s).
Proof.
  unfold iOptron_ParseRA. apply uniform_bind; [apply uniform_Check|].
  intros [|]; [|apply uniform_ret].
  destruct (match skip_digits s with String ":"%char _ => _ | _ => _ end).
  apply uniform_ret.
Qed.

Lemma uniform_ParseDegMinSec (s : string) : uniform (iOptron_ParseDegMinSec s).
Proof.
  unfold iOptron_ParseDegMinSec. apply uniform_bind; [apply uniform_Check|].
  intros [|]; [|apply uniform_ret].
  destruct (match s with String "+"%char _ => _ | _ => _ end) as [pm cp].
  destruct (match skip_digits cp with String "*"%char _ => _ | _ => _ end).
  apply uniform_ret.
Qed.

Lemma uniform_RA (s : string) (d : Driver) : uniform (Process_RA_Response s d).
Proof.
  unfold Process_RA_Response. apply uniform_bind; [apply uniform_Check|].
  intros [|]; [|apply uniform_ret].
  apply uniform_bind; [apply uniform_ParseRA|].
  intros h. destruct (Qle_bool 0 h && Qlt_bool h 24); apply uniform_ret.
Qed.

Lemma uniform_DEC (s : string) (d : Driver) : uniform (Process_DEC_Response s d).
Proof.
  unfold Process_DEC_Response. apply uniform_bind; [apply uniform_Check|].
  intros [|]; [|apply uniform_ret].
  apply uniform_bind; [apply uniform_ParseDegMinSec|].
  intros h. destruct (Qle_bool (-90) h && Qle_bool h 90); apply uniform_ret.
Qed.

Lemma strchr_app_r (a b : string) (c : ascii) :
  strchr b c = true -> strchr (a ++ b) c = true.
Proof.
  intros H. induction a as [|x a IH]; [exact H|].
  simpl. destruct (Ascii.eqb x c); [reflexivity | exact IH].
Qed.

Lemma digit_not_sign (x : ascii) :
  isdigit x = true -> Ascii.eqb x "+" = false /\ Ascii.eqb x "-" = false.
Proof.
  intros H. split.
  - destruct (Ascii.eqb x "+") eqn:E; [|reflexivity].
    apply Ascii.eqb_eq in E. subst x. discriminate H.
  - destruct (Ascii.eqb x "-") eqn:E; [|reflexivity].
    apply Ascii.eqb_eq in E. subst x. discriminate H.
Qed.

(** The dispatcher does what [response_route] says. *)
Lemma dispatch_follows_route (s : string) (d : Driver) :
  valid_frame s = true ->
  result (Process_iOptronResponse s d) =
  match response_route s with
  | ToRA => option_map (fun x => (true, snd x)) (result (Process_RA_Response s d))
  | ToDEC => option_map (fun x => (true, snd x)) (result (Process_DEC_Response s d))
  | ToNone => Some (true, d)
  end.
Proof.
  intros Hv. unfold result, Buf.run, Process_iOptronResponse.
  rewrite bind_Check, Hv.
  destruct (response_route s).
  - destruct (uniform_RA s d) as [v [new Hu]].
    unfold Buf.bind. rewrite !Hu. reflexivity.
  - destruct (uniform_DEC s d) as [v [new Hu]].
    unfold Buf.bind. rewrite !Hu. reflexivity.
  - reflexivity.
Qed.

End DispatchFacts.

(** C10.  For a valid frame the generic dispatcher calls a coordinate
    processor only when the first byte is ['+'] or ['-'].  Among such
    frames, one that contains [':'] goes to the RA processor, whether or
    not it also contains ['*']; so the full Dec shape [sDD*MM:SS#] goes to
    the RA processor, and the RA shape [HH:MM:SS#], which starts with a
    digit, goes to neither and the driver is returned unchanged. *)
Theorem C10_dispatch_routing (s : string) (d : Driver) (sgn : ascii)
    (DD MM SS HH : string) :
  hash_terminated s ->
  (sgn = "+"%char \/ sgn = "-"%char) ->
  all_digits HH = true -> HH <> "" ->
  (* the dispatcher follows the route *)
  result (Process_iOptronResponse s d) =
    match response_route s with
    | ToRA => option_map (fun x => (true, snd x)) (result (Process_RA_Response s d))
    | ToDEC => option_map (fun x => (true, snd x)) (result (Process_DEC_Response s d))
    | ToNone => Some (true, d)
    end /\
  (* a processor is called only behind a sign *)
  (response_route s <> ToNone ->
     exists r, s = String "+"%char r \/ s = String "-"%char r) /\
  (* behind a sign, a colon anywhere selects the RA processor *)
  (forall r, s = String sgn r -> strchr s ":" = true -> response_route s = ToRA) /\
  (* the full Dec shape *)
  response_route (String sgn (DD ++ "*" ++ MM ++ ":" ++ SS ++ "#")) = ToRA /\
  (* the RA shape *)
  response_route (HH ++ ":" ++ MM ++ ":" ++ SS ++ "#") = ToNone /\
  result (Process_iOptronResponse (HH ++ ":" ++ MM ++ ":" ++ SS ++ "#") d)
    = Some (true, d).
Proof.
  intros Hs Hsgn HHd HHne.
  split; [apply dispatch_follows_route; now apply valid_frame_iff|].
  split; [|split; [|split]].
  - unfold response_route, strncmp1_eq. destruct s as [|a r]; [now intros []|].
    destruct (Ascii.eqb a "+") eqn:Ep.
    + apply Ascii.eqb_eq in Ep. subst a. intros _. exists r. now left.
    + destruct (Ascii.eqb a "-") eqn:Em.
      * apply Ascii.eqb_eq in Em. subst a. intros _. exists r. now right.
      * intros Hn. now contradiction Hn.
  - intros r -> Hcol. unfold response_route. rewrite Hcol.
    destruct Hsgn as [-> | ->]; reflexivity.
  - unfold response_route.
    assert (Hcol : strchr (String sgn (DD ++ "*" ++ MM ++ ":" ++ SS ++ "#")) ":" = true).
    { change (String sgn (DD ++ "*" ++ MM ++ ":" ++ SS ++ "#"))
        with (String sgn "" ++ DD ++ "*" ++ MM ++ ":" ++ SS ++ "#").
      do 4 apply strchr_app_r. reflexivity. }
    rewrite Hcol. destruct Hsgn as [-> | ->]; reflexivity.
  - assert (Hr : response_route (HH ++ ":" ++ MM ++ ":" ++ SS ++ "#") = ToNone).
    { destruct HH as [|x HH']; [congruence|].
      rewrite all_digits_cons in HHd. apply andb_true_iff in HHd.
      destruct HHd as [Hx _]. destruct (digit_not_sign x Hx) as [Ep Em].
      unfold response_route. cbn [append strncmp1_eq]. now rewrite Ep, Em. }
    split; [exact Hr|].
    rewrite dispatch_follows_route, Hr; [reflexivity|].
    apply valid_frame_iff.
    do 5 apply hash_terminated_app. now exists "".
Qed.

(** C10 at the Dec frame [+45*30:15#], which the RA processor takes (it
    stores 45 - 24 = 21 hours), and at the RA frame [12:30:45#], which no
    processor takes. *)
Lemma C10_dispatch_routing_witness :
  response_route "+45*30:15#" = ToRA /\
  result (Process_iOptronResponse "+45*30:15#" driver0) =
    option_map (fun x => (true, snd x))
      (result (Process_RA_Response "+45*30:15#" driver0)) /\
  response_route "12:30:45#" = ToNone /\
  result (Process_iOptronResponse "12:30:45#" driver0) = Some (true, driver0).
Proof.
  destruct (C10_dispatch_routing "+45*30:15#" driver0 "+"%char "45" "30" "15" "12")
    as [F [_ [_ [R [N U]]]]].
  - exists "+45*30:15". reflexivity.
  - left. reflexivity.
  - reflexivity.
  - discriminate.
  - split; [exact R|]. split; [exact F|]. split; [exact N | exact U].
Defined.

(** * Further properties of the driver *)

(** ** The framer *)

Section CStringFacts.

Lemma c_str_length (l : list ascii) :
  (String.length (c_str l) <= List.length l)%nat.
Proof.
  induction l as [|c r IH]; simpl; [lia|].
  destruct (Ascii.eqb c zero); simpl; lia.
Qed.

Lemma valid_frame_cons (c : ascii) (x : string) :
  valid_frame (String c x) =
  match x with EmptyString => Ascii.eqb c "#" | _ => valid_frame x end.
Proof. destruct x; reflexivity. Qed.

(** Bytes without ['#'] never make a frame the validity check accepts. *)
Lemma c_str_no_hash (body : list ascii) :
  Forall (fun c => c <> "#"%char) body -> valid_frame (c_str body) = false.
Proof.
  induction 1 as [|c r Hc Hr IH]; [reflexivity|].
  simpl. destruct (Ascii.eqb c zero); [reflexivity|].
  rewrite valid_frame_cons. destruct (c_str r) eqn:E; [|exact IH].
  now apply Ascii.eqb_neq.
Qed.

(** Bytes that end with the only ['#']: the frame is accepted exactly when
    no NUL was read, and then the buffer holds all of them. *)
Lemma c_str_hash_last (body : list ascii) :
  Forall (fun c => c <> "#"%char) body ->
  valid_frame (c_str (body ++ ["#"%char])) = true ->
  c_str (body ++ ["#"%char]) = string_of_list_ascii body ++ "#".
Proof.
  induction 1 as [|c r Hc Hr IH]; intros Hv; [reflexivity|].
  simpl in *. destruct (Ascii.eqb c zero); [discriminate|].
  rewrite valid_frame_cons in Hv.
  destruct (c_str (r ++ ["#"%char])) eqn:E.
  - apply Ascii.eqb_eq in Hv. contradiction.
  - f_equal. now apply IH.
Qed.

Lemma strchr_false_Forall (p : string) (x : ascii) :
  strchr p x = false -> Forall (fun c => c <> x) (list_ascii_of_string p).
Proof.
  induction p as [|a p IH]; simpl; intros H; [constructor|].
  destruct (Ascii.eqb a x) eqn:E; [discriminate|].
  constructor; [now apply Ascii.eqb_neq | now apply IH].
Qed.

Lemma Forall_strchr_false (l : list ascii) (x : ascii) :
  Forall (fun c => c <> x) l -> strchr (string_of_list_ascii l) x = false.
Proof.
  induction 1 as [|c r Hc Hr IH]; [reflexivity|].
  simpl. apply Ascii.eqb_neq in Hc. now rewrite Hc.
Qed.

Lemma c_str_no_nul (p : string) :
  strchr p zero = false -> c_str (list_ascii_of_string p) = p.
Proof.
  induction p as [|a p IH]; simpl; intros H; [reflexivity|].
  destruct (Ascii.eqb a zero); [discriminate|]. now rewrite IH.
Qed.

Lemma list_of_app (a b : string) :
  list_ascii_of_string (a ++ b) =
  (list_ascii_of_string a ++ list_ascii_of_string b)%list.
Proof. induction a as [|c a IH]; simpl; [reflexivity | now rewrite IH]. Qed.

Lemma list_of_length (a : string) :
  List.length (list_ascii_of_string a) = String.length a.
Proof. induction a as [|c a IH]; simpl; [reflexivity | now rewrite IH]. Qed.

End CStringFacts.

Section FramerFacts.

Variable T : Type.
Variable sys_write : T -> string -> Z * T.
Variable sys_read : T -> ReadEvent * T.

(** What the read loop adds: at most [room] bytes, none of them ['#']
    except possibly the last. *)
Lemma read_loop_shape : forall (room : nat) (t : T) (got : list ascii),
  exists body,
    Forall (fun c => c <> "#"%char) body /\
    (fst (read_loop T sys_read room t got) = (got ++ body)%list /\
       (List.length body <= room)%nat \/
     fst (read_loop T sys_read room t got) = (got ++ body ++ ["#"%char])%list /\
       (S (List.length body) <= room)%nat).
Proof.
  induction room as [|room IH]; intros t got.
  - exists []. split; [constructor|]. left. simpl. rewrite app_nil_r. auto.
  - simpl. destruct (sys_read t) as [ev t'].
    destruct ev as [c | | |];
      try (exists []; split; [constructor|]; left; simpl;
           rewrite app_nil_r; split; [reflexivity | lia]).
    destruct (Ascii.eqb c "#") eqn:E.
    + apply Ascii.eqb_eq in E. subst c.
      exists []. split; [constructor|]. right. simpl. split; [reflexivity | lia].
    + apply Ascii.eqb_neq in E.
      destruct (IH t' (got ++ [c])%list) as [body [Hb [[E1 L1] | [E1 L1]]]].
      * exists (c :: body). split; [now constructor|]. left.
        rewrite E1, <- app_assoc. simpl. split; [reflexivity | lia].
      * exists (c :: body). split; [now constructor|]. right.
        rewrite E1, <- app_assoc. simpl. split; [reflexivity | lia].
Qed.

(** A complete frame is read up to its ['#'] and no further. *)
Lemma read_loop_delivers : forall (p : list ascii) (room : nat) (t t2 : T)
    (got : list ascii),
  Forall (fun c => c <> "#"%char) p ->
  delivers T sys_read t (p ++ ["#"%char]) t2 ->
  (List.length p < room)%nat ->
  read_loop T sys_read room t got = ((got ++ p ++ ["#"%char])%list, t2).
Proof.
  induction p as [|c p IH]; intros room t t2 got Hp Hd Hl.
  - destruct room as [|room]; [simpl in Hl; lia|].
    simpl in Hd. destruct Hd as [t1 [Hr ->]].
    simpl. rewrite Hr. reflexivity.
  - destruct room as [|room]; [simpl in Hl; lia|].
    inversion Hp as [|? ? Hc Hp']; subst.
    simpl in Hd. destruct Hd as [t1 [Hr Hd]].
    simpl. rewrite Hr. apply Ascii.eqb_neq in Hc. rewrite Hc.
    rewrite (IH room t1 t2 (got ++ [c])%list Hp' Hd) by (simpl in Hl; lia).
    now rewrite <- app_assoc.
Qed.

(** A frame cut short by a time-out, a closed peer or a read error: what
    was read so far comes back. *)
Lemma read_loop_cut : forall (p : list ascii) (room : nat) (t t2 t3 : T)
    (ev : ReadEvent) (got : list ascii),
  Forall (fun c => c <> "#"%char) p ->
  delivers T sys_read t p t2 ->
  sys_read t2 = (ev, t3) ->
  (forall c, ev <> RdByte c) ->
  (List.length p < room)%nat ->
  read_loop T sys_read room t got = ((got ++ p)%list, t3).
Proof.
  induction p as [|c p IH]; intros room t t2 t3 ev got Hp Hd Hr Hev Hl.
  - destruct room as [|room]; [simpl in Hl; lia|].
    simpl in Hd. subst t2. simpl. rewrite Hr, app_nil_r.
    destruct ev as [c | | |]; try reflexivity. now contradiction (Hev c).
  - destruct room as [|room]; [simpl in Hl; lia|].
    inversion Hp as [|? ? Hc Hp']; subst.
    simpl in Hd. destruct Hd as [t1 [Hr1 Hd]].
    simpl. rewrite Hr1. apply Ascii.eqb_neq in Hc. rewrite Hc.
    rewrite (IH room t1 t2 t3 ev (got ++ [c])%list Hp' Hd Hr Hev)
      by (simpl in Hl; lia).
    now rewrite <- app_assoc.
Qed.

End FramerFacts.

(** X1.  For a buffer of at least one byte, whatever the transport does,
    [iOptron_SendCommand] returns fewer bytes than the buffer has, and the
    string left in the buffer is no longer than the count returned: with
    its terminating NUL the reply fits in [maxBufferLen] bytes. *)
Theorem framer_never_overruns (T : Type) (sys_write : T -> string -> Z * T)
    (sys_read : T -> ReadEvent * T) (t : T) (cmd : string) (maxBufferLen : nat) :
  (1 <= maxBufferLen)%nat ->
  let '((returnByteCnt, returnBuffer), _) :=
    iOptron_SendCommand T sys_write sys_read t cmd maxBufferLen in
  (returnByteCnt + 1 <= maxBufferLen)%nat /\
  (String.length returnBuffer <= returnByteCnt)%nat /\
  (String.length returnBuffer + 1 <= maxBufferLen)%nat.
Proof.
  intros Hm. unfold iOptron_SendCommand.
  destruct (sys_write t cmd) as [w t1].
  destruct (w <? 0); [simpl; lia|].
  destruct (read_loop_shape T sys_read (maxBufferLen - 1) t1 [])
    as [body [_ H]].
  destruct (read_loop T sys_read (maxBufferLen - 1) t1 []) as [got t2].
  simpl in H. pose proof (c_str_length got) as Hc.
  assert (Hg : (List.length got + 1 <= maxBufferLen)%nat).
  { destruct H as [[-> L] | [-> L]]; [lia|].
    rewrite List.length_app. simpl. lia. }
  lia.
Qed.

(** X1 on a scripted transport that keeps sending digits, with a buffer of
    five bytes: four bytes are stored, the NUL goes into the fifth. *)
Lemma framer_never_overruns_witness :
  fst (iOptron_SendCommand _ script_write script_read
         [RdByte "1"; RdByte "2"; RdByte "3"; RdByte "4"; RdByte "5"; RdByte "6"]%char
         ":GEP#" 5) = (4%nat, "1234") /\
  (String.length "1234" + 1 <= 5)%nat.
Proof.
  pose proof (framer_never_overruns _ script_write script_read
                [RdByte "1"; RdByte "2"; RdByte "3"; RdByte "4"; RdByte "5";
                 RdByte "6"]%char ":GEP#" 5 ltac:(lia)) as H.
  assert (E : iOptron_SendCommand _ script_write script_read
                [RdByte "1"; RdByte "2"; RdByte "3"; RdByte "4"; RdByte "5";
                 RdByte "6"]%char ":GEP#" 5 =
              ((4%nat, "1234"), [RdByte "5"; RdByte "6"]%char))
    by (vm_compute; reflexivity).
  rewrite E in H. split; [rewrite E; reflexivity|].
  destruct H as [_ [_ H]]. exact H.
Defined.

(** X2.  A reply that [CheckForValidResponse] accepts was read in full: the
    count returned is its length, and its last byte is its only ['#']. *)
Theorem framer_accepted_reply_shape (T : Type) (sys_write : T -> string -> Z * T)
    (sys_read : T -> ReadEvent * T) (t : T) (cmd : string) (maxBufferLen : nat) :
  let '((returnByteCnt, returnBuffer), _) :=
    iOptron_SendCommand T sys_write sys_read t cmd maxBufferLen in
  result (CheckForValidResponse returnBuffer) = Some true ->
  returnByteCnt = String.length returnBuffer /\
  exists p, returnBuffer = p ++ "#" /\ strchr p "#" = false.
Proof.
  unfold iOptron_SendCommand.
  destruct (sys_write t cmd) as [w t1].
  destruct (w <? 0); [intros H; discriminate H|].
  destruct (read_loop_shape T sys_read (maxBufferLen - 1) t1 [])
    as [body [Hb H]].
  destruct (read_loop T sys_read (maxBufferLen - 1) t1 []) as [got t2].
  simpl in H. unfold result, Buf.run. rewrite Check_run. cbn [option_map fst].
  intros [= Hv].
  destruct H as [[-> _] | [-> _]].
  - rewrite (c_str_no_hash body Hb) in Hv. discriminate.
  - rewrite (c_str_hash_last body Hb Hv). split.
    + rewrite List.length_app, length_app, <- list_of_length.
      rewrite list_ascii_of_string_of_list_ascii. reflexivity.
    + exists (string_of_list_ascii body). split; [reflexivity|].
      now apply Forall_strchr_false.
Qed.

(** X2 on a scripted transport that delivers [+12#] and then more bytes. *)
Lemma framer_accepted_reply_shape_witness :
  fst (iOptron_SendCommand _ script_write script_read
         [RdByte "+"; RdByte "1"; RdByte "2"; RdByte "#"; RdByte "9"]%char
         ":GEP#" 400) = (4%nat, "+12#") /\
  exists p, "+12#" = p ++ "#" /\ strchr p "#" = false.
Proof.
  pose proof (framer_accepted_reply_shape _ script_write script_read
                [RdByte "+"; RdByte "1"; RdByte "2"; RdByte "#"; RdByte "9"]%char
                ":GEP#" 400) as H.
  assert (E : iOptron_SendCommand _ script_write script_read
                [RdByte "+"; RdByte "1"; RdByte "2"; RdByte "#"; RdByte "9"]%char
                ":GEP#" 400 = ((4%nat, "+12#"), [RdByte "9"%char]))
    by (vm_compute; reflexivity).
  rewrite E in H. split; [rewrite E; reflexivity|].
  apply H. reflexivity.
Defined.

(** X3.  When the write does not fail and the transport then delivers a
    frame [p#] ([p] without ['#'] and without NUL) that fits in the buffer,
    [iOptron_SendCommand] returns exactly [p#] with its length, stops at the
    ['#'] (bytes after it stay unread), and the validity check accepts the
    reply. *)
Theorem framer_complete_frame (T : Type) (sys_write : T -> string -> Z * T)
    (sys_read : T -> ReadEvent * T) (t t1 t2 : T) (w : Z)
    (cmd p : string) (maxBufferLen : nat) :
  sys_write t cmd = (w, t1) ->
  0 <= w ->
  delivers T sys_read t1 (list_ascii_of_string (p ++ "#")) t2 ->
  strchr p "#" = false ->
  strchr p zero = false ->
  (String.length p + 1 < maxBufferLen)%nat ->
  iOptron_SendCommand T sys_write sys_read t cmd maxBufferLen =
    ((S (String.length p), p ++ "#"), t2) /\
  result (CheckForValidResponse (p ++ "#")) = Some true.
Proof.
  intros Hw Hpos Hd Hh Hz Hl. split.
  - unfold iOptron_SendCommand. rewrite Hw.
    destruct (Z.ltb_spec w 0); [lia|].
    rewrite list_of_app in Hd. change (list_ascii_of_string "#") with ["#"%char] in Hd.
    rewrite (read_loop_delivers T sys_read (list_ascii_of_string p)
               (maxBufferLen - 1) t1 t2 [] (strchr_false_Forall p _ Hh) Hd)
      by (rewrite list_of_length; lia).
    cbn [app]. f_equal. f_equal.
    + rewrite List.length_app, list_of_length. simpl. lia.
    + change ["#"%char] with (list_ascii_of_string "#").
      rewrite <- list_of_app. apply c_str_no_nul.
      clear -Hz. induction p as [|a p IH]; [reflexivity|].
      simpl in *. destruct (Ascii.eqb a zero); [discriminate | auto].
  - unfold result, Buf.run. rewrite Check_run, valid_frame_app. reflexivity.
Qed.

(** X3 on a scripted transport: the reply to [:GLS#] is read up to ['#'],
    the byte that follows is left for the next read. *)
Lemma framer_complete_frame_witness :
  iOptron_SendCommand _ script_write script_read
    [RdByte "+"; RdByte "1"; RdByte "#"; RdByte "9"]%char ":GLS#" 400 =
  ((3%nat, "+1#"), [RdByte "9"%char]).
Proof.
  apply (framer_complete_frame _ script_write script_read
           [RdByte "+"; RdByte "1"; RdByte "#"; RdByte "9"]%char
           [RdByte "+"; RdByte "1"; RdByte "#"; RdByte "9"]%char
           [RdByte "9"%char] 5 ":GLS#" "+1" 400).
  - reflexivity.
  - lia.
  - simpl. eexists; split; [reflexivity|].
    eexists; split; [reflexivity|].
    eexists; split; [reflexivity|]. reflexivity.
  - reflexivity.
  - reflexivity.
  - simpl. lia.
Defined.

(** X4.  When the reply stops before any ['#'] (a time-out, a closed peer
    or a read error, with room left in the buffer), [iOptron_SendCommand]
    returns the bytes read so far, and the validity check rejects them: a
    truncated reply is never decoded. *)
Theorem framer_truncated_reply_rejected (T : Type)
    (sys_write : T -> string -> Z * T) (sys_read : T -> ReadEvent * T)
    (t t1 t2 t3 : T) (w : Z) (ev : ReadEvent)
    (cmd : string) (p : list ascii) (maxBufferLen : nat) :
  sys_write t cmd = (w, t1) ->
  0 <= w ->
  delivers T sys_read t1 p t2 ->
  sys_read t2 = (ev, t3) ->
  (forall c, ev <> RdByte c) ->
  Forall (fun c => c <> "#"%char) p ->
  (List.length p + 1 < maxBufferLen)%nat ->
  iOptron_SendCommand T sys_write sys_read t cmd maxBufferLen =
    ((List.length p, c_str p), t3) /\
  result (CheckForValidResponse (c_str p)) = Some false.
Proof.
  intros Hw Hpos Hd Hr Hev Hp Hl. split.
  - unfold iOptron_SendCommand. rewrite Hw.
    destruct (Z.ltb_spec w 0); [lia|].
    rewrite (read_loop_cut T sys_read p (maxBufferLen - 1) t1 t2 t3 ev []
               Hp Hd Hr Hev) by lia.
    reflexivity.
  - unfold result, Buf.run. rewrite Check_run, (c_str_no_hash p Hp). reflexivity.
Qed.

(** X4 on a scripted transport that times out after [+12]. *)
Lemma framer_truncated_reply_rejected_witness :
  iOptron_SendCommand _ script_write script_read
    [RdByte "+"; RdByte "1"; RdByte "2"]%char ":GEP#" 400 =
    ((3%nat, "+12"), []) /\
  result (CheckForValidResponse "+12") = Some false.
Proof.
  apply (framer_truncated_reply_rejected _ script_write script_read
           [RdByte "+"; RdByte "1"; RdByte "2"]%char
           [RdByte "+"; RdByte "1"; RdByte "2"]%char [] []
           5 RdTimeout ":GEP#" ["+"; "1"; "2"]%char 400).
  - reflexivity.
  - lia.
  - simpl. eexists; split; [reflexivity|].
    eexists; split; [reflexivity|].
    eexists; split; [reflexivity|]. reflexivity.
  - reflexivity.
  - intros c H. discriminate H.
  - repeat constructor; discriminate.
  - simpl. lia.
Defined.

(** ** Replies to queued commands *)

Section ReplyFacts.

Lemma reply_keeps_refl (d : Driver) : reply_keeps d d.
Proof. repeat split. Qed.

(** [Process_RA_Response] returns on every string; it either leaves the
    driver alone or stores a right ascension in [0, 24), with the reply
    string when that is shorter than 32 bytes. *)
Lemma RA_total (s : string) (d : Driver) (tr : list nat) :
  exists d' new,
    Process_RA_Response s d tr = Some ((valid_frame s, d'), (new ++ tr)%list) /\
    (d' = d \/
     exists h, (0 <= h)%Q /\ (h < 24)%Q /\ valid_frame s = true /\
       result (iOptron_ParseRA s) = Some h /\
       d' = with_Prop (set_RightAscension h)
              (if (strlen s <? 32)%nat then set_RA_String s d else d)).
Proof.
  unfold Process_RA_Response.
  destruct (valid_frame s) eqn:Hv.
  - destruct (uniform_ParseRA s) as [h [new Hu]].
    destruct (Qle_bool 0 h && Qlt_bool h 24) eqn:Hr.
    + eexists. exists (new ++ check_reads s)%list.
      rewrite bind_Check, Hv. unfold Buf.bind. rewrite Hu, Hr.
      unfold Buf.ret. rewrite <- app_assoc. split; [reflexivity|].
      right. exists h. apply in_range_ra in Hr. destruct Hr as [H0 H24].
      repeat split; auto.
      unfold result, Buf.run. rewrite Hu. reflexivity.
    + exists d, (new ++ check_reads s)%list.
      rewrite bind_Check, Hv. unfold Buf.bind. rewrite Hu, Hr.
      unfold Buf.ret. rewrite <- app_assoc. auto.
  - exists d, (check_reads s). rewrite bind_Check, Hv. auto.
Qed.

(** The same for [Process_DEC_Response] and a declination in [-90, 90]. *)
Lemma DEC_total (s : string) (d : Driver) (tr : list nat) :
  exists d' new,
    Process_DEC_Response s d tr = Some ((valid_frame s, d'), (new ++ tr)%list) /\
    (d' = d \/
     exists g, (-90 <= g <= 90)%Q /\ valid_frame s = true /\
       result (iOptron_ParseDegMinSec s) = Some g /\
       d' = with_Prop (set_Declination g)
              (if (strlen s <? 32)%nat then set_DEC_String s d else d)).
Proof.
  unfold Process_DEC_Response.
  destruct (valid_frame s) eqn:Hv.
  - destruct (uniform_ParseDegMinSec s) as [g [new Hu]].
    destruct (Qle_bool (-90) g && Qle_bool g 90) eqn:Hr.
    + eexists. exists (new ++ check_reads s)%list.
      rewrite bind_Check, Hv. unfold Buf.bind. rewrite Hu, Hr.
      unfold Buf.ret. rewrite <- app_assoc. split; [reflexivity|].
      right. exists g. apply in_range_dec in Hr.
      repeat split; try tauto.
      unfold result, Buf.run. rewrite Hu. reflexivity.
    + exists d, (new ++ check_reads s)%list.
      rewrite bind_Check, Hv. unfold Buf.bind. rewrite Hu, Hr.
      unfold Buf.ret. rewrite <- app_assoc. auto.
  - exists d, (check_reads s). rewrite bind_Check, Hv. auto.
Qed.

Lemma RA_store_keeps (h : Q) (s : string) (d : Driver) :
  let d' := with_Prop (set_RightAscension h)
              (if (strlen s <? 32)%nat then set_RA_String s d else d) in
  reply_keeps d d' /\
  Declination (cTelescopeProp d') = Declination (cTelescopeProp d) /\
  (strings_fit d -> strings_fit d').
Proof.
  unfold strlen. destruct (Nat.ltb_spec (String.length s) 32);
    (split; [repeat split | split; [reflexivity|]]);
    unfold strings_fit; cbn; intros [A [B C]]; auto.
Qed.

Lemma DEC_store_keeps (g : Q) (s : string) (d : Driver) :
  let d' := with_Prop (set_Declination g)
              (if (strlen s <? 32)%nat then set_DEC_String s d else d) in
  reply_keeps d d' /\
  RightAscension (cTelescopeProp d') = RightAscension (cTelescopeProp d) /\
  (strings_fit d -> strings_fit d').
Proof.
  unfold strlen. destruct (Nat.ltb_spec (String.length s) 32);
    (split; [repeat split | split; [reflexivity|]]);
    unfold strings_fit; cbn; intros [A [B C]]; auto.
Qed.

(** The dispatcher returns on every string and changes at most the
    position and the coordinate strings. *)
Lemma dispatch_total (s : string) (d : Driver) (tr : list nat) :
  exists d' tr',
    Process_iOptronResponse s d tr = Some ((valid_frame s, d'), tr') /\
    reply_keeps d d' /\ (strings_fit d -> strings_fit d').
Proof.
  unfold Process_iOptronResponse. rewrite bind_Check.
  destruct (valid_frame s) eqn:Hv.
  - destruct (response_route s).
    + destruct (RA_total s d (check_reads s ++ tr)%list) as [d' [new [E H]]].
      exists d'. eexists. unfold Buf.bind. rewrite E. cbn [snd].
      unfold Buf.ret. split; [reflexivity|].
      destruct H as [-> | [h [_ [_ [_ [_ ->]]]]]].
      * split; [apply reply_keeps_refl | auto].
      * destruct (RA_store_keeps h s d) as [K [_ F]]. auto.
    + destruct (DEC_total s d (check_reads s ++ tr)%list) as [d' [new [E H]]].
      exists d'. eexists. unfold Buf.bind. rewrite E. cbn [snd].
      unfold Buf.ret. split; [reflexivity|].
      destruct H as [-> | [g [_ [_ [_ ->]]]]].
      * split; [apply reply_keeps_refl | auto].
      * destruct (DEC_store_keeps g s d) as [K [_ F]]. auto.
    + exists d. eexists. unfold Buf.ret. split; [reflexivity|].
      split; [apply reply_keeps_refl | auto].
  - exists d. eexists. unfold Buf.ret. split; [reflexivity|].
    split; [apply reply_keeps_refl | auto].
Qed.

End ReplyFacts.

(** ** Draining the queue *)

Section DrainFacts.

Variable T : Type.
Variable sys_write : T -> string -> Z * T.
Variable sys_read : T -> ReadEvent * T.

Lemma drain_keeps_refl (d : Driver) : drain_keeps d d.
Proof. repeat split. Qed.

Lemma drain_keeps_step (d d1 d2 : Driver) (q : list string) :
  reply_keeps d d1 -> drain_keeps (set_CmdQueue q d1) d2 -> drain_keeps d d2.
Proof.
  intros [[L1 [L2 [L3 [L4 [L5 [L6 [L7 _]]]]]]] [[F1 [F2 F3]] [R S]]]
         [K1 [K2 [K3 [K4 [K5 [K6 [K7 [[G1 [G2 G3]] [R' S']]]]]]]]].
  cbn in *. unfold drain_keeps, same_flags.
  repeat split; congruence.
Qed.

Lemma handle_unusable_keeps (d d1 : Driver) (q : list string) :
  reply_keeps d d1 ->
  handle_unusable (set_CmdQueue q d1) = handle_unusable d.
Proof.
  intros [[_ [_ [L3 [L4 [L5 _]]]]] _].
  unfold handle_unusable. cbn. now rewrite L3, L4, L5.
Qed.

Lemma strings_fit_set_queue (d : Driver) (q : list string) :
  strings_fit d -> strings_fit (set_CmdQueue q d).
Proof. intros H. exact H. Qed.

(** With a usable handle the loop empties the queue, handing every command
    to the transport once, first in first out. *)
Lemma drain_loop_spec : forall (q : list string) (t : T) (d : Driver)
    (sent : list string) (tr : list nat),
  handle_unusable d = false ->
  cCmdQueue d = q ->
  exists d' t' tr',
    drain_loop T sys_write sys_read q t d sent tr =
      Some ((true, d', t', (sent ++ q)%list), tr') /\
    cCmdQueue d' = [] /\
    drain_keeps d d' /\
    (strings_fit d -> strings_fit d').
Proof.
  induction q as [|cmd q IH]; intros t d sent tr Hh Hq.
  - exists d, t, tr. simpl. rewrite app_nil_r.
    split; [reflexivity|]. split; [exact Hq|].
    split; [apply drain_keeps_refl | auto].
  - cbn [drain_loop]. rewrite Hh.
    destruct (iOptron_SendCommand T sys_write sys_read t cmd 400)
      as [[cnt buf] t1].
    destruct (0 <? cnt)%nat.
    + destruct (dispatch_total buf d tr) as [d1 [tr1 [E [K F]]]].
      destruct (IH t1 (set_CmdQueue q d1) (sent ++ [cmd])%list tr1)
        as [d' [t' [tr' [E' [Q' [K' F']]]]]].
      * rewrite (handle_unusable_keeps d d1 q K). exact Hh.
      * reflexivity.
      * exists d', t', tr'. unfold Buf.bind at 1. unfold Buf.bind at 1.
        rewrite E. cbn [snd]. unfold Buf.ret at 1.
        rewrite E', <- app_assoc. split; [reflexivity|].
        split; [exact Q'|]. split; [exact (drain_keeps_step d d1 d' q K K')|].
        intros Hf. apply F'. apply strings_fit_set_queue. auto.
    + destruct (IH t1 (set_CmdQueue q d) (sent ++ [cmd])%list tr)
        as [d' [t' [tr' [E' [Q' [K' F']]]]]].
      * exact Hh.
      * reflexivity.
      * exists d', t', tr'. rewrite bind_ret.
        rewrite E', <- app_assoc. split; [reflexivity|].
        split; [exact Q'|].
        split; [exact (drain_keeps_step d d d' q (reply_keeps_refl d) K')|].
        intros Hf. apply F'. apply strings_fit_set_queue. auto.
Qed.

End DrainFacts.

(** X5.  On an open connection with a usable descriptor,
    [SendCmdsFromQueue] returns true whatever the transport answers, leaves
    the queue empty, and has handed the queued commands to the transport
    once each, in the order they were queued.  The replies change neither
    the motion flags, the tracking rate, the validity flag nor the error
    counter. *)
Theorem drain_sends_queue_in_order (T : Type) (sys_write : T -> string -> Z * T)
    (sys_read : T -> ReadEvent * T) (t : T) (d : Driver) :
  cTelescopeConnectionOpen d = true ->
  handle_unusable d = false ->
  exists d' t',
    result (SendCmdsFromQueue T sys_write sys_read t d) =
      Some (true, d', t', cCmdQueue d) /\
    cCmdQueue d' = [] /\
    drain_keeps d d'.
Proof.
  intros Ho Hh. unfold result, Buf.run, SendCmdsFromQueue. rewrite Ho.
  destruct (drain_loop_spec T sys_write sys_read (cCmdQueue d) t d [] [] Hh eq_refl)
    as [d' [t' [tr' [E [Q [K _]]]]]].
  exists d', t'. cbn [negb]. rewrite E. auto.
Qed.

(** X5 on a mount that answers [1] (no ['#']) to each of the three commands
    queued by a slew: all three are sent, in order. *)
Lemma drain_sends_queue_in_order_witness :
  exists d' t',
    result (SendCmdsFromQueue _ script_write script_read
              [RdByte "1"%char; RdTimeout; RdByte "1"%char; RdTimeout;
               RdByte "1"%char; RdTimeout]
              (snd (Telescope_SlewToRA_DEC (25 # 2) (- 133 # 4) driver0))) =
      Some (true, d', t', [":SRA067500000#"; ":Sds-11970000#"; ":MS1#"]) /\
    cCmdQueue d' = [].
Proof.
  destruct (drain_sends_queue_in_order _ script_write script_read
              [RdByte "1"%char; RdTimeout; RdByte "1"%char; RdTimeout;
               RdByte "1"%char; RdTimeout]
              (snd (Telescope_SlewToRA_DEC (25 # 2) (- 133 # 4) driver0))
              eq_refl eq_refl) as [d' [t' [R [Q _]]]].
  exists d', t'. split; [exact R | exact Q].
Defined.

(** X6.  When the connection is not open, or when commands are waiting but
    the descriptor is unusable, [SendCmdsFromQueue] returns false at once:
    nothing is handed to the transport and the driver, queue included, is
    unchanged. *)
Theorem drain_without_transport (T : Type) (sys_write : T -> string -> Z * T)
    (sys_read : T -> ReadEvent * T) (t : T) (d : Driver) :
  cTelescopeConnectionOpen d = false \/
  (handle_unusable d = true /\ cCmdQueue d <> []) ->
  result (SendCmdsFromQueue T sys_write sys_read t d) = Some (false, d, t, []).
Proof.
  unfold result, Buf.run, SendCmdsFromQueue.
  intros [Ho | [Hh Hq]].
  - rewrite Ho. reflexivity.
  - destruct (cTelescopeConnectionOpen d); [|reflexivity].
    destruct (cCmdQueue d) as [|cmd q]; [congruence|].
    cbn [negb drain_loop]. rewrite Hh. reflexivity.
Qed.

(** X6 on a serial driver whose descriptor is -1. *)
Lemma drain_without_transport_witness :
  result (SendCmdsFromQueue _ script_write script_read [RdByte "1"%char]
            (set_CmdQueue [":Q#"] (set_FileDesc (-1) driver0))) =
  Some (false, set_CmdQueue [":Q#"] (set_FileDesc (-1) driver0),
        [RdByte "1"%char], []).
Proof.
  apply drain_without_transport. right. split; [reflexivity | discriminate].
Defined.

(** ** Intent calls *)

Section IntentFacts.

Lemma connected_open (d : Driver) :
  Connected d = true -> cTelescopeConnectionOpen d = true ->
  not_connected d = false.
Proof. intros H1 H2. unfold not_connected. now rewrite H1, H2. Qed.

Lemma AddCmdToQueue_queue (c : string) (d : Driver) :
  cTelescopeConnectionOpen d = true ->
  cCmdQueue (AddCmdToQueue c d) = (cCmdQueue d ++ [c])%list.
Proof. intros H. now rewrite AddCmdToQueue_open. Qed.

Lemma AddCmdToQueue_prop (c : string) (d : Driver) :
  cTelescopeProp (AddCmdToQueue c d) = cTelescopeProp d.
Proof. unfold AddCmdToQueue. destruct (cTelescopeConnectionOpen d); reflexivity. Qed.

Lemma slew_keeps_connection (ra dec : Q) (d : Driver) :
  Connected d = true -> cTelescopeConnectionOpen d = true ->
  Connected (snd (Telescope_SlewToRA_DEC ra dec d)) = true /\
  cTelescopeConnectionOpen (snd (Telescope_SlewToRA_DEC ra dec d)) = true.
Proof.
  intros Hc Ho. unfold Telescope_SlewToRA_DEC. rewrite Hc, Ho.
  cbn [negb snd].
  rewrite (AddCmdToQueue_open _ d Ho).
  rewrite (AddCmdToQueue_open _ (set_CmdQueue _ d)) by exact Ho.
  rewrite (AddCmdToQueue_open _ (set_CmdQueue _ (set_CmdQueue _ d))) by exact Ho.
  cbn. auto.
Qed.

End IntentFacts.

(** The guard shared by the ten intent calls. *)
Lemma intents_guard (d : Driver) (ra dec rate : Q) (axis kRA kDEC : Z)
    (on : bool) (r : TYPE_DriveRates) :
  Connected d = false \/ cTelescopeConnectionOpen d = false ->
  Telescope_AbortSlew d = (kASCOM_Err_NotConnected, d) /\
  Telescope_FindHome d = (kASCOM_Err_NotConnected, d) /\
  Telescope_MoveAxis kRA kDEC axis rate d = (kASCOM_Err_NotConnected, d) /\
  Telescope_Park d = (kASCOM_Err_NotConnected, d) /\
  Telescope_SetPark d = (kASCOM_Err_NotConnected, d) /\
  Telescope_SlewToRA_DEC ra dec d = (kASCOM_Err_NotConnected, d) /\
  Telescope_SyncToRA_DEC ra dec d = (kASCOM_Err_NotConnected, d) /\
  Telescope_TrackingOnOff on d = (kASCOM_Err_NotConnected, d) /\
  Telescope_TrackingRate r d = (kASCOM_Err_NotConnected, d) /\
  Telescope_UnPark d = (kASCOM_Err_NotConnected, d).
Proof.
  intros H.
  assert (N : not_connected d = true).
  { unfold not_connected. destruct H as [-> | ->]; [reflexivity|].
    destruct (Connected d); reflexivity. }
  unfold Telescope_AbortSlew, Telescope_FindHome, Telescope_MoveAxis,
    Telescope_Park, Telescope_SetPark, Telescope_TrackingOnOff,
    Telescope_TrackingRate, Telescope_UnPark,
    Telescope_SlewToRA_DEC, Telescope_SyncToRA_DEC.
  rewrite N.
  destruct H as [-> | ->]; repeat split; destruct (Connected d); reflexivity.
Qed.


(** X7.  On a driver that is not connected, or whose connection is not
    open, every intent call (abort, find home, move axis, park, set park,
    slew, sync, tracking on/off, tracking rate, unpark) returns
    [kASCOM_Err_NotConnected] and leaves the driver as it was: no command
    is queued and no flag changes. *)
Theorem intents_need_connection (d : Driver) (ra dec rate : Q) (axis kRA kDEC : Z)
    (on : bool) (r : TYPE_DriveRates) :
  Connected d = false \/ cTelescopeConnectionOpen d = false ->
  Telescope_AbortSlew d = (kASCOM_Err_NotConnected, d) /\
  Telescope_FindHome d = (kASCOM_Err_NotConnected, d) /\
  Telescope_MoveAxis kRA kDEC axis rate d = (kASCOM_Err_NotConnected, d) /\
  Telescope_Park d = (kASCOM_Err_NotConnected, d) /\
  Telescope_SetPark d = (kASCOM_Err_NotConnected, d) /\
  Telescope_SlewToRA_DEC ra dec d = (kASCOM_Err_NotConnected, d) /\
  Telescope_SyncToRA_DEC ra dec d = (kASCOM_Err_NotConnected, d) /\
  Telescope_TrackingOnOff on d = (kASCOM_Err_NotConnected, d) /\
  Telescope_TrackingRate r d = (kASCOM_Err_NotConnected, d) /\
  Telescope_UnPark d = (kASCOM_Err_NotConnected, d).
Proof.
  exact (intents_guard d ra dec rate axis kRA kDEC on r).
Qed.

(** X7 on a driver that is connected but whose connection was closed. *)
Lemma intents_need_connection_witness :
  Telescope_SlewToRA_DEC 1 1 (set_ConnectionOpen false driver0) =
    (kASCOM_Err_NotConnected, set_ConnectionOpen false driver0) /\
  Telescope_Park (set_ConnectionOpen false driver0) =
    (kASCOM_Err_NotConnected, set_ConnectionOpen false driver0).
Proof.
  destruct (intents_need_connection (set_ConnectionOpen false driver0)
              1 1 0 0 0 1 true kDriveRate_driveSidereal (or_intror eq_refl))
    as [_ [_ [_ [P [_ [S _]]]]]].
  split; [exact S | exact P].
Defined.

(** X8.  On an open connection an abort discards every command still
    queued: afterwards the queue holds [:Q#] alone and the slewing flag is
    off.  In particular an abort issued after a slew removes the slew's
    three commands if they have not been sent yet. *)
Theorem abort_clears_queue (d : Driver) (ra dec : Q) :
  Connected d = true ->
  cTelescopeConnectionOpen d = true ->
  fst (Telescope_AbortSlew d) = kASCOM_Err_Success /\
  cCmdQueue (snd (Telescope_AbortSlew d)) = [":Q#"] /\
  Slewing (cTelescopeProp (snd (Telescope_AbortSlew d))) = false /\
  cCmdQueue (snd (Telescope_AbortSlew (snd (Telescope_SlewToRA_DEC ra dec d))))
    = [":Q#"].
Proof.
  intros Hc Ho.
  assert (A : forall e, Connected e = true -> cTelescopeConnectionOpen e = true ->
            fst (Telescope_AbortSlew e) = kASCOM_Err_Success /\
            cCmdQueue (snd (Telescope_AbortSlew e)) = [":Q#"] /\
            Slewing (cTelescopeProp (snd (Telescope_AbortSlew e))) = false).
  { intros e He Hoe. unfold Telescope_AbortSlew.
    rewrite (connected_open e He Hoe). cbn [fst snd].
    rewrite AddCmdToQueue_open by exact Hoe. repeat split. }
  destruct (A d Hc Ho) as [A1 [A2 A3]].
  destruct (slew_keeps_connection ra dec d Hc Ho) as [Sc So].
  destruct (A _ Sc So) as [_ [B2 _]].
  auto.
Qed.

Lemma abort_clears_queue_witness :
  cCmdQueue (snd (Telescope_AbortSlew
                    (snd (Telescope_SlewToRA_DEC 1 1 driver0)))) = [":Q#"].
Proof.
  exact (proj2 (proj2 (proj2 (abort_clears_queue driver0 1 1 eq_refl eq_refl)))).
Defined.

(** X9.  No intent call, whatever its arguments and whether it succeeds or
    not, touches the stored position, the validity flag, the error counter,
    the connection fields or the stored reply strings; and every intent
    call other than abort keeps what was queued in front, in order, adding
    its own commands behind. *)
Theorem intents_keep_state_and_queue_order (d : Driver) (ra dec rate : Q)
    (axis kRA kDEC : Z) (on : bool) (r : TYPE_DriveRates) :
  intent_keeps d (snd (Telescope_AbortSlew d)) /\
  (intent_keeps d (snd (Telescope_FindHome d)) /\
   queue_extends d (snd (Telescope_FindHome d))) /\
  (intent_keeps d (snd (Telescope_MoveAxis kRA kDEC axis rate d)) /\
   queue_extends d (snd (Telescope_MoveAxis kRA kDEC axis rate d))) /\
  (intent_keeps d (snd (Telescope_Park d)) /\
   queue_extends d (snd (Telescope_Park d))) /\
  (intent_keeps d (snd (Telescope_SetPark d)) /\
   queue_extends d (snd (Telescope_SetPark d))) /\
  (intent_keeps d (snd (Telescope_SlewToRA_DEC ra dec d)) /\
   queue_extends d (snd (Telescope_SlewToRA_DEC ra dec d))) /\
  (intent_keeps d (snd (Telescope_SyncToRA_DEC ra dec d)) /\
   queue_extends d (snd (Telescope_SyncToRA_DEC ra dec d))) /\
  (intent_keeps d (snd (Telescope_TrackingOnOff on d)) /\
   queue_extends d (snd (Telescope_TrackingOnOff on d))) /\
  (intent_keeps d (snd (Telescope_TrackingRate r d)) /\
   queue_extends d (snd (Telescope_TrackingRate r d))) /\
  (intent_keeps d (snd (Telescope_UnPark d)) /\
   queue_extends d (snd (Telescope_UnPark d))).
Proof.
  destruct d as [p c o ty so fd iv ec rs ds ss q].
  unfold Telescope_AbortSlew, Telescope_FindHome, Telescope_MoveAxis,
    Telescope_Park, Telescope_SetPark, Telescope_TrackingOnOff,
    Telescope_TrackingRate, Telescope_UnPark,
    Telescope_SlewToRA_DEC, Telescope_SyncToRA_DEC,
    not_connected, AddCmdToQueue, queue_extends.
  destruct c, o; cbn;
    destruct (axis =? kRA); destruct (axis =? kDEC);
    destruct (Qlt_bool 0 rate); destruct (Qlt_bool rate 0); destruct on; cbn;
    repeat match goal with |- _ /\ _ => split end;
    try (unfold intent_keeps, same_position; cbn; repeat split; reflexivity);
    first [ exists []; rewrite app_nil_r; reflexivity
          | eexists; rewrite <- ?app_assoc; reflexivity ].
Qed.

(** X10.  [Telescope_MoveAxis] on an open connection, [kAxis_RA] and
    [kAxis_DEC] being different numbers.  On the RA axis it succeeds and
    appends exactly one command: [:mw#] for a positive rate, [:me#] for a
    negative one and the stop command [:qR#] for a zero rate; on the DEC
    axis the commands are [:ms#], [:mn#] and [:qD#].  The slewing flag is
    left on exactly when the rate is not zero.  For any other axis number
    it returns [kASCOM_Err_InvalidValue] and changes nothing. *)
Theorem move_axis_behaviour (kRA kDEC axis : Z) (rate : Q) (d : Driver) :
  kRA <> kDEC ->
  Connected d = true ->
  cTelescopeConnectionOpen d = true ->
  let r := Telescope_MoveAxis kRA kDEC axis rate d in
  let queued (plus minus stop : string) :=
    fst r = kASCOM_Err_Success /\
    Slewing (cTelescopeProp (snd r)) = negb (Qeq_bool rate 0) /\
    ((0 < rate)%Q -> cCmdQueue (snd r) = (cCmdQueue d ++ [plus])%list) /\
    ((rate < 0)%Q -> cCmdQueue (snd r) = (cCmdQueue d ++ [minus])%list) /\
    ((rate == 0)%Q -> cCmdQueue (snd r) = (cCmdQueue d ++ [stop])%list) in
  (axis = kRA -> queued ":mw#" ":me#" ":qR#") /\
  (axis = kDEC -> queued ":ms#" ":mn#" ":qD#") /\
  (axis <> kRA -> axis <> kDEC -> r = (kASCOM_Err_InvalidValue, d)).
Proof.
  intros Hne Hc Ho. cbv zeta.
  unfold Telescope_MoveAxis. rewrite (connected_open d Hc Ho).
  assert (Hn : Qlt_bool 0 rate = false -> Qlt_bool rate 0 = false ->
               negb (Qeq_bool rate 0) = false).
  { intros L1 L2. apply Qlt_bool_false in L1. apply Qlt_bool_false in L2.
    apply negb_false_iff. apply Qeq_bool_iff. now apply Qle_antisym. }
  assert (Hs : forall c1 c2 c3 : string,
    let r := (let d0 := with_Prop (set_Slewing (negb (Qeq_bool rate 0))) d in
              if Qlt_bool 0 rate then (kASCOM_Err_Success, AddCmdToQueue c1 d0)
              else if Qlt_bool rate 0 then (kASCOM_Err_Success, AddCmdToQueue c2 d0)
              else (kASCOM_Err_Success,
                    with_Prop (set_Slewing false) (AddCmdToQueue c3 d0))) in
    fst r = kASCOM_Err_Success /\
    Slewing (cTelescopeProp (snd r)) = negb (Qeq_bool rate 0) /\
    ((0 < rate)%Q -> cCmdQueue (snd r) = (cCmdQueue d ++ [c1])%list) /\
    ((rate < 0)%Q -> cCmdQueue (snd r) = (cCmdQueue d ++ [c2])%list) /\
    ((rate == 0)%Q -> cCmdQueue (snd r) = (cCmdQueue d ++ [c3])%list)).
  { intros c1 c2 c3 r. unfold r. clear r.
    destruct (Qlt_bool 0 rate) eqn:L1; [|destruct (Qlt_bool rate 0) eqn:L2].
    - apply Qlt_bool_iff in L1.
      split; [reflexivity|]. split; [cbn [snd]; now rewrite AddCmdToQueue_prop|].
      split; [intros _; now rewrite AddCmdToQueue_open|].
      split; intros H; exfalso; lra.
    - apply Qlt_bool_false in L1. apply Qlt_bool_iff in L2.
      split; [reflexivity|]. split; [cbn [snd]; now rewrite AddCmdToQueue_prop|].
      split; [intros H; exfalso; lra|].
      split; [intros _; now rewrite AddCmdToQueue_open|].
      intros H; exfalso; lra.
    - split; [reflexivity|].
      split; [rewrite (Hn eq_refl eq_refl); reflexivity|].
      apply Qlt_bool_false in L1. apply Qlt_bool_false in L2.
      split; [intros H; exfalso; lra|].
      split; [intros H; exfalso; lra|].
      intros _. cbn [snd]. now rewrite AddCmdToQueue_open. }
  split; [|split].
  - intros ->. rewrite Z.eqb_refl. apply Hs.
  - intros ->. destruct (Z.eqb_spec kDEC kRA) as [E | _]; [congruence|].
    rewrite Z.eqb_refl. apply Hs.
  - intros N1 N2.
    destruct (Z.eqb_spec axis kRA); [contradiction|].
    destruct (Z.eqb_spec axis kDEC); [contradiction|]. reflexivity.
Qed.

(** X10 with [kAxis_RA = 0], [kAxis_DEC = 1]: stopping the DEC axis, moving
    the RA axis at a negative rate, and asking for axis 2. *)
Lemma move_axis_behaviour_witness :
  cCmdQueue (snd (Telescope_MoveAxis 0 1 1 0 driver0)) = [":qD#"] /\
  Slewing (cTelescopeProp (snd (Telescope_MoveAxis 0 1 1 0 driver0))) = false /\
  cCmdQueue (snd (Telescope_MoveAxis 0 1 0 (- 1 # 2) driver0)) = [":me#"] /\
  Telescope_MoveAxis 0 1 2 (1 # 2) driver0 = (kASCOM_Err_InvalidValue, driver0).
Proof.
  destruct (move_axis_behaviour 0 1 1 0 driver0 ltac:(discriminate) eq_refl eq_refl)
    as [_ [V _]].
  destruct (move_axis_behaviour 0 1 0 (- 1 # 2) driver0 ltac:(discriminate)
              eq_refl eq_refl) as [W _].
  destruct (move_axis_behaviour 0 1 2 (1 # 2) driver0 ltac:(discriminate)
              eq_refl eq_refl) as [_ [_ I]].
  destruct (V eq_refl) as [_ [V2 [_ [_ V5]]]].
  destruct (W eq_refl) as [_ [_ [_ [W4 _]]]].
  split; [apply V5; reflexivity|]. split; [exact V2|].
  split; [apply W4; reflexivity|]. apply I; discriminate.
Defined.

(** ** Tracking rate, disconnect and the poll *)

Section RateFacts.

Lemma apply_trackingRate_other (x : Z) (p : TelescopeProp) :
  x < 0 \/ 3 < x ->
  apply_trackingRate x p = set_TrackingRate kDriveRate_driveSidereal p.
Proof.
  intros H. unfold apply_trackingRate.
  destruct x as [|q|q]; [lia | | reflexivity].
  destruct q as [[q|q|]|[q|q|]|]; try reflexivity; lia.
Qed.

Lemma GLS_store_rate (c18 c19 : ascii) (s : string) (d : Driver) :
  exists p,
    cTelescopeProp (GLS_store c18 c19 s d) =
    apply_trackingRate (minus_zero c19) p.
Proof. unfold GLS_store, with_Prop. cbn [cTelescopeProp]. eexists. reflexivity. Qed.

End RateFacts.

(** X11.  The digit that [Telescope_TrackingRate] puts in [:RTn#] is the
    digit [Process_GLS_Response] reads back: a valid status frame of at
    least 23 bytes whose offset 19 holds the digit sent for rate [r] sets
    the tracking rate to [r]. *)
Theorem tracking_rate_digit_roundtrip (r : TYPE_DriveRates) (s : string) (d : Driver) :
  hash_terminated s ->
  (23 <= String.length s)%nat ->
  String.get 19 s = String.get 3 (RT_command r) ->
  exists d',
    result (Process_GLS_Response s d) = Some (true, d') /\
    TrackingRate (cTelescopeProp d') = r.
Proof.
  intros Hh Hl H19. apply valid_frame_iff in Hh.
  destruct (get_lt s 18) as [c18 H18]; [lia|].
  destruct (get_lt s 19) as [c19 H19']; [lia|].
  exists (GLS_store c18 c19 s d). split.
  { unfold result, Buf.run.
    now rewrite (GLS_run_long s d c18 c19 [] Hh Hl H18 H19'). }
  destruct (GLS_store_rate c18 c19 s d) as [p ->].
  rewrite H19' in H19.
  destruct r; cbn in H19; injection H19 as ->; reflexivity.
Qed.

Lemma tracking_rate_digit_roundtrip_witness :
  exists d',
    result (Process_GLS_Response "+1234567890123456712511#" driver0)
      = Some (true, d') /\
    TrackingRate (cTelescopeProp d') = kDriveRate_driveSolar.
Proof.
  apply (tracking_rate_digit_roundtrip kDriveRate_driveSolar).
  - exists "+1234567890123456712511". reflexivity.
  - simpl. lia.
  - reflexivity.
Defined.

(** X12.  A valid status frame of at least 23 bytes whose offset 19 is not
    one of ['0'] to ['3'] (the digit 4, "custom", included) sets the
    tracking rate to sidereal, whatever rate was stored. *)
Theorem unknown_rate_digit_is_sidereal (s : string) (d : Driver) (c19 : ascii) :
  hash_terminated s ->
  (23 <= String.length s)%nat ->
  String.get 19 s = Some c19 ->
  (nat_of_ascii c19 < 48 \/ 51 < nat_of_ascii c19)%nat ->
  exists d',
    result (Process_GLS_Response s d) = Some (true, d') /\
    TrackingRate (cTelescopeProp d') = kDriveRate_driveSidereal.
Proof.
  intros Hh Hl H19 Hc. apply valid_frame_iff in Hh.
  destruct (get_lt s 18) as [c18 H18]; [lia|].
  exists (GLS_store c18 c19 s d). split.
  { unfold result, Buf.run.
    now rewrite (GLS_run_long s d c18 c19 [] Hh Hl H18 H19). }
  destruct (GLS_store_rate c18 c19 s d) as [p ->].
  rewrite apply_trackingRate_other; [reflexivity|].
  unfold minus_zero. lia.
Qed.

Lemma unknown_rate_digit_is_sidereal_witness :
  exists d',
    result (Process_GLS_Response "+1234567890123456714511#"
              (with_Prop (set_TrackingRate kDriveRate_driveKing) driver0))
      = Some (true, d') /\
    TrackingRate (cTelescopeProp d') = kDriveRate_driveSidereal.
Proof.
  apply (unknown_rate_digit_is_sidereal _ _ "4"%char).
  - exists "+1234567890123456714511". reflexivity.
  - simpl. lia.
  - reflexivity.
  - right. apply Nat.ltb_lt. reflexivity.
Defined.

(** X13.  After [AlpacaDisConnect], whatever the base-class call did, the
    driver is disconnected with an empty queue, a zero error counter and
    the position marked not valid; from then on every intent call returns
    [kASCOM_Err_NotConnected], and the poll and the queue drain return
    false without handing anything to the transport (its state is the one
    they were given) or changing the driver. *)
Theorem disconnect_stops_everything (base : Driver -> Driver) (d : Driver)
    (ra dec rate : Q) (axis kRA kDEC : Z) (on : bool) (r : TYPE_DriveRates)
    (T : Type) (sys_write : T -> string -> Z * T)
    (sys_read : T -> ReadEvent * T) (t : T) :
  let d' := snd (AlpacaDisConnect base d) in
  fst (AlpacaDisConnect base d) = true /\
  Connected d' = false /\
  cTelescopeConnectionOpen d' = false /\
  cTelescopeInfoValid d' = false /\
  cIOptron_CommErrCnt d' = 0 /\
  cCmdQueue d' = [] /\
  (cDeviceConnType d' <> kDevCon_Custom -> handle_unusable d' = true) /\
  Telescope_AbortSlew d' = (kASCOM_Err_NotConnected, d') /\
  Telescope_FindHome d' = (kASCOM_Err_NotConnected, d') /\
  Telescope_MoveAxis kRA kDEC axis rate d' = (kASCOM_Err_NotConnected, d') /\
  Telescope_Park d' = (kASCOM_Err_NotConnected, d') /\
  Telescope_SetPark d' = (kASCOM_Err_NotConnected, d') /\
  Telescope_SlewToRA_DEC ra dec d' = (kASCOM_Err_NotConnected, d') /\
  Telescope_SyncToRA_DEC ra dec d' = (kASCOM_Err_NotConnected, d') /\
  Telescope_TrackingOnOff on d' = (kASCOM_Err_NotConnected, d') /\
  Telescope_TrackingRate r d' = (kASCOM_Err_NotConnected, d') /\
  Telescope_UnPark d' = (kASCOM_Err_NotConnected, d') /\
  result (SendCmdsPeriodic T sys_write sys_read t d') = Some (false, d', t) /\
  result (SendCmdsFromQueue T sys_write sys_read t d') = Some (false, d', t, []).
Proof.
  intros d'.
  assert (Hc : Connected d' = false) by reflexivity.
  assert (Ho : cTelescopeConnectionOpen d' = false) by reflexivity.
  pose proof (intents_guard d' ra dec rate axis kRA kDEC on r (or_introl Hc)) as G.
  assert (Hh : cDeviceConnType d' <> kDevCon_Custom -> handle_unusable d' = true).
  { unfold d', AlpacaDisConnect. cbn [snd]. set (b := base d).
    destruct (cDeviceConnType b) eqn:E.
    - destruct (Z.ltb_spec 0 (cSocket_desc b)) as [L | L];
        unfold handle_unusable; cbn; rewrite E; intros _;
        [reflexivity | apply Z.leb_le; lia].
    - destruct (Z.leb_spec 0 (cDeviceConnFileDesc b)) as [L | L];
        unfold handle_unusable; cbn; rewrite E; intros _;
        [reflexivity | apply Z.ltb_lt; lia].
    - destruct (Z.leb_spec 0 (cDeviceConnFileDesc b)) as [L | L];
        unfold handle_unusable; cbn; rewrite E; intros _;
        [reflexivity | apply Z.ltb_lt; lia].
    - unfold handle_unusable; cbn. rewrite E. intros Hn. congruence. }
  assert (Hp : result (SendCmdsPeriodic T sys_write sys_read t d')
               = Some (false, d', t)).
  { unfold result, Buf.run, SendCmdsPeriodic. rewrite Ho. reflexivity. }
  assert (Hq : result (SendCmdsFromQueue T sys_write sys_read t d')
               = Some (false, d', t, [])).
  { unfold result, Buf.run, SendCmdsFromQueue. rewrite Ho. reflexivity. }
  repeat match goal with |- _ /\ _ => split end;
    first [exact Hh | exact Hp | exact Hq | reflexivity | apply G].
Qed.

Section PollOutcome.

Variable T : Type.
Variable sys_write : T -> string -> Z * T.
Variable sys_read : T -> ReadEvent * T.
Variables (t : T) (d : Driver).
Hypothesis Hopen : cTelescopeConnectionOpen d = true.
Hypothesis Hhandle : handle_unusable d = false.

(** A [:GEP#] reply that ends with ['#']: the cycle reports success, marks
    the position valid and leaves the counter alone. *)
Lemma poll_valid_reply :
  valid_frame (snd (fst (iOptron_SendCommand T sys_write sys_read t ":GEP#" 400)))
    = true ->
  exists d' t',
    result (SendCmdsPeriodic T sys_write sys_read t d) = Some (true, d', t') /\
    cIOptron_CommErrCnt d' = cIOptron_CommErrCnt d /\
    cTelescopeInfoValid d' = true.
Proof.
  intros Hv.
  assert (Hc : (0 <? fst (fst (iOptron_SendCommand T sys_write sys_read t
                                  ":GEP#" 400)))%nat = true).
  { apply Nat.ltb_lt.
    destruct (fst (fst (iOptron_SendCommand T sys_write sys_read t ":GEP#" 400)))
      eqn:E; [|lia].
    rewrite (send_nothing T sys_write sys_read t ":GEP#" 400 E) in Hv.
    discriminate Hv. }
  unfold result, Buf.run, SendCmdsPeriodic. rewrite Hopen. cbn [negb].
  rewrite Hhandle.
  destruct (iOptron_SendCommand T sys_write sys_read t ":GEP#" 400)
    as [[cnt buf] t1]. cbn [fst snd] in Hc, Hv. rewrite Hc.
  destruct (GEP_total buf d []) as [d1 [new [E [_ [L _]]]]].
  rewrite Hv in E.
  unfold Buf.bind at 1. unfold Buf.bind at 1. rewrite E. cbv iota beta.
  unfold Buf.ret at 1.
  set (d2 := set_InfoValid true d1).
  assert (H2 : handle_unusable d2 = false).
  { destruct L as [_ [_ [L3 [L4 [L5 _]]]]].
    unfold handle_unusable in *. cbn. now rewrite L3, L4, L5. }
  destruct (poll_status_half T sys_write sys_read t1 true d2 (new ++ [])%list H2)
    as [d3 [tr' [E3 [L3 _]]]].
  exists d3. eexists. rewrite E3. cbn [option_map fst].
  split; [reflexivity|].
  destruct L3 as [_ [_ [_ [_ [_ [LV [LC _]]]]]]].
  destruct L as [_ [_ [_ [_ [_ [_ [LC1 _]]]]]]].
  rewrite LC, LV. cbn. auto.
Qed.

End PollOutcome.

(** X14.  On an open connection with a usable descriptor, the outcome of a
    poll cycle depends on the terminator of the [:GEP#] reply and on
    nothing else.  If the reply left in the buffer ends with ['#'], however
    short it is and whatever it holds, the cycle returns true, marks the
    position valid and leaves the error counter; otherwise it returns false
    and the counter goes up by exactly one.  The [:GLS#] reply changes
    neither. *)
Theorem poll_outcome_follows_GEP_terminator (T : Type)
    (sys_write : T -> string -> Z * T) (sys_read : T -> ReadEvent * T)
    (t : T) (d : Driver) :
  cTelescopeConnectionOpen d = true ->
  handle_unusable d = false ->
  let gepReply := snd (fst (iOptron_SendCommand T sys_write sys_read t ":GEP#" 400)) in
  (hash_terminated gepReply ->
     exists d' t',
       result (SendCmdsPeriodic T sys_write sys_read t d) = Some (true, d', t') /\
       cIOptron_CommErrCnt d' = cIOptron_CommErrCnt d /\
       cTelescopeInfoValid d' = true) /\
  (~ hash_terminated gepReply ->
     exists d' t',
       result (SendCmdsPeriodic T sys_write sys_read t d) = Some (false, d', t') /\
       cIOptron_CommErrCnt d' = cIOptron_CommErrCnt d + 1).
Proof.
  intros Ho Hh gepReply. split.
  - intros Hv. apply valid_frame_iff in Hv.
    exact (poll_valid_reply T sys_write sys_read t d Ho Hh Hv).
  - intros Hn.
    assert (Hv : valid_frame gepReply = false).
    { destruct (valid_frame gepReply) eqn:E; [|reflexivity].
      apply valid_frame_iff in E. contradiction. }
    destruct (fst (fst (iOptron_SendCommand T sys_write sys_read t ":GEP#" 400)))
      as [|n] eqn:Ec.
    + destruct (poll_no_reply T sys_write sys_read t d Ho Hh Ec)
        as [d' [t' [R [C _]]]].
      exists d', t'. auto.
    + destruct (poll_invalid_reply T sys_write sys_read t d Ho Hh)
        as [d' [t' [R [C _]]]]; [rewrite Ec; lia | exact Hv |].
      exists d', t'. auto.
Qed.

(** X14 on a scripted transport that answers [:GEP#] with the one byte
    [#]: the cycle succeeds and the position is marked valid although
    nothing was decoded. *)
Lemma poll_outcome_follows_GEP_terminator_witness :
  exists d' t',
    result (SendCmdsPeriodic _ script_write script_read [RdByte "#"%char] driver0)
      = Some (true, d', t') /\
    cIOptron_CommErrCnt d' = 0 /\
    cTelescopeInfoValid d' = true.
Proof.
  destruct (poll_outcome_follows_GEP_terminator _ script_write script_read
              [RdByte "#"%char] driver0 eq_refl eq_refl) as [V _].
  apply V. exists "". reflexivity.
Defined.

(** ** The sexagesimal declination and the dispatcher *)

Section ByValue.

Variables (s : string) (d : Driver).
Hypothesis Hv : valid_frame s = true.

(** [Process_RA_Response] in terms of what the parser returns. *)
Lemma RA_response_by_value (h : Q) :
  result (iOptron_ParseRA s) = Some h ->
  result (Process_RA_Response s d) =
  Some (true,
        if Qle_bool 0 h && Qlt_bool h 24
        then with_Prop (set_RightAscension h)
               (if (strlen s <? 32)%nat then set_RA_String s d else d)
        else d).
Proof.
  destruct (uniform_ParseRA s) as [h0 [new Hu]].
  unfold result, Buf.run. rewrite Hu. cbn [option_map fst]. intros [= <-].
  unfold Process_RA_Response. rewrite bind_Check, Hv.
  unfold Buf.bind. rewrite Hu.
  destruct (Qle_bool 0 h0 && Qlt_bool h0 24); reflexivity.
Qed.

(** [Process_DEC_Response] in terms of what the parser returns. *)
Lemma DEC_response_by_value (g : Q) :
  result (iOptron_ParseDegMinSec s) = Some g ->
  result (Process_DEC_Response s d) =
  Some (true,
        if Qle_bool (-90) g && Qle_bool g 90
        then with_Prop (set_Declination g)
               (if (strlen s <? 32)%nat then set_DEC_String s d else d)
        else d).
Proof.
  destruct (uniform_ParseDegMinSec s) as [g0 [new Hu]].
  unfold result, Buf.run. rewrite Hu. cbn [option_map fst]. intros [= <-].
  unfold Process_DEC_Response. rewrite bind_Check, Hv.
  unfold Buf.bind. rewrite Hu.
  destruct (Qle_bool (-90) g0 && Qle_bool g0 90); reflexivity.
Qed.

End ByValue.

Section SexagesimalFacts.

Open Scope Q_scope.

Lemma round64_idem (x : Q) : round64 (round64 x) = round64 x.
Proof.
  pose proof (round64_id _ (round64_binary64 x)) as E.
  apply Qred_complete in E. now rewrite !round64_canonical in E.
Qed.

(** Multiplying a double by [1] or by [-1] is exact. *)
Lemma fmul_one (x : Q) : fmul (double_of_Z 1) (round64 x) = round64 x.
Proof.
  unfold fmul, double_of_Z. rewrite (round64_Z 1) by (vm_compute; discriminate).
  assert (E : inject_Z 1 * round64 x == round64 x) by ring.
  rewrite (round64_comp _ _ E). apply round64_idem.
Qed.

Lemma fmul_minus_one (x : Q) :
  fmul (double_of_Z (-1)) (round64 x) == - round64 x.
Proof.
  unfold fmul, double_of_Z. rewrite (round64_Z (-1)) by (vm_compute; discriminate).
  assert (E : inject_Z (-1) * round64 x == - round64 x) by ring.
  rewrite (round64_comp _ _ E).
  apply round64_id, binary64_opp, round64_binary64.
Qed.

Lemma sexagesimal_rounded (d m s : Z) :
  sexagesimal d m s = round64 (sexagesimal d m s).
Proof. unfold sexagesimal, fadd. now rewrite round64_idem. Qed.

(** The double sum of three fields of at most nine digits is the exact sum
    up to rounding, and is not negative. *)
Lemma sexagesimal_near (d m s : Z) :
  (0 <= d < 10 ^ 9)%Z -> (0 <= m < 10 ^ 9)%Z -> (0 <= s < 10 ^ 9)%Z ->
  Qabs (sexagesimal d m s - (inject_Z d + inject_Z m / 60 + inject_Z s / 3600))
    <= 1 # 1000000 /\
  0 <= sexagesimal d m s.
Proof.
  change (10 ^ 9)%Z with 1000000000%Z. intros Hd Hm Hs.
  assert (Qd : 0 <= inject_Z d <= 1000000000).
  { destruct Hd as [A B]. apply Z.lt_le_incl in B. rewrite Zle_Qle in A, B.
    inject_consts. split; assumption. }
  assert (Qm : 0 <= inject_Z m <= 1000000000).
  { destruct Hm as [A B]. apply Z.lt_le_incl in B. rewrite Zle_Qle in A, B.
    inject_consts. split; assumption. }
  assert (Qs : 0 <= inject_Z s <= 1000000000).
  { destruct Hs as [A B]. apply Z.lt_le_incl in B. rewrite Zle_Qle in A, B.
    inject_consts. split; assumption. }
  assert (I : forall z : Z, (0 <= z < 1000000000)%Z -> round64 (inject_Z z) = inject_Z z).
  { intros z Hz. apply round64_Z. change (2 ^ 53)%Z with 9007199254740992%Z. lia. }
  assert (I1 : forall z : Z, (0 <= z < 1000000000)%Z ->
               fmul 1 (double_of_Z z) = inject_Z z).
  { intros z Hz. unfold fmul, double_of_Z. rewrite (I z Hz).
    assert (E : 1 * inject_Z z == inject_Z z) by ring.
    rewrite (round64_comp _ _ E). exact (I z Hz). }
  unfold sexagesimal. rewrite (I1 m Hm), (I1 s Hs). unfold double_of_Z.
  rewrite (I d Hd). unfold fadd, fdiv.
  assert (Em : inject_Z m / 60 == inject_Z m * (1 # 60)) by field.
  assert (Es : inject_Z s / 3600 == inject_Z s * (1 # 3600)) by field.
  set (qm := inject_Z m / 60) in *. set (qs := inject_Z s / 3600) in *.
  assert (B0 : binary64 0) by exact binary64_0.
  pose proof (round64_error_below qm 16777216 (1 # 536870912) 24
                ltac:(lia) ltac:(reflexivity) ltac:(reflexivity)) as E1.
  pose proof (round64_ge qm 0 B0) as P1.
  set (rm := round64 qm) in *.
  pose proof (round64_error_below qs 524288 (1 # 17179869184) 19
                ltac:(lia) ltac:(reflexivity) ltac:(reflexivity)) as E2.
  pose proof (round64_ge qs 0 B0) as P2.
  set (rs := round64 qs) in *.
  pose proof (round64_error_below (inject_Z d + rm) 2147483648 (1 # 4194304) 31
                ltac:(lia) ltac:(reflexivity) ltac:(reflexivity)) as E3.
  pose proof (round64_ge (inject_Z d + rm) 0 B0) as P3.
  set (v1 := round64 (inject_Z d + rm)) in *.
  pose proof (round64_error_below (v1 + rs) 2147483648 (1 # 4194304) 31
                ltac:(lia) ltac:(reflexivity) ltac:(reflexivity)) as E4.
  pose proof (round64_ge (v1 + rs) 0 B0) as P4.
  set (v2 := round64 (v1 + rs)) in *.
  assert (A1 : - (1 # 536870912) <= rm - qm <= 1 # 536870912) by (apply E1; lra).
  assert (A2 : - (1 # 17179869184) <= rs - qs <= 1 # 17179869184) by (apply E2; lra).
  assert (N1 : 0 <= rm) by (apply P1; lra).
  assert (N2 : 0 <= rs) by (apply P2; lra).
  assert (A3 : - (1 # 4194304) <= v1 - (inject_Z d + rm) <= 1 # 4194304)
    by (apply E3; lra).
  assert (N3 : 0 <= v1) by (apply P3; lra).
  assert (A4 : - (1 # 4194304) <= v2 - (v1 + rs) <= 1 # 4194304)
    by (apply E4; lra).
  assert (N4 : 0 <= v2) by (apply P4; lra).
  split; [apply Qabs_Qle_condition; lra | exact N4].
Qed.

End SexagesimalFacts.

Section DegMinSecFacts.

Variables (D M S : string) (c : ascii) (rest : string).
Hypothesis HD : digit_field D.
Hypothesis HM : digit_field M.
Hypothesis HS : digit_field S.
Hypothesis Hc : isdigit c = false.
Hypothesis Hrest : hash_terminated (String c rest).

Lemma star_not_digit : isdigit "*" = false.
Proof. reflexivity. Qed.

Lemma DMS_body_valid (pre : string) :
  hash_terminated (pre ++ D ++ "*" ++ M ++ ":" ++ S ++ String c rest).
Proof. do 6 apply hash_terminated_app. exact Hrest. Qed.

(** With a sign in front. *)
Lemma DMS_signed (sgn : ascii) :
  sgn = "+"%char \/ sgn = "-"%char ->
  result (iOptron_ParseDegMinSec
            (String sgn (D ++ "*" ++ M ++ ":" ++ S ++ String c rest))) =
  Some (fmul (double_of_Z (if Ascii.eqb sgn "-" then -1 else 1))
             (sexagesimal (decimal_value D) (decimal_value M) (decimal_value S))).
Proof.
  intros Hs.
  destruct HD as [D1 [D2 D3]]. destruct HM as [M1 [M2 M3]].
  destruct HS as [S1 [S2 S3]].
  pose proof (DMS_body_valid (String sgn "")) as Hv.
  change (String sgn "" ++ D ++ "*" ++ M ++ ":" ++ S ++ String c rest)
    with (String sgn (D ++ "*" ++ M ++ ":" ++ S ++ String c rest)) in Hv.
  apply valid_frame_iff in Hv.
  unfold result, Buf.run, iOptron_ParseDegMinSec. rewrite bind_Check, Hv.
  change ("*" ++ M ++ ":" ++ S ++ String c rest)
    with (String "*" (M ++ String ":" (S ++ String c rest))).
  destruct Hs as [-> | ->]; cbv iota beta;
    rewrite (atoi_digits D "*" _ D2 D1 D3 star_not_digit);
    rewrite (skip_digits_stop D "*" _ D2 star_not_digit);
    cbv iota beta;
    rewrite (atoi_digits M ":" _ M2 M1 M3 colon_not_digit);
    rewrite (skip_digits_stop M ":" _ M2 colon_not_digit);
    cbv iota beta;
    rewrite (atoi_digits S c rest S2 S1 S3 Hc);
    reflexivity.
Qed.

(** Without a sign the value reads as with ['+']. *)
Lemma DMS_unsigned :
  result (iOptron_ParseDegMinSec
            (D ++ "*" ++ M ++ ":" ++ S ++ String c rest)) =
  Some (fmul (double_of_Z 1)
             (sexagesimal (decimal_value D) (decimal_value M) (decimal_value S))).
Proof.
  destruct HD as [D1 [D2 D3]]. destruct HM as [M1 [M2 M3]].
  destruct HS as [S1 [S2 S3]].
  pose proof (DMS_body_valid "") as Hv.
  change ("" ++ D ++ "*" ++ M ++ ":" ++ S ++ String c rest)
    with (D ++ "*" ++ M ++ ":" ++ S ++ String c rest) in Hv.
  apply valid_frame_iff in Hv.
  unfold result, Buf.run, iOptron_ParseDegMinSec. rewrite bind_Check, Hv.
  change ("*" ++ M ++ ":" ++ S ++ String c rest)
    with (String "*" (M ++ String ":" (S ++ String c rest))).
  assert (E : (let '(plusMinus, charPtr) :=
                 match D ++ String "*" (M ++ String ":" (S ++ String c rest)) with
                 | String "+"%char r => (1, r)
                 | String "-"%char r => (-1, r)
                 | _ => (1, D ++ String "*" (M ++ String ":" (S ++ String c rest)))
                 end in (plusMinus, charPtr)) =
              (1, D ++ String "*" (M ++ String ":" (S ++ String c rest)))).
  { destruct D as [|x D']; [congruence|].
    rewrite all_digits_cons in D2. apply andb_true_iff in D2.
    destruct D2 as [Hx _]. cbn [append].
    destruct x as [[] [] [] [] [] [] [] []]; try discriminate Hx; reflexivity. }
  cbv iota beta.
  destruct (match D ++ String "*" (M ++ String ":" (S ++ String c rest)) with
            | String "+"%char r => (1, r)
            | String "-"%char r => (-1, r)
            | _ => (1, D ++ String "*" (M ++ String ":" (S ++ String c rest)))
            end) as [pm cp].
  injection E as -> ->.
  rewrite (atoi_digits D "*" _ D2 D1 D3 star_not_digit).
  rewrite (skip_digits_stop D "*" _ D2 star_not_digit).
  cbv iota beta.
  rewrite (atoi_digits M ":" _ M2 M1 M3 colon_not_digit).
  rewrite (skip_digits_stop M ":" _ M2 colon_not_digit).
  cbv iota beta.
  rewrite (atoi_digits S c rest S2 S1 S3 Hc).
  reflexivity.
Qed.

(** The sign applied to the double sum. *)
Lemma signed_value (sgn : ascii) (d m s : Z) :
  (fmul (double_of_Z (if Ascii.eqb sgn "-" then -1 else 1)) (sexagesimal d m s) ==
   if Ascii.eqb sgn "-" then - sexagesimal d m s else sexagesimal d m s)%Q.
Proof.
  rewrite (sexagesimal_rounded d m s).
  destruct (Ascii.eqb sgn "-").
  - rewrite fmul_minus_one. now rewrite <- sexagesimal_rounded.
  - rewrite fmul_one. reflexivity.
Qed.

Lemma field_value_bound (t : string) :
  digit_field t -> 0 <= decimal_value t < 10 ^ 9.
Proof.
  intros [_ [H2 H3]]. pose proof (decimal_value_bound t H2) as [B1 B2].
  pose proof (pow10_le _ _ H3) as P. change (Z.of_nat 9) with 9 in P. lia.
Qed.

End DegMinSecFacts.

(** X15.  The declination parser on [sDD*MM:SS] followed by a byte that is
    not a digit, in a frame that ends with ['#'] ([DD], [MM], [SS] runs of
    one to nine digits): the value is the double sum
    [DD + MM / 60.0 + SS / 3600.0], negated when the sign is ['-'] and taken
    as it is when the sign is ['+'] or absent.  The double sum is
    [DD + MM/60 + SS/3600] up to rounding.  The sign applies to the whole
    value, so [-00*30:00#] is -0.5. *)
Theorem ParseDegMinSec_value (D M S : string) (c : ascii) (rest : string)
    (sgn : ascii) :
  digit_field D -> digit_field M -> digit_field S ->
  isdigit c = false ->
  hash_terminated (String c rest) ->
  (sgn = "+"%char \/ sgn = "-"%char) ->
  let v := sexagesimal (decimal_value D) (decimal_value M) (decimal_value S) in
  (exists g,
     result (iOptron_ParseDegMinSec
               (String sgn (D ++ "*" ++ M ++ ":" ++ S ++ String c rest))) = Some g /\
     (g == if Ascii.eqb sgn "-" then - v else v)%Q) /\
  (exists g,
     result (iOptron_ParseDegMinSec
               (D ++ "*" ++ M ++ ":" ++ S ++ String c rest)) = Some g /\
     (g == v)%Q) /\
  (Qabs (v - (inject_Z (decimal_value D) + inject_Z (decimal_value M) / 60 +
              inject_Z (decimal_value S) / 3600)) <= 1 # 1000000)%Q.
Proof.
  intros HD HM HS Hc Hrest Hs v. split; [|split].
  - eexists. split; [apply DMS_signed; assumption|]. apply signed_value.
  - eexists. split; [apply DMS_unsigned; assumption|].
    apply (signed_value "+").
  - apply sexagesimal_near; apply field_value_bound; assumption.
Qed.

(** X15 at [-00*30:00#]: minus one half. *)
Lemma ParseDegMinSec_value_witness :
  exists g,
    result (iOptron_ParseDegMinSec "-00*30:00#") = Some g /\ (g == - (1 # 2))%Q.
Proof.
  assert (F : forall t, t = "00" \/ t = "30" -> digit_field t).
  { intros t [-> | ->]; (split; [discriminate | split; [reflexivity | simpl; lia]]). }
  destruct (ParseDegMinSec_value "00" "30" "00" "#" "" "-"
              (F _ (or_introl eq_refl)) (F _ (or_intror eq_refl))
              (F _ (or_introl eq_refl)) eq_refl (ex_intro _ "" eq_refl)
              (or_intror eq_refl)) as [[g [R E]] _].
  exists g. split; [exact R|]. rewrite E. vm_compute. reflexivity.
Defined.

(** X16.  [Process_DEC_Response] on such a frame, called on its own: when
    the double sum [DD + MM / 60.0 + SS / 3600.0] is at most 90 the signed
    value becomes the stored declination; when it is larger the frame is
    still reported valid but the driver is returned unchanged (the value is
    dropped, not clamped to 90).  The test is made on the double: the
    fields [81*532:480], whose exact sum is 90, give 90.000000000000014
    and are dropped. *)
Theorem DEC_response_range_gate (D M S : string) (c : ascii) (rest : string)
    (sgn : ascii) (d : Driver) :
  digit_field D -> digit_field M -> digit_field S ->
  isdigit c = false ->
  hash_terminated (String c rest) ->
  (sgn = "+"%char \/ sgn = "-"%char) ->
  let v := sexagesimal (decimal_value D) (decimal_value M) (decimal_value S) in
  let frame := String sgn (D ++ "*" ++ M ++ ":" ++ S ++ String c rest) in
  ((v <= 90)%Q ->
     exists d',
       result (Process_DEC_Response frame d) = Some (true, d') /\
       (Declination (cTelescopeProp d') ==
          if Ascii.eqb sgn "-" then - v else v)%Q /\
       RightAscension (cTelescopeProp d') = RightAscension (cTelescopeProp d)) /\
  ((90 < v)%Q ->
     result (Process_DEC_Response frame d) = Some (true, d)).
Proof.
  intros HD HM HS Hc Hrest Hs v frame.
  pose proof (DMS_signed D M S c rest HD HM HS Hc Hrest sgn Hs) as R.
  fold frame in R.
  assert (Hv : valid_frame frame = true).
  { apply valid_frame_iff. unfold frame.
    change (hash_terminated
              (String sgn "" ++ D ++ "*" ++ M ++ ":" ++ S ++ String c rest)).
    do 6 apply hash_terminated_app. exact Hrest. }
  rewrite (DEC_response_by_value frame d Hv _ R).
  pose proof (signed_value sgn (decimal_value D) (decimal_value M)
                (decimal_value S)) as Eg.
  set (g := fmul (double_of_Z (if Ascii.eqb sgn "-" then -1 else 1))
              (sexagesimal (decimal_value D) (decimal_value M) (decimal_value S))) in *.
  clearbody g. fold v in Eg.
  assert (Hnn : (0 <= v)%Q).
  { apply sexagesimal_near; apply field_value_bound; assumption. }
  split.
  - intros Hle.
    assert (Hin : Qle_bool (-90) g && Qle_bool g 90 = true).
    { apply in_range_dec.
      destruct (Ascii.eqb sgn "-"); cbv iota in Eg; split; lra. }
    rewrite Hin. eexists. split; [reflexivity|].
    split; [|destruct (strlen frame <? 32)%nat; reflexivity].
    destruct (strlen frame <? 32)%nat; exact Eg.
  - intros Hgt.
    assert (Hout : Qle_bool (-90) g && Qle_bool g 90 = false).
    { destruct (Qle_bool (-90) g && Qle_bool g 90) eqn:E; [|reflexivity].
      apply in_range_dec in E.
      destruct (Ascii.eqb sgn "-"); cbv iota in Eg; lra. }
    rewrite Hout. reflexivity.
Qed.

(** X16 at [+81*532:480#], whose double sum is just above 90: dropped. *)
Lemma DEC_response_range_gate_witness :
  result (Process_DEC_Response "+81*532:480#" driver0) = Some (true, driver0).
Proof.
  assert (F : forall t, t = "81" \/ t = "532" \/ t = "480" -> digit_field t).
  { intros t [-> | [-> | ->]];
      (split; [discriminate | split; [reflexivity | simpl; lia]]). }
  destruct (DEC_response_range_gate "81" "532" "480" "#" "" "+" driver0
              (F _ (or_introl eq_refl)) (F _ (or_intror (or_introl eq_refl)))
              (F _ (or_intror (or_intror eq_refl))) eq_refl (ex_intro _ "" eq_refl)
              (or_introl eq_refl)) as [_ G].
  apply G. vm_compute. reflexivity.
Defined.

(** X17.  Every valid frame that starts with a sign and holds a [':']
    reaches the RA processor through the dispatcher, and what gets stored
    as right ascension is a whole number of hours: the signed integer at
    the head of the frame, reduced modulo 24.  Minutes and seconds are
    never read on this path, and the declination is not touched. *)
Theorem dispatched_RA_is_whole_hours (sgn : ascii) (r : string) (d : Driver) :
  (sgn = "+"%char \/ sgn = "-"%char) ->
  hash_terminated (String sgn r) ->
  strchr (String sgn r) ":" = true ->
  exists d',
    result (Process_iOptronResponse (String sgn r) d) = Some (true, d') /\
    (RightAscension (cTelescopeProp d') ==
       inject_Z (atoi (String sgn r) mod 24))%Q /\
    Declination (cTelescopeProp d') = Declination (cTelescopeProp d).
Proof.
  intros Hs Hh Hcol. apply valid_frame_iff in Hh.
  rewrite (dispatch_follows_route _ d Hh).
  assert (Hr : response_route (String sgn r) = ToRA).
  { unfold response_route. rewrite Hcol. destruct Hs as [-> | ->]; reflexivity. }
  rewrite Hr.
  rewrite (RA_response_by_value _ d Hh _ (ParseRA_signed sgn r Hs Hh)).
  set (n := atoi (String sgn r)).
  pose proof (Z.mod_pos_bound n 24 ltac:(lia)) as [M1 M2].
  assert (Hin : Qle_bool 0 (inject_Z (n mod 24)) &&
                Qlt_bool (inject_Z (n mod 24)) 24 = true).
  { apply in_range_ra. split.
    - change 0%Q with (inject_Z 0). now rewrite <- Zle_Qle.
    - change 24%Q with (inject_Z 24). now rewrite <- Zlt_Qlt. }
  rewrite Hin. cbn [option_map snd].
  eexists. split; [reflexivity|].
  split; destruct (strlen (String sgn r) <? 32)%nat; reflexivity.
Qed.

(** X17 at [+12:30:45#]: 12 hours are stored, not 12.5125. *)
Lemma dispatched_RA_is_whole_hours_witness :
  exists d',
    result (Process_iOptronResponse "+12:30:45#" driver0) = Some (true, d') /\
    (RightAscension (cTelescopeProp d') == 12)%Q.
Proof.
  destruct (dispatched_RA_is_whole_hours "+" "12:30:45#" driver0
              (or_introl eq_refl) (ex_intro _ "+12:30:45" eq_refl) eq_refl)
    as [d' [R [E _]]].
  exists d'. split; [exact R | exact E].
Defined.

(** ** The right ascension parser on frames without a sign *)

Section NormalizeDoubles.

Open Scope Q_scope.

Lemma loop_fuel_value (h : Q) :
  inject_Z (Z.of_nat (loop_fuel h)) ==
  inject_Z (Z.abs (Qfloor (h / 24))) + 1.
Proof.
  unfold loop_fuel. rewrite inject_Z_succ_nat, Z2Nat.id by lia. reflexivity.
Qed.

Lemma loop_fuel_above (h : Q) :
  h < 24 * inject_Z (Z.of_nat (loop_fuel h)) + 24.
Proof.
  rewrite loop_fuel_value.
  assert (E : h == 24 * (h / 24)) by field.
  pose proof (Qlt_floor (h / 24)) as Hfl.
  rewrite inject_Z_plus in Hfl. change (inject_Z 1) with 1 in Hfl.
  assert (Ha : inject_Z (Qfloor (h / 24)) <= inject_Z (Z.abs (Qfloor (h / 24))))
    by (rewrite <- Zle_Qle; lia).
  set (x := h / 24) in *. lra.
Qed.

(** The subtracting loop on a double that is not negative: every
    subtraction is exact, and the iterations allowed are enough for the
    loop to end by its own test. *)
Lemma sub24_loop_exits (f : nat) : forall h : Q,
  binary64 h -> 0 <= h -> h <= 2 ^ 55 ->
  h < 24 * inject_Z (Z.of_nat f) + 24 ->
  exists k : Z,
    (0 <= k)%Z /\
    sub24_loop f h == h - 24 * inject_Z k /\
    0 <= sub24_loop f h /\ sub24_loop f h < 24.
Proof.
  change (2 ^ 55) with 36028797018963968.
  induction f as [|f IH]; intros h B P U Hf.
  - exists 0%Z. cbn [sub24_loop]. change (inject_Z (Z.of_nat 0)) with 0 in Hf.
    change (inject_Z 0) with 0.
    split; [lia|]. split; [ring|]. split; lra.
  - rewrite inject_Z_succ_nat in Hf. cbn [sub24_loop].
    destruct (Qle_bool 24 h) eqn:E.
    + apply Qle_bool_iff in E.
      pose proof (round64_id _ (binary64_sub24 h B E U)) as X.
      fold (fsub h 24) in X.
      destruct (IH (fsub h 24)) as [k [Hk [Ek [P1 L1]]]];
        [apply round64_binary64 | lra | lra | lra |].
      exists (k + 1)%Z. rewrite inject_Z_plus. change (inject_Z 1) with 1.
      split; [lia|]. split; [lra|]. split; assumption.
    + apply Qle_bool_false in E.
      exists 0%Z. change (inject_Z 0) with 0.
      split; [lia|]. split; [ring|]. split; lra.
Qed.

(** Normalisation of a double that is not negative. *)
Lemma normalize_0_24_nonneg (h : Q) :
  binary64 h -> 0 <= h -> h <= 2 ^ 55 ->
  exists k : Z,
    (0 <= k)%Z /\
    normalize_0_24 h == h - 24 * inject_Z k /\
    0 <= normalize_0_24 h /\ normalize_0_24 h < 24.
Proof.
  intros B P U. unfold normalize_0_24.
  destruct (sub24_loop_exits (loop_fuel h) h B P U (loop_fuel_above h))
    as [k [Hk [Ek [P1 L1]]]].
  set (h1 := sub24_loop (loop_fuel h) h) in *.
  assert (E : add24_loop (loop_fuel h1) h1 = h1).
  { unfold loop_fuel. cbn [add24_loop].
    assert (F : Qlt_bool h1 0 = false).
    { unfold Qlt_bool. apply negb_false_iff. now apply Qle_bool_iff. }
    now rewrite F. }
  rewrite E. exists k. auto.
Qed.

(** The double sum of three digit fields as [normalize_0_24] takes it. *)
Lemma normalized_sexagesimal (h m s : Z) :
  (0 <= h < 10 ^ 9)%Z -> (0 <= m < 10 ^ 9)%Z -> (0 <= s < 10 ^ 9)%Z ->
  exists k : Z,
    (0 <= k)%Z /\
    normalize_0_24 (sexagesimal h m s) == sexagesimal h m s - 24 * inject_Z k /\
    0 <= normalize_0_24 (sexagesimal h m s) /\
    normalize_0_24 (sexagesimal h m s) < 24.
Proof.
  intros Hh Hm Hs.
  destruct (sexagesimal_near h m s Hh Hm Hs) as [N P].
  apply normalize_0_24_nonneg.
  - rewrite sexagesimal_rounded. apply round64_binary64.
  - exact P.
  - change (2 ^ 55) with 36028797018963968.
    apply Qabs_Qle_condition in N.
    change (10 ^ 9)%Z with 1000000000%Z in *.
    assert (Qh : inject_Z h <= 1000000000).
    { destruct Hh as [_ A]. apply Z.lt_le_incl in A. rewrite Zle_Qle in A.
      now inject_consts. }
    assert (Qm : inject_Z m <= 1000000000).
    { destruct Hm as [_ A]. apply Z.lt_le_incl in A. rewrite Zle_Qle in A.
      now inject_consts. }
    assert (Qs : inject_Z s <= 1000000000).
    { destruct Hs as [_ A]. apply Z.lt_le_incl in A. rewrite Zle_Qle in A.
      now inject_consts. }
    assert (Em : inject_Z m / 60 == inject_Z m * (1 # 60)) by field.
    assert (Es : inject_Z s / 3600 == inject_Z s * (1 # 3600)) by field.
    set (qm := inject_Z m / 60) in *. set (qs := inject_Z s / 3600) in *.
    lra.
Qed.

End NormalizeDoubles.

(** X26.  The RA parser on frames that start with a digit.  Let [H], [M],
    [S] be runs of one to nine decimal digits and let the frame end with
    ['#'].
    - On [H:M:S] followed by a byte that is not a digit, the parser returns
      the double sum [H + M / 60.0 + S / 3600.0] less a whole number of
      times 24, in [0, 24); the subtractions are exact.
    - On [H:M] followed by a byte that is neither a digit nor [':'], the
      seconds are 0.
    - On [H] followed by such a byte, minutes and seconds are 0.
    The double sum is [H + M/60 + S/3600] up to rounding; the test against
    24 is made on the double, so [20:182:3480#], whose exact sum is 24,
    yields 23.999999999999996 and not 0. *)
Theorem ParseRA_unsigned_fields (H M S : string) (c : ascii) (rest : string) :
  digit_field H -> digit_field M -> digit_field S ->
  isdigit c = false ->
  hash_terminated (String c rest) ->
  let h := decimal_value H in
  let m := decimal_value M in
  let s := decimal_value S in
  (exists (r : Q) (k : Z),
     result (iOptron_ParseRA (H ++ ":" ++ M ++ ":" ++ S ++ String c rest)) = Some r /\
     0 <= k /\ (r == sexagesimal h m s - 24 * inject_Z k)%Q /\
     (0 <= r)%Q /\ (r < 24)%Q) /\
  (c <> ":"%char ->
     (exists (r : Q) (k : Z),
        result (iOptron_ParseRA (H ++ ":" ++ M ++ String c rest)) = Some r /\
        0 <= k /\ (r == sexagesimal h m 0 - 24 * inject_Z k)%Q /\
        (0 <= r)%Q /\ (r < 24)%Q) /\
     (exists (r : Q) (k : Z),
        result (iOptron_ParseRA (H ++ String c rest)) = Some r /\
        0 <= k /\ (r == sexagesimal h 0 0 - 24 * inject_Z k)%Q /\
        (0 <= r)%Q /\ (r < 24)%Q)) /\
  (Qabs (sexagesimal h m s - (inject_Z h + inject_Z m / 60 + inject_Z s / 3600))
     <= 1 # 1000000)%Q.
Proof.
  intros HH HM HS Hc Hrest h m s.
  pose proof (field_value_bound H HH) as BH.
  pose proof (field_value_bound M HM) as BM.
  pose proof (field_value_bound S HS) as BS.
  assert (B0 : 0 <= 0 < 10 ^ 9) by (split; [lia | reflexivity]).
  split; [|split].
  - destruct (normalized_sexagesimal _ _ _ BH BM BS) as [k [K [E [P L]]]].
    eexists. exists k. split; [apply ParseRA_hms; assumption|].
    repeat split; auto.
  - intros Hnc. split.
    + destruct (normalized_sexagesimal _ _ 0 BH BM B0) as [k [K [E [P L]]]].
      eexists. exists k. split; [apply ParseRA_hm; assumption|].
      repeat split; auto.
    + destruct (normalized_sexagesimal _ 0 0 BH B0 B0) as [k [K [E [P L]]]].
      eexists. exists k. split; [apply ParseRA_h; assumption|].
      repeat split; auto.
  - apply sexagesimal_near; assumption.
Qed.

(** X26 at [25:30:00#] and [20:182:3480#]: 1.5 hours, and a value just
    below 24. *)
Lemma ParseRA_unsigned_fields_witness :
  (exists r : Q,
     result (iOptron_ParseRA "25:30:00#") = Some r /\ (r == 3 # 2)%Q) /\
  (exists r : Q,
     result (iOptron_ParseRA "20:182:3480#") = Some r /\
     (r == 6755399441055743 # 281474976710656)%Q /\ (0 <= r)%Q /\ (r < 24)%Q).
Proof.
  assert (F : forall t, t = "25" \/ t = "30" \/ t = "00" \/ t = "20" \/ t = "182" \/
                        t = "3480" -> digit_field t).
  { intros t [-> | [-> | [-> | [-> | [-> | ->]]]]];
      (split; [discriminate | split; [reflexivity | simpl; lia]]). }
  destruct (ParseRA_unsigned_fields "25" "30" "00" "#" ""
              (F _ (or_introl eq_refl))
              (F _ (or_intror (or_introl eq_refl)))
              (F _ (or_intror (or_intror (or_introl eq_refl))))
              eq_refl (ex_intro _ "" eq_refl)) as [[r1 [k1 [R1 _]]] _].
  destruct (ParseRA_unsigned_fields "20" "182" "3480" "#" ""
              (F _ (or_intror (or_intror (or_intror (or_introl eq_refl)))))
              (F _ (or_intror (or_intror (or_intror (or_intror (or_introl eq_refl))))))
              (F _ (or_intror (or_intror (or_intror (or_intror (or_intror eq_refl))))))
              eq_refl (ex_intro _ "" eq_refl)) as [[r2 [k2 [R2 [_ [_ [P2 L2]]]]]] _].
  split.
  - exists r1. split; [exact R1|].
    vm_compute in R1. injection R1 as <-. reflexivity.
  - exists r2. split; [exact R2|]. split; [|split; assumption].
    vm_compute in R2. injection R2 as <-. reflexivity.
Defined.

(** ** Invariants of the decoders *)

Section DecoderAlgebra.

Lemma systemStatus_set_Declination (y : Z) (v : Q) (p : TelescopeProp) :
  apply_systemStatus y (set_Declination v p) =
  set_Declination v (apply_systemStatus y p).
Proof.
  destruct p. unfold apply_systemStatus.
  destruct y as [|q|q]; try reflexivity.
  destruct q as [[[q|q|]|[q|q|]|]|[[q|q|]|[q|q|]|]|]; reflexivity.
Qed.

Lemma systemStatus_set_RightAscension (y : Z) (v : Q) (p : TelescopeProp) :
  apply_systemStatus y (set_RightAscension v p) =
  set_RightAscension v (apply_systemStatus y p).
Proof.
  destruct p. unfold apply_systemStatus.
  destruct y as [|q|q]; try reflexivity.
  destruct q as [[[q|q|]|[q|q|]|]|[[q|q|]|[q|q|]|]|]; reflexivity.
Qed.

Lemma trackingRate_set_Declination (x : Z) (v : Q) (p : TelescopeProp) :
  apply_trackingRate x (set_Declination v p) =
  set_Declination v (apply_trackingRate x p).
Proof.
  destruct p. unfold apply_trackingRate.
  destruct x as [|q|q]; try reflexivity.
  destruct q as [[q|q|]|[q|q|]|]; reflexivity.
Qed.

Lemma trackingRate_set_RightAscension (x : Z) (v : Q) (p : TelescopeProp) :
  apply_trackingRate x (set_RightAscension v p) =
  set_RightAscension v (apply_trackingRate x p).
Proof.
  destruct p. unfold apply_trackingRate.
  destruct x as [|q|q]; try reflexivity.
  destruct q as [[q|q|]|[q|q|]|]; reflexivity.
Qed.

Lemma systemStatus_idem (y : Z) (p : TelescopeProp) :
  apply_systemStatus y (apply_systemStatus y p) = apply_systemStatus y p.
Proof.
  destruct p. unfold apply_systemStatus.
  destruct y as [|q|q]; try reflexivity.
  destruct q as [[[q|q|]|[q|q|]|]|[[q|q|]|[q|q|]|]|]; reflexivity.
Qed.

Lemma trackingRate_idem (x : Z) (p : TelescopeProp) :
  apply_trackingRate x (apply_trackingRate x p) = apply_trackingRate x p.
Proof.
  destruct p. unfold apply_trackingRate.
  destruct x as [|q|q]; try reflexivity.
  destruct q as [[q|q|]|[q|q|]|]; reflexivity.
Qed.

Lemma systemStatus_trackingRate (y x : Z) (p : TelescopeProp) :
  apply_systemStatus y (apply_trackingRate x p) =
  apply_trackingRate x (apply_systemStatus y p).
Proof.
  destruct (apply_trackingRate_shape x p) as [rt E].
  destruct (apply_trackingRate_shape x (apply_systemStatus y p)) as [rt' E'].
  destruct p. unfold apply_systemStatus, apply_trackingRate.
  destruct y as [|q|q];
    try (destruct x as [|u|u]; try reflexivity;
         destruct u as [[u|u|]|[u|u|]|]; reflexivity).
  destruct q as [[[q|q|]|[q|q|]|]|[[q|q|]|[q|q|]|]|];
    (destruct x as [|u|u]; try reflexivity;
     destruct u as [[u|u|]|[u|u|]|]; reflexivity).
Qed.

(** A store of position and DEC string and a store of flags, rate and
    status string act on different fields: they commute. *)
Lemma stores_commute_gen (bd br bs1 bs2 : bool) (dv rv : Q) (s1 s2 : string)
    (x y : Z) (d : Driver) :
  let G := fun e : Driver =>
    let d1 := if bd then with_Prop (set_Declination dv) e else e in
    let d2 := if br then with_Prop (set_RightAscension rv) d1 else d1 in
    if bs1 then set_DEC_String s1 d2 else d2 in
  let L := fun e : Driver =>
    with_Prop (apply_trackingRate x)
      (with_Prop (apply_systemStatus y)
         (if bs2 then set_Status_String s2 e else e)) in
  L (G d) = G (L d).
Proof.
  destruct d as [p c o ty so fd iv ec rs ds ss q].
  destruct bd, br, bs1, bs2;
    cbv beta zeta iota delta [with_Prop set_DEC_String set_Status_String
      cTelescopeProp Connected cTelescopeConnectionOpen cDeviceConnType
      cSocket_desc cDeviceConnFileDesc cTelescopeInfoValid cIOptron_CommErrCnt
      cTelescopeRA_String cTelescopeDEC_String cTelescopeStatus_String cCmdQueue];
    rewrite ?systemStatus_set_RightAscension, ?systemStatus_set_Declination,
      ?trackingRate_set_RightAscension, ?trackingRate_set_Declination;
    reflexivity.
Qed.

Lemma stores_commute (c0 : ascii) (a b s1 : string) (c18 c19 : ascii)
    (s2 : string) (d : Driver) :
  GLS_store c18 c19 s2 (GEP_store c0 a b s1 d) =
  GEP_store c0 a b s1 (GLS_store c18 c19 s2 d).
Proof.
  exact (stores_commute_gen _ _ (strlen s1 <? 32)%nat (strlen s2 <? 64)%nat
           _ _ s1 s2 (minus_zero c19) (minus_zero c18) d).
Qed.

(** Each store is idempotent. *)
Lemma GEP_store_idem (c0 : ascii) (a b s : string) (d : Driver) :
  GEP_store c0 a b s (GEP_store c0 a b s d) = GEP_store c0 a b s d.
Proof.
  unfold GEP_store. cbv zeta.
  generalize (fdiv (double_of_Z (atoll a * (if Ascii.eqb c0 "-" then -1 else 1)))
                (fmul 3600 100)).
  generalize (fdiv (double_of_Z (atoll b)) (fmul (fmul 15 3600) 100)).
  intros rv dv.
  generalize (Qle_bool (-90) dv && Qle_bool dv 90)
             (Qle_bool 0 rv && Qlt_bool rv 24) (strlen s <? 32)%nat.
  intros bd br bs.
  destruct d as [[ra de sl tk pk rt] c o ty so fd iv ec rs ds ss q].
  destruct bd, br, bs; reflexivity.
Qed.

Lemma GLS_store_idem (c18 c19 : ascii) (s : string) (d : Driver) :
  GLS_store c18 c19 s (GLS_store c18 c19 s d) = GLS_store c18 c19 s d.
Proof.
  unfold GLS_store.
  generalize (minus_zero c18) (minus_zero c19) (strlen s <? 64)%nat.
  intros y x bs.
  destruct d as [p c o ty so fd iv ec rs ds ss q].
  destruct bs;
    cbv beta zeta iota delta [with_Prop set_Status_String
      cTelescopeProp Connected cTelescopeConnectionOpen cDeviceConnType
      cSocket_desc cDeviceConnFileDesc cTelescopeInfoValid cIOptron_CommErrCnt
      cTelescopeRA_String cTelescopeDEC_String cTelescopeStatus_String cCmdQueue];
    rewrite (systemStatus_trackingRate y x),
      systemStatus_idem, trackingRate_idem; reflexivity.
Qed.

(** Whether a decoder stores or not depends on the frame, not on the
    driver. *)
Lemma GEP_result_cases (s : string) :
  (forall d, result (Process_GEP_Response s d) = Some (valid_frame s, d)) \/
  exists c0, forall d,
    result (Process_GEP_Response s d) =
      Some (true, GEP_store c0 (substring 1 8 s) (substring 9 9 s) s d).
Proof.
  unfold result, Buf.run.
  destruct (valid_frame s) eqn:Hv.
  - destruct (Nat.leb_spec 20 (String.length s)) as [Hl | Hl].
    + destruct (get_lt s 0) as [c0 H0]; [lia|].
      right. exists c0. intros d.
      now rewrite (GEP_run_long s d c0 [] Hv Hl H0).
    + left. intros d. now rewrite (GEP_run_short s d [] Hv Hl).
  - left. intros d. now rewrite (GEP_run_invalid s d [] Hv).
Qed.

Lemma GLS_result_cases (s : string) :
  (forall d, result (Process_GLS_Response s d) = Some (valid_frame s, d)) \/
  exists c18 c19, forall d,
    result (Process_GLS_Response s d) = Some (true, GLS_store c18 c19 s d).
Proof.
  unfold result, Buf.run.
  destruct (valid_frame s) eqn:Hv.
  - destruct (Nat.leb_spec 23 (String.length s)) as [Hl | Hl].
    + destruct (get_lt s 18) as [c18 H18]; [lia|].
      destruct (get_lt s 19) as [c19 H19]; [lia|].
      right. exists c18, c19. intros d.
      now rewrite (GLS_run_long s d c18 c19 [] Hv Hl H18 H19).
    + left. intros d. now rewrite (GLS_run_short s d [] Hv Hl).
  - left. intros d. now rewrite (GLS_run_invalid s d [] Hv).
Qed.

Lemma GEP_store_strings (c0 : ascii) (a b s : string) (d : Driver) :
  strings_fit d -> strings_fit (GEP_store c0 a b s d).
Proof.
  unfold GEP_store, strlen, strings_fit. intros [A [B C]].
  destruct (Qle_bool _ _ && Qle_bool _ _);
    destruct (Qle_bool _ _ && Qlt_bool _ _);
    destruct (Nat.ltb_spec (String.length s) 32); cbn; auto.
Qed.

Lemma GLS_store_strings (c18 c19 : ascii) (s : string) (d : Driver) :
  strings_fit d -> strings_fit (GLS_store c18 c19 s d).
Proof.
  unfold GLS_store, strlen, strings_fit. intros [A [B C]].
  destruct (Nat.ltb_spec (String.length s) 64); cbn; auto.
Qed.

End DecoderAlgebra.


(** X18.  The two decoders of the poll commute: decoding a [:GEP#] reply
    and then a [:GLS#] reply leaves the driver in the same state as
    decoding them in the other order, for any two strings. *)
Theorem poll_decoders_commute (gep gls : string) (d : Driver) :
  exists b1 b2 d1 d2 d12,
    result (Process_GEP_Response gep d) = Some (b1, d1) /\
    result (Process_GLS_Response gls d1) = Some (b2, d12) /\
    result (Process_GLS_Response gls d) = Some (b2, d2) /\
    result (Process_GEP_Response gep d2) = Some (b1, d12).
Proof.
  destruct (GEP_result_cases gep) as [G | [c0 G]];
    destruct (GLS_result_cases gls) as [L | [c18 [c19 L]]].
  - exists (valid_frame gep), (valid_frame gls), d, d, d.
    rewrite !G, !L. auto.
  - exists (valid_frame gep), true, d, (GLS_store c18 c19 gls d),
      (GLS_store c18 c19 gls d).
    rewrite !G, !L. auto.
  - exists true, (valid_frame gls),
      (GEP_store c0 (substring 1 8 gep) (substring 9 9 gep) gep d), d,
      (GEP_store c0 (substring 1 8 gep) (substring 9 9 gep) gep d).
    rewrite !G, !L. auto.
  - exists true, true,
      (GEP_store c0 (substring 1 8 gep) (substring 9 9 gep) gep d),
      (GLS_store c18 c19 gls d),
      (GLS_store c18 c19 gls
         (GEP_store c0 (substring 1 8 gep) (substring 9 9 gep) gep d)).
    rewrite !G, !L. rewrite stores_commute. auto.
Qed.

(** X19.  Decoding the same reply twice is the same as decoding it once,
    for either decoder and any string: a repeated frame changes nothing
    further. *)
Theorem poll_decoders_idempotent (s : string) (d : Driver) :
  (exists b d',
     result (Process_GEP_Response s d) = Some (b, d') /\
     result (Process_GEP_Response s d') = Some (b, d')) /\
  (exists b d',
     result (Process_GLS_Response s d) = Some (b, d') /\
     result (Process_GLS_Response s d') = Some (b, d')).
Proof.
  split.
  - destruct (GEP_result_cases s) as [G | [c0 G]].
    + exists (valid_frame s), d. rewrite !G. auto.
    + eexists. eexists. rewrite !G. split; [reflexivity|].
      rewrite GEP_store_idem. reflexivity.
  - destruct (GLS_result_cases s) as [L | [c18 [c19 L]]].
    + exists (valid_frame s), d. rewrite !L. auto.
    + eexists. eexists. rewrite !L. split; [reflexivity|].
      rewrite GLS_store_idem. reflexivity.
Qed.

(** X20.  The stored reply strings never outgrow the sizes their [strcpy]
    guards test for: if the RA and DEC strings are shorter than 32 bytes
    and the status string shorter than 64, they still are after any of the
    six processors has run on any string; a reply of any length is either
    stored whole or not at all. *)
Theorem stored_strings_stay_in_bounds (s : string) (d : Driver) :
  strings_fit d ->
  (exists b d', result (Process_iOptronResponse s d) = Some (b, d') /\ strings_fit d') /\
  (exists b d', result (Process_RA_Response s d) = Some (b, d') /\ strings_fit d') /\
  (exists b d', result (Process_DEC_Response s d) = Some (b, d') /\ strings_fit d') /\
  (exists b d', result (Process_Status_Response s d) = Some (b, d') /\ strings_fit d') /\
  (exists b d', result (Process_GEP_Response s d) = Some (b, d') /\ strings_fit d') /\
  (exists b d', result (Process_GLS_Response s d) = Some (b, d') /\ strings_fit d').
Proof.
  intros Hf.
  repeat match goal with |- _ /\ _ => split end.
  - destruct (dispatch_total s d []) as [d' [tr' [E [_ F]]]].
    exists (valid_frame s), d'. unfold result, Buf.run. rewrite E. auto.
  - destruct (RA_total s d []) as [d' [new [E H]]].
    exists (valid_frame s), d'. unfold result, Buf.run. rewrite E.
    split; [reflexivity|].
    destruct H as [-> | [h [_ [_ [_ [_ ->]]]]]]; [exact Hf|].
    now apply RA_store_keeps.
  - destruct (DEC_total s d []) as [d' [new [E H]]].
    exists (valid_frame s), d'. unfold result, Buf.run. rewrite E.
    split; [reflexivity|].
    destruct H as [-> | [g [_ [_ [_ ->]]]]]; [exact Hf|].
    now apply DEC_store_keeps.
  - unfold result, Buf.run, Process_Status_Response, strlen.
    rewrite bind_Check. destruct (valid_frame s).
    + eexists. eexists. split; [reflexivity|].
      destruct Hf as [A [B C]].
      destruct (Nat.ltb_spec (String.length s) 64); repeat split; auto.
    + eexists. eexists. split; [reflexivity | exact Hf].
  - destruct (GEP_result_cases s) as [G | [c0 G]]; rewrite G.
    + eauto.
    + eexists. eexists. split; [reflexivity|]. now apply GEP_store_strings.
  - destruct (GLS_result_cases s) as [L | [c18 [c19 L]]]; rewrite L.
    + eauto.
    + eexists. eexists. split; [reflexivity|]. now apply GLS_store_strings.
Qed.

(** X20 from the initial driver, on a reply of 40 bytes. *)
Lemma stored_strings_stay_in_bounds_witness :
  exists b d',
    result (Process_GEP_Response "+1234567812345678901234567890123456789#" driver0)
      = Some (b, d') /\ strings_fit d'.
Proof.
  assert (H : strings_fit driver0) by (repeat split; simpl; lia).
  destruct (stored_strings_stay_in_bounds
              "+1234567812345678901234567890123456789#" driver0 H)
    as [_ [_ [_ [_ [G _]]]]].
  exact G.
Defined.

(** ** The setup form *)

Section SetupFacts.

Variables (pathSize ipSize : nat).

Lemma keyword_is (k w : string) :
  Setup.strcasecmp_eq k w = true -> Setup.lower k = Setup.lower w.
Proof. unfold Setup.strcasecmp_eq. apply String.eqb_eq. Qed.

(** The four keywords are told apart whatever their case. *)
Lemma keyword_tests (k : string) :
  (Setup.strcasecmp_eq k "conntype" = true /\
   Setup.strcasecmp_eq k "devpath" = false /\
   Setup.strcasecmp_eq k "ipaddr" = false /\
   Setup.strcasecmp_eq k "port" = false) \/
  (Setup.strcasecmp_eq k "conntype" = false /\
   Setup.strcasecmp_eq k "devpath" = true /\
   Setup.strcasecmp_eq k "ipaddr" = false /\
   Setup.strcasecmp_eq k "port" = false) \/
  (Setup.strcasecmp_eq k "conntype" = false /\
   Setup.strcasecmp_eq k "devpath" = false /\
   Setup.strcasecmp_eq k "ipaddr" = true /\
   Setup.strcasecmp_eq k "port" = false) \/
  (Setup.strcasecmp_eq k "conntype" = false /\
   Setup.strcasecmp_eq k "devpath" = false /\
   Setup.strcasecmp_eq k "ipaddr" = false /\
   Setup.strcasecmp_eq k "port" = true) \/
  (Setup.strcasecmp_eq k "conntype" = false /\
   Setup.strcasecmp_eq k "devpath" = false /\
   Setup.strcasecmp_eq k "ipaddr" = false /\
   Setup.strcasecmp_eq k "port" = false).
Proof.
  unfold Setup.strcasecmp_eq.
  generalize (Setup.lower k). intros l.
  change (Setup.lower "conntype") with "conntype".
  change (Setup.lower "devpath") with "devpath".
  change (Setup.lower "ipaddr") with "ipaddr".
  change (Setup.lower "port") with "port".
  destruct (String.eqb_spec l "conntype") as [-> | E0];
    [left; repeat split; reflexivity|].
  destruct (String.eqb_spec l "devpath") as [-> | E1];
    [right; left; repeat split; reflexivity|].
  destruct (String.eqb_spec l "ipaddr") as [-> | E2];
    [right; right; left; repeat split; reflexivity|].
  destruct (String.eqb_spec l "port") as [-> | E3];
    [right; right; right; left; repeat split; reflexivity|].
  right; right; right; right. repeat split; reflexivity.
Qed.

End SetupFacts.

(** X21.  The port field of the setup form, under any spelling of the
    keyword [port]: a value that [atoi] reads as a number from 1 to 65535
    becomes the port, and the change flag is raised exactly when it
    differs from the current port; any other value (0, negative, above
    65535, not a number) leaves the settings as they were. *)
Theorem setup_port_validation (pathSize ipSize : nat) (k v : string)
    (c : Setup.Settings) :
  Setup.strcasecmp_eq k "port" = true ->
  let c' := snd (Setup.Setup_ProcessKeyword pathSize ipSize k v c) in
  (1 <= atoi v <= 65535 ->
     Setup.cTCPportNum c' = atoi v /\
     Setup.cSetupChangeOccured c' =
       (if atoi v =? Setup.cTCPportNum c then Setup.cSetupChangeOccured c else true) /\
     Setup.cDeviceConnType c' = Setup.cDeviceConnType c /\
     Setup.cDeviceConnPath c' = Setup.cDeviceConnPath c /\
     Setup.cDeviceIPaddress c' = Setup.cDeviceIPaddress c) /\
  (atoi v < 1 \/ 65535 < atoi v -> c' = c).
Proof.
  intros Hk c'. unfold c', Setup.Setup_ProcessKeyword.
  destruct (keyword_tests k) as [[_ [_ [_ H]]] | [[_ [_ [_ H]]] | [[_ [_ [_ H]]] |
    [[H1 [H2 [H3 _]]] | [_ [_ [_ H]]]]]]]; try congruence.
  rewrite H1, H2, H3, Hk. split.
  - intros [Hlo Hhi].
    destruct (Z.ltb_spec 0 (atoi v)); [|lia].
    destruct (Z.leb_spec (atoi v) 65535); [|lia]. cbn [andb].
    destruct (Z.eqb_spec (atoi v) (Setup.cTCPportNum c)) as [E | E]; cbn.
    + rewrite E. repeat split.
    + repeat split.
  - intros Hout.
    destruct (Z.ltb_spec 0 (atoi v)); destruct (Z.leb_spec (atoi v) 65535);
      cbn [andb]; try reflexivity; lia.
Qed.

(** X21 with the values [8899] and [70000] submitted as [Port]. *)
Lemma setup_port_validation_witness :
  Setup.cTCPportNum
    (snd (Setup.Setup_ProcessKeyword 256 32 "Port" "8899" Setup.settings0)) = 8899 /\
  snd (Setup.Setup_ProcessKeyword 256 32 "Port" "70000" Setup.settings0)
    = Setup.settings0.
Proof.
  destruct (setup_port_validation 256 32 "Port" "8899" Setup.settings0 eq_refl)
    as [A _].
  destruct (setup_port_validation 256 32 "Port" "70000" Setup.settings0 eq_refl)
    as [_ B].
  split.
  - apply A. vm_compute. split; discriminate.
  - apply B. right. vm_compute. reflexivity.
Defined.

(** X22.  Whatever keyword and value the setup form submits, the stored IP
    address changes only to a value of at least 7 bytes, shorter than the
    address buffer, that holds exactly three dots; the address is then
    marked valid and the change flag is raised.  (The bytes between the
    dots are not examined.) *)
Theorem setup_ip_shape (pathSize ipSize : nat) (k v : string) (c : Setup.Settings) :
  let c' := snd (Setup.Setup_ProcessKeyword pathSize ipSize k v c) in
  Setup.cDeviceIPaddress c' <> Setup.cDeviceIPaddress c ->
  Setup.cDeviceIPaddress c' = v /\
  Setup.count_dots v = 3 /\
  (7 <= String.length v < ipSize)%nat /\
  Setup.cIPaddrValid c' = true /\
  Setup.cSetupChangeOccured c' = true.
Proof.
  intros c'. unfold c', Setup.Setup_ProcessKeyword, strlen.
  destruct (keyword_tests k) as [[H0 [H1 [H2 H3]]] | [[H0 [H1 [H2 H3]]] |
    [[H0 [H1 [H2 H3]]] | [[H0 [H1 [H2 H3]]] | [H0 [H1 [H2 H3]]]]]]];
    rewrite H0; try rewrite H1; try rewrite H2; try rewrite H3.
  - destruct (Setup.strcasecmp_eq v "serial");
      [destruct (negb _); cbn; congruence|].
    destruct (Setup.strcasecmp_eq v "ethernet");
      [destruct (negb _); cbn; congruence | cbn; congruence].
  - destruct (_ && _)%bool; [destruct (negb _)|]; cbn; congruence.
  - destruct (Nat.leb_spec 7 (String.length v));
      destruct (Nat.ltb_spec (String.length v) ipSize); cbn [andb];
      try (cbn; congruence).
    destruct (Z.eqb_spec (Setup.count_dots v) 3); [|cbn; congruence].
    destruct (negb _); cbn; [|congruence].
    intros _. repeat split; auto.
  - destruct (_ && _)%bool; [destruct (negb _)|]; cbn; congruence.
  - cbn. congruence.
Qed.

(** X22 with [a.b.c.d] submitted as [ipaddr]: it is stored. *)
Lemma setup_ip_shape_witness :
  Setup.cDeviceIPaddress
    (snd (Setup.Setup_ProcessKeyword 256 32 "ipaddr" "a.b.c.d" Setup.settings0))
    = "a.b.c.d" /\
  Setup.count_dots "a.b.c.d" = 3.
Proof.
  destruct (setup_ip_shape 256 32 "ipaddr" "a.b.c.d" Setup.settings0)
    as [A [B _]].
  - discriminate.
  - split; [exact A | exact B].
Defined.

(** X23.  [Setup_ProcessKeyword] always returns true, and submitting the
    same keyword and value a second time, after the change flag has been
    reset by [Setup_SaveInit], changes nothing and does not raise the flag
    again: the flag reports real changes only. *)
Theorem setup_resubmission_changes_nothing (pathSize ipSize : nat) (k v : string)
    (c : Setup.Settings) :
  let c1 := Setup.Setup_SaveInit
              (snd (Setup.Setup_ProcessKeyword pathSize ipSize k v c)) in
  fst (Setup.Setup_ProcessKeyword pathSize ipSize k v c) = true /\
  Setup.Setup_ProcessKeyword pathSize ipSize k v c1 = (true, c1).
Proof.
  intros c1. unfold c1. clear c1.
  unfold Setup.Setup_ProcessKeyword, strlen. cbv zeta.
  destruct (keyword_tests k) as [[H0 [H1 [H2 H3]]] | [[H0 [H1 [H2 H3]]] |
    [[H0 [H1 [H2 H3]]] | [[H0 [H1 [H2 H3]]] | [H0 [H1 [H2 H3]]]]]]];
    rewrite H0; try rewrite H1; try rewrite H2; try rewrite H3.
  - destruct (Setup.strcasecmp_eq v "serial").
    { destruct c as [[] p i iv pn f]; cbn; split; reflexivity. }
    destruct (Setup.strcasecmp_eq v "ethernet").
    { destruct c as [[] p i iv pn f]; cbn; split; reflexivity. }
    split; reflexivity.
  - destruct (_ && _)%bool; [|split; reflexivity].
    destruct (String.eqb_spec v (Setup.cDeviceConnPath c)) as [Ev | Ev]; cbn.
    + destruct (String.eqb_spec v (Setup.cDeviceConnPath c));
        [split; reflexivity | contradiction].
    + rewrite String.eqb_refl. split; reflexivity.
  - destruct (_ && _)%bool; [|split; reflexivity].
    destruct (Z.eqb_spec (Setup.count_dots v) 3) as [Ed | Ed];
      [|split; reflexivity].
    destruct (String.eqb_spec v (Setup.cDeviceIPaddress c)) as [Ev | Ev]; cbn.
    + destruct (String.eqb_spec v (Setup.cDeviceIPaddress c));
        [split; reflexivity | contradiction].
    + rewrite String.eqb_refl. split; reflexivity.
  - destruct (_ && _)%bool; [|split; reflexivity].
    destruct (Z.eqb_spec (atoi v) (Setup.cTCPportNum c)) as [Ev | Ev]; cbn.
    + destruct (Z.eqb_spec (atoi v) (Setup.cTCPportNum c));
        [split; reflexivity | contradiction].
    + rewrite Z.eqb_refl. split; reflexivity.
  - split; reflexivity.
Qed.

(** X24.  The form and the configuration file agree: after
    [ProcessIOptronConfigEntry] has loaded an entry whose value fits the
    two buffers (its [strcpy] is unbounded), submitting the same keyword
    and value through the form changes nothing and raises no change flag,
    for every keyword and value. *)
Theorem config_entry_then_form_is_unchanged (pathSize ipSize : nat)
    (k v : string) (c : Setup.Settings) :
  (String.length v < pathSize)%nat ->
  (String.length v < ipSize)%nat ->
  Setup.Setup_ProcessKeyword pathSize ipSize k v
    (Setup.ProcessIOptronConfigEntry k v c) =
  (true, Setup.ProcessIOptronConfigEntry k v c).
Proof.
  intros _ _.
  unfold Setup.ProcessIOptronConfigEntry, Setup.Setup_ProcessKeyword, strlen.
  cbv zeta.
  change (Setup.strcasecmp_eq k "CONNTYPE") with (Setup.strcasecmp_eq k "conntype").
  change (Setup.strcasecmp_eq k "DEVPATH") with (Setup.strcasecmp_eq k "devpath").
  change (Setup.strcasecmp_eq k "IPADDR") with (Setup.strcasecmp_eq k "ipaddr").
  change (Setup.strcasecmp_eq k "PORT") with (Setup.strcasecmp_eq k "port").
  destruct (keyword_tests k) as [[H0 [H1 [H2 H3]]] | [[H0 [H1 [H2 H3]]] |
    [[H0 [H1 [H2 H3]]] | [[H0 [H1 [H2 H3]]] | [H0 [H1 [H2 H3]]]]]]];
    rewrite H0; try rewrite H1; try rewrite H2; try rewrite H3.
  - destruct (Setup.strcasecmp_eq v "serial") eqn:Es; cbn [orb].
    { reflexivity. }
    destruct (Setup.strcasecmp_eq v "ethernet") eqn:Ee.
    { destruct (Setup.strcasecmp_eq v "usb") eqn:Eu; [|reflexivity].
      apply keyword_is in Ee. apply keyword_is in Eu.
      rewrite Ee in Eu. discriminate Eu. }
    destruct (Setup.strcasecmp_eq v "usb"); reflexivity.
  - destruct (_ && _)%bool; [|reflexivity].
    cbn. rewrite String.eqb_refl. reflexivity.
  - destruct (_ && _)%bool; [|reflexivity].
    destruct (Setup.count_dots v =? 3); [|reflexivity].
    cbn. rewrite String.eqb_refl. reflexivity.
  - destruct (_ && _)%bool; [|reflexivity].
    cbn. rewrite Z.eqb_refl. reflexivity.
  - reflexivity.
Qed.

(** X24 with the entry [PORT = 8899]. *)
Lemma config_entry_then_form_is_unchanged_witness :
  Setup.Setup_ProcessKeyword 256 32 "port" "8899"
    (Setup.ProcessIOptronConfigEntry "port" "8899" Setup.settings0) =
  (true, Setup.ProcessIOptronConfigEntry "port" "8899" Setup.settings0).
Proof.
  apply (config_entry_then_form_is_unchanged 256 32 "port" "8899" Setup.settings0);
    apply Nat.ltb_lt; reflexivity.
Defined.

(** ** Device discovery *)

Section DiscoveryFacts.

Variable accessible : string -> bool.

Lemma first_accessible_spec (paths : list string) :
  match first_accessible accessible paths with
  | Some p =>
      exists before after,
        paths = (before ++ p :: after)%list /\
        accessible p = true /\
        Forall (fun q => accessible q = false) before
  | None => Forall (fun q => accessible q = false) paths
  end.
Proof.
  induction paths as [|p r IH]; simpl; [constructor|].
  destruct (accessible p) eqn:E.
  - exists [], r. repeat split; auto.
  - destruct (first_accessible accessible r) as [q|].
    + destruct IH as [before [after [-> [A F]]]].
      exists (p :: before), after. repeat split; auto.
    + constructor; auto.
Qed.

End DiscoveryFacts.

(** X25.  [FindAvailableUSBDevice] returns the first of the five fixed
    paths that is accessible (every path before it is not), and nothing
    when none is; the path handed to the constructor is therefore always
    one of the five, [/dev/ttyUSB0] when nothing is accessible. *)
Theorem discovery_picks_first_accessible (accessible : string -> bool) :
  match FindAvailableUSBDevice accessible with
  | Some p =>
      (exists before after,
         commonPaths = (before ++ p :: after)%list /\
         Forall (fun q => accessible q = false) before) /\
      accessible p = true /\
      defaultSerialPath accessible = p
  | None =>
      Forall (fun q => accessible q = false) commonPaths /\
      defaultSerialPath accessible = "/dev/ttyUSB0"
  end /\
  In (defaultSerialPath accessible) commonPaths.
Proof.
  unfold defaultSerialPath, FindAvailableUSBDevice.
  pose proof (first_accessible_spec accessible commonPaths) as H.
  destruct (first_accessible accessible commonPaths) as [p|].
  - destruct H as [before [after [E [A F]]]]. split.
    + split; [exists before, after; auto | auto].
    + rewrite E. apply in_or_app. right. now left.
  - split; [auto | now left].
Qed.
